(** * tsnet-proxy: service lifecycle manager and health-gated router

    A shallow embedding of the Go packages [internal/config],
    [internal/manager] and [internal/health], and the properties of the
    health state machine, the request dispatcher, the registry and the
    configuration validator that are established about them.

    Conventions of the embedding:
    - a Go [int], [int64] or [time.Duration] is a [Z]; the only arithmetic
      the code performs on one ([failureCount++]) has its 64-bit
      wrap-around written out;
    - a Go [string] is a [string] (a sequence of bytes on both sides);
    - a [*Service] is a location in a heap of [Service] objects, and a
      [map[string]*Service] is a location in a heap of map objects, since
      Go maps are reference values;
    - a call into a library that talks to the network (tsnet, the reverse
      proxy, the HTTP client of the prober) is an event in a trace, and
      its outcome is an input of the function that makes the call. *)

From stdpp Require Import gmap strings list fin_maps.
From Stdlib Require Import ZArith Lia.

Open Scope Z_scope.

(* ===================================================================== *)
(** * Go's [strings] package *)
(* ===================================================================== *)

Module strings.

(** [strings.HasPrefix(s, prefix)]:
    [len(s) >= len(prefix) && s[:len(prefix)] == prefix]. *)
Definition HasPrefix (s prefix : string) : bool := String.prefix prefix s.

(** [s[n:]] for [n <= len(s)]. *)
Fixpoint slice_from (n : nat) (s : string) : string :=
  match n, s with
  | O, _ => s
  | S n', String _ s' => slice_from n' s'
  | S _, EmptyString => EmptyString
  end.

(** [strings.TrimPrefix(s, prefix)]: [s] without the leading [prefix];
    [s] itself when it does not start with [prefix]. *)
Definition TrimPrefix (s prefix : string) : string :=
  if HasPrefix s prefix then slice_from (String.length prefix) s else s.

(** [strings.Split(s, sep)] for a separator [sep] of one byte: the
    pieces of [s] between the occurrences of [sep], one more than there
    are occurrences. *)
Fixpoint Split (s : string) (sep : Ascii.ascii) : list string :=
  match s with
  | EmptyString => [EmptyString]
  | String c s' =>
    if Ascii.eqb c sep then EmptyString :: Split s' sep
    else
      match Split s' sep with
      | [] => [String c EmptyString]
      | piece :: pieces => String c piece :: pieces
      end
  end.

End strings.

(* ===================================================================== *)
(** * Package [config] *)
(* ===================================================================== *)

Module config.

(** [time.Second], in nanoseconds. *)
Definition Second : Z := 1000000000.

Module HealthCheckConfig.
Record t := mk {
  Enabled : bool;
  Path : string;
  Interval : Z;
  Timeout : Z;
  UnhealthyThreshold : Z
}.
End HealthCheckConfig.

Module TLSConfig.
Record t := mk {
  Enabled : bool;
  SkipVerify : bool
}.
End TLSConfig.

Module ManagementUI.
Record t := mk {
  Enabled : bool;
  Hostname : string;
  Port : Z
}.
End ManagementUI.

Module MetricsConfig.
Record t := mk {
  Enabled : bool;
  Port : Z
}.
End MetricsConfig.

Module ServiceConfig.
Record t := mk {
  Name : string;
  Backend : string;
  Paths : list string;
  StripPrefix : bool;
  HealthCheck : HealthCheckConfig.t;
  TLS : TLSConfig.t
}.
End ServiceConfig.

Record Config := mkConfig {
  Services : list ServiceConfig.t;
  AuthKey : string;
  APIKey : string;
  Tailnet : string;
  StateDir : string;
  ManagementUI : ManagementUI.t;
  Metrics : MetricsConfig.t
}.

(** The errors [Validate] builds with [fmt.Errorf], one constructor per
    message. *)
Inductive error :=
| ErrAuthKeyRequired                    (* "authKey is required" *)
| ErrNameRequired (i : nat)             (* "service %d: name is required" *)
| ErrDuplicateName (name : string)      (* "duplicate service name: %s" *)
| ErrBackendRequired (name : string)    (* "service %s: backend URL is required" *)
| ErrBackendScheme (name : string)      (* "... must start with http:// or https://" *)
| ErrHealthPathRequired (name : string) (* "... healthCheck.path is required ..." *).

(** The three assignments to [c.Services[i].HealthCheck] of the loop
    body, each guarded by the test on the loop's copy [svc]. *)
Definition fillHealthCheck (hc : HealthCheckConfig.t) : HealthCheckConfig.t :=
  HealthCheckConfig.mk
    (HealthCheckConfig.Enabled hc)
    (HealthCheckConfig.Path hc)
    (if HealthCheckConfig.Interval hc =? 0 then 30 * 1000000000
     else HealthCheckConfig.Interval hc)
    (if HealthCheckConfig.Timeout hc =? 0 then 5 * 1000000000
     else HealthCheckConfig.Timeout hc)
    (if HealthCheckConfig.UnhealthyThreshold hc =? 0 then 3
     else HealthCheckConfig.UnhealthyThreshold hc).

Definition withHealthCheck (svc : ServiceConfig.t) (hc : HealthCheckConfig.t)
  : ServiceConfig.t :=
  ServiceConfig.mk (ServiceConfig.Name svc) (ServiceConfig.Backend svc)
    (ServiceConfig.Paths svc) (ServiceConfig.StripPrefix svc) hc
    (ServiceConfig.TLS svc).

(** [serviceNames[name]] on a [map[string]bool]: [false] when absent. *)
Definition seen (serviceNames : gmap string bool) (name : string) : bool :=
  default false (serviceNames !! name).

(** The loop [for i, svc := range c.Services] of [Validate], from index
    [i] on: the elements of [c.Services] as the loop leaves them, and the
    error it returns with, if any. An element is written only in its own
    iteration, after [svc] was copied from it. *)
Fixpoint validateServices (i : nat) (serviceNames : gmap string bool)
    (svcs : list ServiceConfig.t) : list ServiceConfig.t * option error :=
  match svcs with
  | [] => ([], None)
  | svc :: rest =>
    let name := ServiceConfig.Name svc in
    let hc := ServiceConfig.HealthCheck svc in
    if bool_decide (name = "") then (svcs, Some (ErrNameRequired i))
    else if seen serviceNames name then (svcs, Some (ErrDuplicateName name))
    else
      let serviceNames' := <[name := true]> serviceNames in
      if bool_decide (ServiceConfig.Backend svc = "") then
        (svcs, Some (ErrBackendRequired name))
      else if negb (strings.HasPrefix (ServiceConfig.Backend svc) "http://")
              && negb (strings.HasPrefix (ServiceConfig.Backend svc) "https://") then
        (svcs, Some (ErrBackendScheme name))
      else if HealthCheckConfig.Enabled hc then
        if bool_decide (HealthCheckConfig.Path hc = "") then
          (svcs, Some (ErrHealthPathRequired name))
        else
          let '(rest', e) := validateServices (S i) serviceNames' rest in
          (withHealthCheck svc (fillHealthCheck hc) :: rest', e)
      else
        let '(rest', e) := validateServices (S i) serviceNames' rest in
        (svc :: rest', e)
  end.

Definition withStateDir (c : Config) (d : string) : Config :=
  mkConfig (Services c) (AuthKey c) (APIKey c) (Tailnet c) d
    (ManagementUI c) (Metrics c).

Definition withServices (c : Config) (l : list ServiceConfig.t) : Config :=
  mkConfig l (AuthKey c) (APIKey c) (Tailnet c) (StateDir c)
    (ManagementUI c) (Metrics c).

Definition withManagementUI (c : Config) (u : ManagementUI.t) : Config :=
  mkConfig (Services c) (AuthKey c) (APIKey c) (Tailnet c) (StateDir c)
    u (Metrics c).

Definition withMetrics (c : Config) (m : MetricsConfig.t) : Config :=
  mkConfig (Services c) (AuthKey c) (APIKey c) (Tailnet c) (StateDir c)
    (ManagementUI c) m.

(** The defaults set after the loop. *)
Definition fillManagementUI (u : ManagementUI.t) : ManagementUI.t :=
  let u1 :=
    if ManagementUI.Enabled u && bool_decide (ManagementUI.Hostname u = "")
    then ManagementUI.mk (ManagementUI.Enabled u) "tsnet-proxy-ui" (ManagementUI.Port u)
    else u in
  if ManagementUI.Enabled u1 && (ManagementUI.Port u1 =? 0)
  then ManagementUI.mk (ManagementUI.Enabled u1) (ManagementUI.Hostname u1) 8080
  else u1.

Definition fillMetrics (m : MetricsConfig.t) : MetricsConfig.t :=
  if MetricsConfig.Enabled m && (MetricsConfig.Port m =? 0)
  then MetricsConfig.mk (MetricsConfig.Enabled m) 9090
  else m.

(** [func (c *Config) Validate() error]: the configuration [c] points to
    when the call returns, and the error returned ([None] is [nil]). *)
Definition Validate (c : Config) : Config * option error :=
  if bool_decide (AuthKey c = "") then (c, Some ErrAuthKeyRequired)
  else
    let c1 := if bool_decide (StateDir c = "") then withStateDir c "/data/tsnet" else c in
    let '(svcs, e) := validateServices 0 ∅ (Services c1) in
    let c2 := withServices c1 svcs in
    match e with
    | Some err => (c2, Some err)
    | None =>
      let c3 := withManagementUI c2 (fillManagementUI (ManagementUI c2)) in
      let c4 := withMetrics c3 (fillMetrics (Metrics c3)) in
      (c4, None)
    end.

End config.

(* ===================================================================== *)
(** * The runtime: heap locations, library objects, events *)
(* ===================================================================== *)

(** A heap address: the value of a [*Service] or of a map. *)
Abbreviation loc := positive (only parsing).

Module tsnet.
(** The fields of [tsnet.Server] the program sets. [Dir] holds the
    elements handed to [filepath.Join]. *)
Record Server := mkServer {
  Hostname : string;
  Dir : list string;
  AuthKey : string;
  Ephemeral : bool
}.

(** A listener obtained from [ts.ListenTLS] ([tls = true]) or
    [ts.Listen]. *)
Record Listener := mkListener {
  server : Server;
  tls : bool;
  network : string;
  addr : string
}.
End tsnet.

Module httputil.
(** [httputil.ReverseProxy] as [AddService] configures it: the target
    URL, and [InsecureSkipVerify] of the custom transport if one was
    installed. Its [ErrorHandler] answers 502 "Bad Gateway". *)
Record ReverseProxy := mkReverseProxy {
  target : string;
  Transport : option bool
}.
End httputil.

(** A goroutine started with [go]. *)
Inductive goroutine :=
| HttpServe (ln : tsnet.Listener) (svc : loc) (proxy : httputil.ReverseProxy)
    (* [http.Serve(ln, createHandler(svc, proxy))] *)
| RunHealthCheck (svc : loc)
    (* [c.runHealthCheck(ctx, svc)] *).

(** What a function of the program does to the outside, in order. *)
Inductive event :=
| TsStart (ts : tsnet.Server)
| TsListenTLS (ts : tsnet.Server) (network addr : string)
| TsListen (ts : tsnet.Server) (network addr : string)
| TsClose (ts : tsnet.Server)
| TsLocalClient (ts : tsnet.Server)
| LcStatus (ts : tsnet.Server)
| ApiDeleteDevice (deviceID : string)
| Go (g : goroutine)
| CloseStopCh
| HttpError (body : string) (code : Z)               (* [http.Error(w, body, code)] *)
| HttpNotFound                                       (* [http.NotFound(w, r)] *)
| ProxyServeHTTP (proxy : httputil.ReverseProxy) (urlPath : string)
    (* [proxy.ServeHTTP(w, r)] with [r.URL.Path = urlPath] *).

Definition StatusNotFound : Z := 404.
Definition StatusServiceUnavailable : Z := 503.
Definition StatusBadGateway : Z := 502.

(** The status line an event writes to the client, if it writes one. *)
Definition status_of (e : event) : option Z :=
  match e with
  | HttpError _ code => Some code
  | HttpNotFound => Some StatusNotFound
  | _ => None
  end.

Definition is_forward (e : event) : bool :=
  match e with ProxyServeHTTP _ _ => true | _ => false end.

Module fmt.
(** [fmt.Sprintf("%d", v)] for a value [v] of a named string type: the
    verb [d] does not fit a string, so what is written is the verb, the
    type and the value. *)
Definition Sprintf_d (type v : string) : string :=
  "%!d(" +:+ type +:+ "=" +:+ v +:+ ")".
End fmt.

Module time.
(** [time.NewTicker(d)]: the ticker, here its period, or [None] for the
    panic "non-positive interval for NewTicker". *)
Definition NewTicker (d : Z) : option Z :=
  if d <=? 0 then None else Some d.
End time.

(* ===================================================================== *)
(** * Package [manager] *)
(* ===================================================================== *)

Module manager.

(** [type Service struct]. [healthy] is the [atomic.Bool]. *)
Record Service := mkService {
  Config : config.ServiceConfig.t;
  tsnetServer : option tsnet.Server;
  reverseProxy : option httputil.ReverseProxy;
  healthy : bool
}.

Definition NewService (cfg : config.ServiceConfig.t) : Service :=
  mkService cfg None None true.

Definition IsHealthy (s : Service) : bool := healthy s.

Definition SetHealthy (s : Service) (h : bool) : Service :=
  mkService (Config s) (tsnetServer s) (reverseProxy s) h.

Definition GetTsnetServer (s : Service) : option tsnet.Server := tsnetServer s.
Definition GetReverseProxy (s : Service) : option httputil.ReverseProxy := reverseProxy s.

(** [type Manager struct], without its lock. [services] is the map
    value: a reference. [apiClient] is [nil] or a client with its
    tailnet and API key. *)
Record Manager := mkManager {
  services : loc;
  authKey : string;
  stateDir : string;
  apiClient : option (string * string);
  tailnet : string
}.

(** The heap and the manager living in it. *)
Record State := mkState {
  svcs : gmap loc Service;
  maps : gmap loc (gmap string loc);
  mgr : Manager
}.

Definition withSvcs (st : State) (h : gmap loc Service) : State :=
  mkState h (maps st) (mgr st).
Definition withMaps (st : State) (h : gmap loc (gmap string loc)) : State :=
  mkState (svcs st) h (mgr st).
Definition withMgr (st : State) (m : Manager) : State :=
  mkState (svcs st) (maps st) m.

(** The map [m.services] refers to. Reading a map that is not there
    reads an empty one, as reading a nil map does. *)
Definition registry (st : State) : gmap string loc :=
  default ∅ (maps st !! services (mgr st)).

(** [m[k] = v] and [delete(m, k)] on the map at reference [r]. *)
Definition mapassign (r : loc) (k : string) (v : loc) (st : State) : State :=
  withMaps st (alter (insert k v) r (maps st)).
Definition mapdelete (r : loc) (k : string) (st : State) : State :=
  withMaps st (alter (delete k) r (maps st)).

(** [svc.SetHealthy(h)] through the pointer [l]. *)
Definition storeHealthy (l : loc) (h : bool) (st : State) : State :=
  withSvcs st (alter (fun s => SetHealthy s h) l (svcs st)).

Definition NewManager (authKey stateDir apiKey tailnet : string) : State :=
  let apiClient :=
    if negb (bool_decide (apiKey = "")) && negb (bool_decide (tailnet = ""))
    then Some (tailnet, apiKey) else None in
  mkState ∅ {[ 1%positive := ∅ ]}
    (mkManager 1%positive authKey stateDir apiClient tailnet).

Inductive error :=
| ErrAlreadyExists (name : string)   (* "service %s already exists" *)
| ErrStart (cause : string)          (* "failed to start tsnet server: %w" *)
| ErrListenTLS (cause : string)      (* "failed to create HTTPS listener: %w" *)
| ErrListen (cause : string)         (* "failed to create HTTP listener: %w" *)
| ErrInvalidBackend (cause : string) (* "invalid backend URL: %w" *)
| ErrNotFound (name : string)        (* "service %s not found" *).

(** What the libraries answer during one [AddService]: for each call,
    [None] for success and [Some cause] for an error. *)
Record Provision := mkProvision {
  ts_Start : option string;
  ts_ListenTLS : option string;
  ts_Listen : option string;
  url_Parse : option string
}.

(** What the libraries answer during one [deleteDevice]. [ID] is
    [status.Self.ID], a [tailcfg.StableNodeID], which is a string. *)
Inductive DeleteOutcome :=
| LocalClientFails
| StatusFails
| NoSelf
| DeleteFails (ID : string)
| Deleted (ID : string).

Definition deleteDevice (m : Manager) (ts : tsnet.Server) (o : DeleteOutcome)
  : list event :=
  match apiClient m with
  | None => []
  | Some _ =>
    match o with
    | LocalClientFails => [TsLocalClient ts]
    | StatusFails | NoSelf => [TsLocalClient ts; LcStatus ts]
    | DeleteFails ID | Deleted ID =>
      let deviceID := fmt.Sprintf_d "tailcfg.StableNodeID" ID in
      [TsLocalClient ts; LcStatus ts; ApiDeleteDevice deviceID]
    end
  end.

(** [func (m *Manager) AddService(cfg config.ServiceConfig) error]. *)
Definition AddService (cfg : config.ServiceConfig.t) (env : Provision)
    (st : State) : State * option error * list event :=
  let name := config.ServiceConfig.Name cfg in
  match registry st !! name with
  | Some _ => (st, Some (ErrAlreadyExists name), [])
  | None =>
    let svc := fresh (dom (svcs st)) in
    let st1 := withSvcs st (<[svc := NewService cfg]> (svcs st)) in
    let ts := tsnet.mkServer name [stateDir (mgr st); name] (authKey (mgr st)) false in
    match ts_Start env with
    | Some e => (st1, Some (ErrStart e), [TsStart ts])
    | None =>
      match ts_ListenTLS env with
      | Some e =>
        (st1, Some (ErrListenTLS e),
         [TsStart ts; TsListenTLS ts "tcp" ":443"; TsClose ts])
      | None =>
        let httpsLn := tsnet.mkListener ts true "tcp" ":443" in
        match ts_Listen env with
        | Some e =>
          (st1, Some (ErrListen e),
           [TsStart ts; TsListenTLS ts "tcp" ":443"; TsListen ts "tcp" ":80";
            TsClose ts])
        | None =>
          let httpLn := tsnet.mkListener ts false "tcp" ":80" in
          match url_Parse env with
          | Some e =>
            (st1, Some (ErrInvalidBackend e),
             [TsStart ts; TsListenTLS ts "tcp" ":443"; TsListen ts "tcp" ":80";
              TsClose ts])
          | None =>
            let tlscfg := config.ServiceConfig.TLS cfg in
            let proxy :=
              httputil.mkReverseProxy (config.ServiceConfig.Backend cfg)
                (if config.TLSConfig.Enabled tlscfg
                 then Some (config.TLSConfig.SkipVerify tlscfg) else None) in
            let st2 :=
              withSvcs st1
                (alter (fun s => mkService (Config s) (Some ts) (Some proxy) (healthy s))
                   svc (svcs st1)) in
            let st3 := mapassign (services (mgr st)) name svc st2 in
            (st3, None,
             [TsStart ts; TsListenTLS ts "tcp" ":443"; TsListen ts "tcp" ":80";
              Go (HttpServe httpsLn svc proxy); Go (HttpServe httpLn svc proxy)])
          end
        end
      end
    end
  end.

(** The body of both [RemoveService] and the loop of [Shutdown] for one
    entry: delete the device and close the server, when there is one. *)
Definition release (st : State) (svc : loc) (o : DeleteOutcome) : list event :=
  match svcs st !! svc ≫= tsnetServer with
  | Some ts => deleteDevice (mgr st) ts o ++ [TsClose ts]
  | None => []
  end.

(** [func (m *Manager) RemoveService(name string) error]. *)
Definition RemoveService (name : string) (o : DeleteOutcome) (st : State)
  : State * option error * list event :=
  match registry st !! name with
  | None => (st, Some (ErrNotFound name), [])
  | Some svc =>
    (mapdelete (services (mgr st)) name st, None, release st svc o)
  end.

(** [GetService(name)], returning a pointer and a flag:
    [None] is [(nil, false)]. *)
Definition GetService (name : string) (st : State) : option loc :=
  registry st !! name.

(** [func (m *Manager) GetAllServices() map[string]*Service]: a new map
    is made and filled entry by entry; the reference to it is
    returned. *)
Definition GetAllServices (st : State) : State * loc :=
  let r := fresh (dom (maps st)) in
  let copy := map_fold (fun k v acc => <[k := v]> acc) ∅ (registry st) in
  (withMaps st (<[r := copy]> (maps st)), r).

(** [func (m *Manager) Shutdown()]: every entry is released, in the
    order the map is ranged over, and [m.services] is set to a new
    map. *)
Definition Shutdown (o : string -> DeleteOutcome) (st : State)
  : State * list event :=
  let evs :=
    flat_map (fun '(name, svc) => release st svc (o name))
      (map_to_list (registry st)) in
  let r := fresh (dom (maps st)) in
  let m := mgr st in
  (mkState (svcs st) (<[r := ∅]> (maps st))
     (mkManager r (authKey m) (stateDir m) (apiClient m) (tailnet m)),
   evs).

(** The loop over [svc.Config.Paths] of the handler: whether a prefix
    matched, and [r.URL.Path] when the loop is left. *)
Fixpoint matchPaths (paths : list string) (stripPrefix : bool)
    (urlPath : string) : bool * string :=
  match paths with
  | [] => (false, urlPath)
  | path :: rest =>
    if strings.HasPrefix urlPath path then
      (true,
       if stripPrefix then
         let p := strings.TrimPrefix urlPath path in
         if bool_decide (p = "") then "/" else p
       else urlPath)
    else matchPaths rest stripPrefix urlPath
  end.

(** The handler [createHandler(svc, proxy)] returns, run on a request
    with [r.URL.Path = urlPath] while [*svc] is [s]. *)
Definition serveHTTP (s : Service) (proxy : httputil.ReverseProxy)
    (urlPath : string) : list event :=
  if negb (IsHealthy s) then
    [HttpError "Service Unavailable" StatusServiceUnavailable]
  else
    let cfg := Config s in
    match config.ServiceConfig.Paths cfg with
    | [] => [ProxyServeHTTP proxy urlPath]
    | paths =>
      let '(matched, urlPath') :=
        matchPaths paths (config.ServiceConfig.StripPrefix cfg) urlPath in
      if negb matched then [HttpNotFound]
      else [ProxyServeHTTP proxy urlPath']
    end.

(** The same handler, reading the service through its pointer. *)
Definition handle (st : State) (svc : loc) (proxy : httputil.ReverseProxy)
    (urlPath : string) : option (list event) :=
  (fun s => serveHTTP s proxy urlPath) <$> svcs st !! svc.

(** [err.Error()] of the errors the manager returns. *)
Definition Error (e : error) : string :=
  match e with
  | ErrAlreadyExists name => "service " +:+ name +:+ " already exists"
  | ErrStart cause => "failed to start tsnet server: " +:+ cause
  | ErrListenTLS cause => "failed to create HTTPS listener: " +:+ cause
  | ErrListen cause => "failed to create HTTP listener: " +:+ cause
  | ErrInvalidBackend cause => "invalid backend URL: " +:+ cause
  | ErrNotFound name => "service " +:+ name +:+ " not found"
  end.

End manager.

(* ===================================================================== *)
(** * Package [health] *)
(* ===================================================================== *)

Module health.

(** Go's [int] on the 64-bit targets the program is built for. *)
Definition max_int : Z := 2 ^ 63 - 1.
Definition int_wrap (z : Z) : Z := (z + 2 ^ 63) mod 2 ^ 64 - 2 ^ 63.

(** What one probe's HTTP exchange came to. *)
Inductive ProbeOutcome :=
| NewRequestFails               (* [http.NewRequestWithContext] errs *)
| DoFails                       (* [c.client.Do] errs: network, timeout *)
| Response (StatusCode : Z).

(** [func (c *Checker) performCheck(svc *manager.Service) bool], given
    the outcome of its exchange. *)
Definition performCheck (o : ProbeOutcome) : bool :=
  match o with
  | NewRequestFails => false
  | DoFails => false
  | Response code => (200 <=? code) && (code <? 400)
  end.

(** The body of [case <-ticker.C] in [runHealthCheck], once
    [performCheck] has returned [healthy]: the new [failureCount] and
    the service object after the stores. [cfg] is the copy of
    [svc.Config.HealthCheck] taken when the goroutine started. *)
Definition tick (cfg : config.HealthCheckConfig.t) (failureCount : Z)
    (s : manager.Service) (healthy : bool) : Z * manager.Service :=
  if negb healthy then
    let failureCount := int_wrap (failureCount + 1) in
    if failureCount >=? config.HealthCheckConfig.UnhealthyThreshold cfg then
      if manager.IsHealthy s then (failureCount, manager.SetHealthy s false)
      else (failureCount, s)
    else (failureCount, s)
  else (0, manager.SetHealthy s true).

(** Ticks in sequence, one per probe result, oldest first. *)
Fixpoint ticks (cfg : config.HealthCheckConfig.t) (failureCount : Z)
    (s : manager.Service) (probes : list bool) : Z * manager.Service :=
  match probes with
  | [] => (failureCount, s)
  | healthy :: rest =>
    let '(failureCount', s') := tick cfg failureCount s healthy in
    ticks cfg failureCount' s' rest
  end.

(** [runHealthCheck] from its start ([failureCount := 0]) on a service
    object, through the given probe results. *)
Definition runHealthCheck (s : manager.Service) (probes : list bool)
  : Z * manager.Service :=
  ticks (config.ServiceConfig.HealthCheck (manager.Config s)) 0 s probes.

(** The locals of one running [runHealthCheck] goroutine. *)
Record Prober := mkProber {
  svc : loc;
  cfg : config.HealthCheckConfig.t;
  failureCount : Z
}.

(** [func (c *Checker) Start(ctx context.Context)]: one goroutine per
    service of the map [GetAllServices] returned whose health check is
    enabled. *)
Definition Start (st : manager.State) : manager.State * list event :=
  let '(st1, r) := manager.GetAllServices st in
  let services := default ∅ (manager.maps st1 !! r) in
  (st1,
   omap (fun '(_, l) =>
           match manager.svcs st1 !! l with
           | Some s =>
             if config.HealthCheckConfig.Enabled
                  (config.ServiceConfig.HealthCheck (manager.Config s))
             then Some (Go (RunHealthCheck l)) else None
           | None => None
           end)
        (map_to_list services)).

(** [func (c *Checker) GetServiceStatus(name string) (healthy, exists bool)]. *)
Definition GetServiceStatus (name : string) (st : manager.State) : bool * bool :=
  match manager.GetService name st ≫= (fun l => manager.svcs st !! l) with
  | Some s => (manager.IsHealthy s, true)
  | None => (false, false)
  end.

(** [func (c *Checker) GetAllStatuses() map[string]bool]: the map is made
    and filled entry by entry from the map [GetAllServices] returned. *)
Definition GetAllStatuses (st : manager.State) : manager.State * gmap string bool :=
  let '(st1, r) := manager.GetAllServices st in
  let services := default ∅ (manager.maps st1 !! r) in
  (st1,
   map_fold (fun name l statuses =>
               match manager.svcs st1 !! l with
               | Some s => <[name := manager.IsHealthy s]> statuses
               | None => statuses
               end) ∅ services).

End health.

(* ===================================================================== *)
(** * The running process *)
(* ===================================================================== *)

(** The manager's heap together with the goroutines of the process and
    the two stop signals of the probers: the checker's [stopCh] and the
    context handed to [Start]. [probers] are the [runHealthCheck]
    goroutines that have their ticker; [panicking] are those, named by
    the service they were started for, that have none to get: their
    [time.NewTicker] panics. *)
Record World := mkWorld {
  st : manager.State;
  probers : list health.Prober;
  servers : list (tsnet.Listener * loc * httputil.ReverseProxy);
  stopCh_closed : bool;
  ctx_done : bool;
  panicking : list loc
}.

Definition withSt (w : World) (s : manager.State) : World :=
  mkWorld s (probers w) (servers w) (stopCh_closed w) (ctx_done w) (panicking w).

(** The effect of one event on the process. [go c.runHealthCheck(ctx,
    svc)] adds a goroutine, which begins with
    [cfg := svc.Config.HealthCheck], [time.NewTicker(cfg.Interval)] and
    [failureCount := 0]: with an interval above zero it is a prober
    waiting in its [select] (what it does before touches nothing
    shared); with any other interval it is a goroutine whose
    [NewTicker] panics. [close(c.stopCh)] closes the channel. Calls into
    the network leave the process as it is. *)
Definition perform (w : World) (e : event) : World :=
  match e with
  | Go (RunHealthCheck l) =>
    match manager.svcs (st w) !! l with
    | Some s =>
      let cfg := config.ServiceConfig.HealthCheck (manager.Config s) in
      match time.NewTicker (config.HealthCheckConfig.Interval cfg) with
      | Some _ =>
        mkWorld (st w) (probers w ++ [health.mkProber l cfg 0])
          (servers w) (stopCh_closed w) (ctx_done w) (panicking w)
      | None =>
        mkWorld (st w) (probers w) (servers w) (stopCh_closed w) (ctx_done w)
          (panicking w ++ [l])
      end
    | None => w
    end
  | Go (HttpServe ln l proxy) =>
    mkWorld (st w) (probers w) (servers w ++ [(ln, l, proxy)])
      (stopCh_closed w) (ctx_done w) (panicking w)
  | CloseStopCh =>
    mkWorld (st w) (probers w) (servers w) true (ctx_done w) (panicking w)
  | _ => w
  end.

Definition exec (w : World) (r : manager.State * list event) : World :=
  foldl perform (withSt w r.1) r.2.

Definition initial (authKey stateDir apiKey tailnet : string) : World :=
  mkWorld (manager.NewManager authKey stateDir apiKey tailnet) [] [] false false [].

Definition AddService (cfg : config.ServiceConfig.t) (env : manager.Provision)
    (w : World) : World :=
  let '(s, _, evs) := manager.AddService cfg env (st w) in exec w (s, evs).

Definition RemoveService (name : string) (o : manager.DeleteOutcome)
    (w : World) : World :=
  let '(s, _, evs) := manager.RemoveService name o (st w) in exec w (s, evs).

Definition Shutdown (o : string -> manager.DeleteOutcome) (w : World) : World :=
  exec w (manager.Shutdown o (st w)).

Definition CheckerStart (w : World) : World := exec w (health.Start (st w)).

(** [func (c *Checker) Stop()]. *)
Definition CheckerStop (w : World) : World := exec w (st w, [CloseStopCh]).

(** One firing of the ticker of the [i]-th prober. *)
Definition proberTick (i : nat) (o : health.ProbeOutcome) (w : World)
  : option World :=
  p ← probers w !! i;
  s ← manager.svcs (st w) !! health.svc p;
  let '(fc, s') :=
    health.tick (health.cfg p) (health.failureCount p) s (health.performCheck o) in
  Some (mkWorld
          (manager.withSvcs (st w) (<[health.svc p := s']> (manager.svcs (st w))))
          (<[i := health.mkProber (health.svc p) (health.cfg p) fc]> (probers w))
          (servers w) (stopCh_closed w) (ctx_done w) (panicking w)).

(** The [i]-th prober returns from [runHealthCheck]. *)
Definition proberExit (i : nat) (w : World) : World :=
  mkWorld (st w) (delete i (probers w)) (servers w) (stopCh_closed w) (ctx_done w)
    (panicking w).

(** What the process can do next, as long as it runs. A prober's
    [select] takes any ready case: a tick can still be served when a
    stop signal is up, and the goroutine can return only when one is. A
    goroutine that is to panic has not run yet, and everything else goes
    on until it does. *)
Inductive step : World -> World -> Prop :=
| step_AddService w cfg env :
    step w (AddService cfg env w)
| step_RemoveService w name o :
    step w (RemoveService name o w)
| step_Shutdown w o :
    step w (Shutdown o w)
| step_GetAllServices w :
    step w (withSt w (manager.GetAllServices (st w)).1)
| step_CheckerStart w :
    step w (CheckerStart w)
| step_CheckerStop w :
    stopCh_closed w = false ->
    step w (CheckerStop w)
| step_cancel w :
    step w (mkWorld (st w) (probers w) (servers w) (stopCh_closed w) true
              (panicking w))
| step_tick w i o w' :
    proberTick i o w = Some w' ->
    step w w'
| step_exit w i :
    ctx_done w = true \/ stopCh_closed w = true ->
    (i < length (probers w))%nat ->
    step w (proberExit i w).

(** How the process ends while it could go on: a goroutine reaches a
    [time.NewTicker] that panics. Nothing recovers the panic, so the Go
    runtime ends the program, and every goroutine with it. *)
Definition crashes (w : World) : Prop :=
  exists l, l ∈ panicking w.

Inductive reachable (w0 : World) : World -> Prop :=
| reachable_refl : reachable w0 w0
| reachable_step w w' : reachable w0 w -> step w w' -> reachable w0 w'.

(** The probers that check the service at [l]. *)
Definition probersOf (l : loc) (w : World) : list health.Prober :=
  filter (fun p => health.svc p = l) (probers w).

(* ===================================================================== *)
(** * Package [main] *)
(* ===================================================================== *)

Module main.

(** The loop of [main] over [cfg.Services]: a service that cannot be
    added is logged and skipped. [env i] is what the libraries answer
    during the call for the [i]-th service. *)
Fixpoint addServices (i : nat) (env : nat -> manager.Provision)
    (svcs : list config.ServiceConfig.t) (w : World) : World :=
  match svcs with
  | [] => w
  | svcCfg :: rest => addServices (S i) env rest (AddService svcCfg (env i) w)
  end.

(** [main] from the loaded configuration to the started health checker:
    [NewManager], the loop, [NewChecker] and [Start]. *)
Definition start (cfg : config.Config) (env : nat -> manager.Provision) : World :=
  CheckerStart
    (addServices 0 env (config.Services cfg)
       (initial (config.AuthKey cfg) (config.StateDir cfg)
          (config.APIKey cfg) (config.Tailnet cfg))).

(** [main] from the parsed configuration file: [config.Load] validates
    what it parsed, and [main] ends with [log.Fatalf] ([None]) when that
    fails. *)
Definition run (parsed : config.Config) (env : nat -> manager.Provision)
  : option World :=
  match config.Validate parsed with
  | (cfg, None) => Some (start cfg env)
  | (_, Some _) => None
  end.

End main.

(* ===================================================================== *)
(** * Package [ui]: the REST API *)
(* ===================================================================== *)

Module ui.

(** What package [time] does for the handlers: [time.ParseDuration],
    which gives a duration or the text of its error, and
    [Duration.String]. *)
Record Time := mkTime {
  ParseDuration : string -> Z + string;
  DurationString : Z -> string
}.

(** The [HealthCheck] struct of [ServiceRequest] and of
    [ServiceResponse]. *)
Module HealthCheckJSON.
Record t := mk {
  Enabled : bool;
  Path : string;
  Interval : string;
  Timeout : string;
  UnhealthyThreshold : Z
}.
End HealthCheckJSON.

Module ServiceRequest.
Record t := mk {
  Name : string;
  Backend : string;
  Paths : list string;
  StripPrefix : bool;
  HealthCheck : HealthCheckJSON.t;
  TLS : config.TLSConfig.t
}.
End ServiceRequest.

Module ServiceResponse.
Record t := mk {
  Name : string;
  Backend : string;
  Paths : list string;
  StripPrefix : bool;
  Healthy : bool;
  HealthCheck : HealthCheckJSON.t;
  TLS : config.TLSConfig.t
}.
End ServiceResponse.

(** What a handler encodes as JSON. *)
Inductive Payload :=
| Services (l : list ServiceResponse.t)
| Service (r : ServiceResponse.t)
| Status (status message : string)
| Statuses (m : gmap string bool).

(** What a handler answers: [http.Error(w, body, code)]; a payload
    under a status code (200 unless [WriteHeader] was called); or a
    panic, which [net/http] recovers from by dropping the connection. *)
Inductive Response :=
| ErrorReply (body : string) (code : Z)
| JSONReply (code : Z) (p : Payload)
| Panic.

Definition code_of (r : Response) : option Z :=
  match r with
  | ErrorReply _ code => Some code
  | JSONReply code _ => Some code
  | Panic => None
  end.

(** The process as the handlers see it: the manager and checker, and
    the configuration [h.config] points to. *)
Record App := mkApp {
  world : World;
  cfg : config.Config
}.

(** The fields of the response filled from a service. *)
Definition toResponse (t : Time) (svc : manager.Service) : ServiceResponse.t :=
  let c := manager.Config svc in
  let hc := config.ServiceConfig.HealthCheck c in
  ServiceResponse.mk
    (config.ServiceConfig.Name c) (config.ServiceConfig.Backend c)
    (config.ServiceConfig.Paths c) (config.ServiceConfig.StripPrefix c)
    (manager.IsHealthy svc)
    (HealthCheckJSON.mk
       (config.HealthCheckConfig.Enabled hc) (config.HealthCheckConfig.Path hc)
       (DurationString t (config.HealthCheckConfig.Interval hc))
       (DurationString t (config.HealthCheckConfig.Timeout hc))
       (config.HealthCheckConfig.UnhealthyThreshold hc))
    (config.ServiceConfig.TLS c).

(** [func (h *APIHandler) ListServices]. *)
Definition ListServices (t : Time) (method : string) (a : App) : App * Response :=
  if negb (bool_decide (method = "GET")) then
    (a, ErrorReply "Method not allowed" 405)
  else
    let '(st1, r) := manager.GetAllServices (st (world a)) in
    let services := default ∅ (manager.maps st1 !! r) in
    (mkApp (withSt (world a) st1) (cfg a),
     match
       mapM (fun '(_, l) => toResponse t <$> manager.svcs st1 !! l)
         (map_to_list services)
     with
     | Some response => JSONReply 200 (Services response)
     | None => Panic
     end).

(** The byte of the separator "/". *)
Definition slash : Ascii.ascii :=
  Ascii.Ascii true true true true false true false false.

(** [parts[3]] of the path split at "/", when there are four parts. *)
Definition nameInPath (urlPath : string) : option string :=
  let parts := strings.Split urlPath slash in
  if (length parts <? 4)%nat then None else parts !! 3%nat.

(** [func (h *APIHandler) GetService]. *)
Definition GetService (t : Time) (method urlPath : string) (a : App) : Response :=
  if negb (bool_decide (method = "GET")) then
    ErrorReply "Method not allowed" 405
  else
    match nameInPath urlPath with
    | None => ErrorReply "Service name required" 400
    | Some name =>
      match manager.GetService name (st (world a)) with
      | None => ErrorReply "Service not found" 404
      | Some l =>
        match manager.svcs (st (world a)) !! l with
        | Some svc => JSONReply 200 (Service (toResponse t svc))
        | None => Panic
        end
      end
    end.

(** The conversion of the request to a [config.ServiceConfig] in
    [AddService]: the configuration, or the error reply of a duration
    that does not parse. The health check is copied only when the
    request enables it. *)
Definition toServiceConfig (t : Time) (req : ServiceRequest.t)
  : config.ServiceConfig.t + Response :=
  let hc := ServiceRequest.HealthCheck req in
  let svcCfg healthCheck :=
    config.ServiceConfig.mk
      (ServiceRequest.Name req) (ServiceRequest.Backend req)
      (ServiceRequest.Paths req) (ServiceRequest.StripPrefix req)
      healthCheck (ServiceRequest.TLS req) in
  if HealthCheckJSON.Enabled hc then
    match ParseDuration t (HealthCheckJSON.Interval hc) with
    | inr err => inr (ErrorReply ("Invalid interval duration: " +:+ err) 400)
    | inl interval =>
      match ParseDuration t (HealthCheckJSON.Timeout hc) with
      | inr err => inr (ErrorReply ("Invalid timeout duration: " +:+ err) 400)
      | inl timeout =>
        inl (svcCfg
               (config.HealthCheckConfig.mk
                  (HealthCheckJSON.Enabled hc) (HealthCheckJSON.Path hc)
                  interval timeout (HealthCheckJSON.UnhealthyThreshold hc)))
      end
    end
  else inl (svcCfg (config.HealthCheckConfig.mk false "" 0 0 0)).

(** [func (h *APIHandler) AddService] as far as its return from
    [h.manager.AddService]: the process then, and either the answer of
    a handler that is done, or the service a handler that goes on has
    to append to [h.config.Services]. *)
Definition AddService_call (t : Time) (method : string)
    (body : ServiceRequest.t + string) (env : manager.Provision) (a : App)
  : App * (Response + config.ServiceConfig.t) :=
  if negb (bool_decide (method = "POST")) then
    (a, inl (ErrorReply "Method not allowed" 405))
  else
    match body with
    | inr err => (a, inl (ErrorReply ("Invalid request body: " +:+ err) 400))
    | inl req =>
      match toServiceConfig t req with
      | inr reply => (a, inl reply)
      | inl svcCfg =>
        let w' := AddService svcCfg env (world a) in
        match (manager.AddService svcCfg env (st (world a))).1.2 with
        | Some err =>
          (mkApp w' (cfg a),
           inl (ErrorReply ("Failed to add service: " +:+ manager.Error err) 500))
        | None => (mkApp w' (cfg a), inr svcCfg)
        end
      end
    end.

(** [func (h *APIHandler) AddService] run from its first line to its
    last with nothing else running in between: the process afterwards,
    the answer, and the configurations handed to [config.Save]. [body]
    is the decoded request or the text of the decoding error. *)
Definition AddService (t : Time) (method : string)
    (body : ServiceRequest.t + string) (env : manager.Provision) (a : App)
  : App * Response * list config.Config :=
  if negb (bool_decide (method = "POST")) then
    (a, ErrorReply "Method not allowed" 405, [])
  else
    match body with
    | inr err => (a, ErrorReply ("Invalid request body: " +:+ err) 400, [])
    | inl req =>
      match toServiceConfig t req with
      | inr reply => (a, reply, [])
      | inl svcCfg =>
        let w' := AddService svcCfg env (world a) in
        match (manager.AddService svcCfg env (st (world a))).1.2 with
        | Some err =>
          (mkApp w' (cfg a),
           ErrorReply ("Failed to add service: " +:+ manager.Error err) 500, [])
        | None =>
          let cfg' :=
            config.withServices (cfg a) (config.Services (cfg a) ++ [svcCfg]) in
          (mkApp w' cfg',
           JSONReply 201
             (Status "success"
                ("Service " +:+ config.ServiceConfig.Name svcCfg
                 +:+ " added successfully")),
           [cfg'])
        end
      end
    end.

(** [func (h *APIHandler) DeleteService] as far as its return from
    [h.manager.RemoveService]: the process then, and either the answer
    of a handler that is done, or the name a handler that goes on has to
    take out of [h.config.Services]. *)
Definition DeleteService_call (method urlPath : string) (o : manager.DeleteOutcome)
    (a : App) : App * (Response + string) :=
  if negb (bool_decide (method = "DELETE")) then
    (a, inl (ErrorReply "Method not allowed" 405))
  else
    match nameInPath urlPath with
    | None => (a, inl (ErrorReply "Service name required" 400))
    | Some name =>
      let w' := RemoveService name o (world a) in
      match (manager.RemoveService name o (st (world a))).1.2 with
      | Some err =>
        (mkApp w' (cfg a),
         inl (ErrorReply ("Failed to remove service: " +:+ manager.Error err) 500))
      | None => (mkApp w' (cfg a), inr name)
      end
    end.

(** [func (h *APIHandler) DeleteService] run from its first line to its
    last with nothing else running in between. *)
Definition DeleteService (method urlPath : string) (o : manager.DeleteOutcome)
    (a : App) : App * Response * list config.Config :=
  if negb (bool_decide (method = "DELETE")) then
    (a, ErrorReply "Method not allowed" 405, [])
  else
    match nameInPath urlPath with
    | None => (a, ErrorReply "Service name required" 400, [])
    | Some name =>
      let w' := RemoveService name o (world a) in
      match (manager.RemoveService name o (st (world a))).1.2 with
      | Some err =>
        (mkApp w' (cfg a),
         ErrorReply ("Failed to remove service: " +:+ manager.Error err) 500, [])
      | None =>
        let newServices :=
          filter (fun svc => config.ServiceConfig.Name svc <> name)
            (config.Services (cfg a)) in
        let cfg' := config.withServices (cfg a) newServices in
        (mkApp w' cfg',
         JSONReply 200
           (Status "success" ("Service " +:+ name +:+ " removed successfully")),
         [cfg'])
      end
    end.

(** [func (h *APIHandler) HealthStatus]. *)
Definition HealthStatus (method : string) (a : App) : App * Response :=
  if negb (bool_decide (method = "GET")) then
    (a, ErrorReply "Method not allowed" 405)
  else
    let '(st1, statuses) := health.GetAllStatuses (st (world a)) in
    (mkApp (withSt (world a) st1) (cfg a), JSONReply 200 (Statuses statuses)).

(** Where a handler stands that is back from the manager and has
    [h.config] to bring up to date. [net/http] runs each request in a
    goroutine of its own, the manager's lock is released by then, and
    [h.config] has no lock: between any two of these points other
    handlers run. *)
Inductive Handler :=
| Appending (svcCfg : config.ServiceConfig.t)
    (* [AddService], about to read [h.config.Services] for [append] *)
| Filtering (name : string)
    (* [DeleteService], about to range over [h.config.Services] *)
| Assigning (services : list config.ServiceConfig.t)
    (* either, about to store the slice it built in [h.config.Services] *)
| Saving
    (* either, about to hand [h.config] to [config.Save] and answer *).

(** The API while it is served: the process and [h.config], the
    handlers in flight, and the configurations handed to [config.Save]
    so far, oldest first. *)
Record Server := mkServer {
  app : App;
  handlers : list Handler;
  saved : list config.Config
}.

(** The API when [main] starts serving it. *)
Definition boot (a : App) : Server := mkServer a [] [].

(** A handler returns from the manager: it is done with an answer, or
    goes on as [h x]. *)
Definition enter {X : Type} (s : Server) (r : App * (Response + X))
    (h : X -> Handler) : Server :=
  match r.2 with
  | inl _ => mkServer r.1 (handlers s) (saved s)
  | inr x => mkServer r.1 (handlers s ++ [h x]) (saved s)
  end.

(** The [i]-th handler in flight takes its next step on [h.config]: it
    reads the services, stores the slice it built, or saves and
    answers. A read and a store each take the field as a whole. *)
Definition advance (i : nat) (s : Server) : option Server :=
  match handlers s !! i with
  | None => None
  | Some h =>
    let a := app s in
    Some
      match h with
      | Appending svcCfg =>
        mkServer a
          (<[i := Assigning (config.Services (cfg a) ++ [svcCfg])]> (handlers s))
          (saved s)
      | Filtering name =>
        mkServer a
          (<[i := Assigning
                    (filter (fun svc => config.ServiceConfig.Name svc <> name)
                       (config.Services (cfg a)))]> (handlers s))
          (saved s)
      | Assigning services =>
        mkServer (mkApp (world a) (config.withServices (cfg a) services))
          (<[i := Saving]> (handlers s)) (saved s)
      | Saving =>
        mkServer a (delete i (handlers s)) (saved s ++ [cfg a])
      end
  end.

(** What happens while the API is being served: its handlers are
    called, those that change [h.config] go on step by step in any
    order, and the probers started by [main] tick and return. *)
Inductive step (t : Time) : Server -> Server -> Prop :=
| step_ListServices method s :
    step t s (mkServer (ListServices t method (app s)).1 (handlers s) (saved s))
| step_AddService method body env s :
    step t s (enter s (AddService_call t method body env (app s)) Appending)
| step_DeleteService method urlPath o s :
    step t s (enter s (DeleteService_call method urlPath o (app s)) Filtering)
| step_HealthStatus method s :
    step t s (mkServer (HealthStatus method (app s)).1 (handlers s) (saved s))
| step_advance i s s' :
    advance i s = Some s' ->
    step t s s'
| step_tick s i o w' :
    proberTick i o (world (app s)) = Some w' ->
    step t s (mkServer (mkApp w' (cfg (app s))) (handlers s) (saved s))
| step_exit s i :
    ctx_done (world (app s)) = true \/ stopCh_closed (world (app s)) = true ->
    (i < length (probers (world (app s))))%nat ->
    step t s (mkServer (mkApp (proberExit i (world (app s))) (cfg (app s)))
                (handlers s) (saved s)).

Inductive serving (t : Time) (s0 : Server) : Server -> Prop :=
| serving_refl : serving t s0 s0
| serving_step s s' : serving t s0 s -> step t s s' -> serving t s0 s'.

(** Serving in which the handlers that change [h.config] come one at a
    time: none is called while another is in flight. *)
Inductive serial (t : Time) (s0 : Server) : Server -> Prop :=
| serial_refl : serial t s0 s0
| serial_step s s' :
    serial t s0 s -> step t s s' -> (length (handlers s') <= 1)%nat ->
    serial t s0 s'.

End ui.

(* ===================================================================== *)
(** * Package [metrics] *)
(* ===================================================================== *)

Module metrics.

(** [type responseWriter struct], without the writer it wraps: what
    that writer receives is in the trace. *)
Record responseWriter := mkResponseWriter {
  statusCode : Z;
  written : bool
}.

(** What reaches the wrapped [http.ResponseWriter] and the Prometheus
    collectors. The status label of [RequestsInc] is
    [strconv.Itoa(status)]. *)
Inductive call :=
| UnderlyingWriteHeader (code : Z)
| UnderlyingWrite (b : string)
| ActiveInc (service : string)
| ActiveDec (service : string)
| RequestsInc (service method : string) (status : Z)
| DurationObserve (service method : string).

(** [func (rw *responseWriter) WriteHeader(code int)]. *)
Definition WriteHeader (rw : responseWriter) (code : Z)
  : responseWriter * list call :=
  if negb (written rw) then
    (mkResponseWriter code true, [UnderlyingWriteHeader code])
  else (rw, []).

(** [func (rw *responseWriter) Write(b []byte) (int, error)]. *)
Definition Write (rw : responseWriter) (b : string)
  : responseWriter * list call :=
  let '(rw1, calls) :=
    if negb (written rw) then WriteHeader rw 200 else (rw, []) in
  (rw1, calls ++ [UnderlyingWrite b]).

(** What a handler does with the writer it is given. *)
Inductive op :=
| OpWriteHeader (code : Z)
| OpWrite (b : string).

(** The calls of a handler on the wrapper, in order. *)
Fixpoint serve (ops : list op) (rw : responseWriter)
  : responseWriter * list call :=
  match ops with
  | [] => (rw, [])
  | o :: rest =>
    let '(rw1, calls1) :=
      match o with
      | OpWriteHeader code => WriteHeader rw code
      | OpWrite b => Write rw b
      end in
    let '(rw2, calls2) := serve rest rw1 in
    (rw2, calls1 ++ calls2)
  end.

(** The handler [MetricsMiddleware(serviceName, next)] returns, on a
    request with the given method, when [next] makes the calls [ops] on
    the writer and then returns or ([panics]) panics: the deferred
    decrement runs either way, the recording only on return. *)
Definition MetricsMiddleware (serviceName method : string)
    (ops : list op) (panics : bool) : list call :=
  let rw := mkResponseWriter 200 false in
  let '(rw', calls) := serve ops rw in
  [ActiveInc serviceName] ++ calls ++
  (if panics then []
   else [RequestsInc serviceName method (statusCode rw');
         DurationObserve serviceName method]) ++
  [ActiveDec serviceName].

End metrics.

(* ===================================================================== *)
(** * Callers of the registry, and statements under test *)
(* ===================================================================== *)

(** The manager's map is allocated. *)
Definition wf (s : manager.State) : Prop :=
  is_Some (manager.maps s !! manager.services (manager.mgr s)).

(** What a caller can do with the map [GetAllServices] returned, held
    at reference [r]: [r[k] = v], [delete(r, k)], and
    [r[k].SetHealthy(h)]. *)
Inductive mutation :=
| Assign (k : string) (v : loc)
| Delete (k : string)
| SetHealthyOf (k : string) (h : bool).

Definition mutate (r : loc) (s : manager.State) (m : mutation) : manager.State :=
  match m with
  | Assign k v => manager.mapassign r k v s
  | Delete k => manager.mapdelete r k s
  | SetHealthyOf k h =>
    match manager.maps s !! r ≫= (fun m => m !! k) with
    | Some l => manager.storeHealthy l h s
    | None => s
    end
  end.

Definition is_map_mutation (m : mutation) : bool :=
  match m with SetHealthyOf _ _ => false | _ => true end.

(** The state of the registered services: each name with the object its
    pointer leads to. *)
Definition registered (s : manager.State) : gmap string (option manager.Service) :=
  (fun l => manager.svcs s !! l) <$> manager.registry s.

(** The reading of "defensive copy" under which no use of the returned
    value, its services included, shows in the registry. *)
Definition returned_map_is_isolated : Prop :=
  forall (s : manager.State) (muts : list mutation),
    wf s ->
    let '(s1, r) := manager.GetAllServices s in
    let s2 := foldl (mutate r) s1 muts in
    manager.registry s2 = manager.registry s /\ registered s2 = registered s.



(** Following the spec's words: the defects a configuration is rejected
    for. *)
Definition service_defect (svc : config.ServiceConfig.t) : Prop :=
  config.ServiceConfig.Name svc = "" \/
  config.ServiceConfig.Backend svc = "" \/
  (strings.HasPrefix (config.ServiceConfig.Backend svc) "http://" = false /\
   strings.HasPrefix (config.ServiceConfig.Backend svc) "https://" = false) \/
  (config.HealthCheckConfig.Enabled (config.ServiceConfig.HealthCheck svc) = true /\
   config.HealthCheckConfig.Path (config.ServiceConfig.HealthCheck svc) = "").

Definition defective (c : config.Config) : Prop :=
  config.AuthKey c = "" \/
  Exists service_defect (config.Services c) \/
  ~ NoDup (config.ServiceConfig.Name <$> config.Services c).

(** Following the spec's words: an accepted configuration has the
    default in every optional field that was unset (zero). *)
Definition every_unset_field_defaulted (c c' : config.Config) : Prop :=
  (forall i svc svc',
     config.Services c !! i = Some svc ->
     config.Services c' !! i = Some svc' ->
     let hc := config.ServiceConfig.HealthCheck svc in
     let hc' := config.ServiceConfig.HealthCheck svc' in
     (config.HealthCheckConfig.Interval hc = 0 ->
      config.HealthCheckConfig.Interval hc' = 30 * config.Second) /\
     (config.HealthCheckConfig.Timeout hc = 0 ->
      config.HealthCheckConfig.Timeout hc' = 5 * config.Second) /\
     (config.HealthCheckConfig.UnhealthyThreshold hc = 0 ->
      config.HealthCheckConfig.UnhealthyThreshold hc' = 3)) /\
  (config.ManagementUI.Port (config.ManagementUI c) = 0 ->
   config.ManagementUI.Port (config.ManagementUI c') = 8080) /\
  (config.MetricsConfig.Port (config.Metrics c) = 0 ->
   config.MetricsConfig.Port (config.Metrics c') = 9090).

Definition Validate_fills_every_default : Prop :=
  forall c c', config.Validate c = (c', None) -> every_unset_field_defaulted c c'.

(** What holds of the health checks in every state of the process: a
    service whose health check is disabled has its flag set, and every
    prober checks a service object whose health check is enabled. *)
Definition health_checks_sound (w : World) : Prop :=
  (forall l s,
     manager.svcs (st w) !! l = Some s ->
     config.HealthCheckConfig.Enabled
       (config.ServiceConfig.HealthCheck (manager.Config s)) = false ->
     manager.IsHealthy s = true) /\
  (forall p,
     p ∈ probers w ->
     exists s,
       manager.svcs (st w) !! health.svc p = Some s /\
       config.HealthCheckConfig.Enabled
         (config.ServiceConfig.HealthCheck (manager.Config s)) = true).

(** The prober the goroutine [Start] launches for the service at [l]
    becomes, if [Start] launches one and it gets its ticker. *)
Definition proberFor (s : manager.State) (l : loc) : option health.Prober :=
  match manager.svcs s !! l with
  | Some svc =>
    let hc := config.ServiceConfig.HealthCheck (manager.Config svc) in
    if config.HealthCheckConfig.Enabled hc then
      match time.NewTicker (config.HealthCheckConfig.Interval hc) with
      | Some _ => Some (health.mkProber l hc 0)
      | None => None
      end
    else None
  | None => None
  end.

(** The goroutine [Start] launches for the service at [l], if it
    launches one and its [time.NewTicker] panics. *)
Definition panicFor (s : manager.State) (l : loc) : option loc :=
  match manager.svcs s !! l with
  | Some svc =>
    let hc := config.ServiceConfig.HealthCheck (manager.Config svc) in
    if config.HealthCheckConfig.Enabled hc then
      match time.NewTicker (config.HealthCheckConfig.Interval hc) with
      | Some _ => None
      | None => Some l
      end
    else None
  | None => None
  end.


(** The probers have their ticker. *)
Definition probers_ticking (w : World) : Prop :=
  forall p, p ∈ probers w -> 0 < config.HealthCheckConfig.Interval (health.cfg p).

(** An event that neither starts a prober nor closes the stop channel. *)
Definition quiet (e : event) : Prop :=
  (forall l, e <> Go (RunHealthCheck l)) /\ e <> CloseStopCh.

(** What [Validate] does fill in: the defaults of a block that is
    enabled. A service keeps its name, backend, paths, strip flag, TLS
    block and the enabled flag and path of its health check; its
    interval, timeout and threshold get their defaults where they are
    zero when the health check is enabled, and stay as they are when it
    is not. The same for the hostname and port of the management UI and
    for the port of the metrics. *)
Definition service_defaulted (svc svc' : config.ServiceConfig.t) : Prop :=
  let hc := config.ServiceConfig.HealthCheck svc in
  let hc' := config.ServiceConfig.HealthCheck svc' in
  config.ServiceConfig.Name svc' = config.ServiceConfig.Name svc /\
  config.ServiceConfig.Backend svc' = config.ServiceConfig.Backend svc /\
  config.ServiceConfig.Paths svc' = config.ServiceConfig.Paths svc /\
  config.ServiceConfig.StripPrefix svc' = config.ServiceConfig.StripPrefix svc /\
  config.ServiceConfig.TLS svc' = config.ServiceConfig.TLS svc /\
  config.HealthCheckConfig.Enabled hc' = config.HealthCheckConfig.Enabled hc /\
  config.HealthCheckConfig.Path hc' = config.HealthCheckConfig.Path hc /\
  (config.HealthCheckConfig.Enabled hc = true ->
   config.HealthCheckConfig.Interval hc' =
     (if bool_decide (config.HealthCheckConfig.Interval hc = 0)
      then 30 * config.Second else config.HealthCheckConfig.Interval hc) /\
   config.HealthCheckConfig.Timeout hc' =
     (if bool_decide (config.HealthCheckConfig.Timeout hc = 0)
      then 5 * config.Second else config.HealthCheckConfig.Timeout hc) /\
   config.HealthCheckConfig.UnhealthyThreshold hc' =
     (if bool_decide (config.HealthCheckConfig.UnhealthyThreshold hc = 0)
      then 3 else config.HealthCheckConfig.UnhealthyThreshold hc)) /\
  (config.HealthCheckConfig.Enabled hc = false -> svc' = svc).

Definition enabled_fields_defaulted (c c' : config.Config) : Prop :=
  config.AuthKey c' = config.AuthKey c /\
  config.APIKey c' = config.APIKey c /\
  config.Tailnet c' = config.Tailnet c /\
  config.StateDir c' =
    (if bool_decide (config.StateDir c = "") then "/data/tsnet"
     else config.StateDir c) /\
  Forall2 service_defaulted (config.Services c) (config.Services c') /\
  (let u := config.ManagementUI c in
   let u' := config.ManagementUI c' in
   (config.ManagementUI.Enabled u = true ->
    config.ManagementUI.Enabled u' = true /\
    config.ManagementUI.Hostname u' =
      (if bool_decide (config.ManagementUI.Hostname u = "") then "tsnet-proxy-ui"
       else config.ManagementUI.Hostname u) /\
    config.ManagementUI.Port u' =
      (if bool_decide (config.ManagementUI.Port u = 0) then 8080
       else config.ManagementUI.Port u)) /\
   (config.ManagementUI.Enabled u = false -> u' = u)) /\
  (let m := config.Metrics c in
   let m' := config.Metrics c' in
   (config.MetricsConfig.Enabled m = true ->
    config.MetricsConfig.Enabled m' = true /\
    config.MetricsConfig.Port m' =
      (if bool_decide (config.MetricsConfig.Port m = 0) then 9090
       else config.MetricsConfig.Port m)) /\
   (config.MetricsConfig.Enabled m = false -> m' = m)).

(** Inputs the statements are run on. *)
Module sample.

Definition probe (enabled : bool) (threshold : Z) : config.HealthCheckConfig.t :=
  config.HealthCheckConfig.mk enabled "/health"
    (10 * config.Second) (5 * config.Second) threshold.

Definition api : config.ServiceConfig.t :=
  config.ServiceConfig.mk "api" "http://127.0.0.1:9001" ["/api"] true
    (probe true 2) (config.TLSConfig.mk false false).

Definition web : config.ServiceConfig.t :=
  config.ServiceConfig.mk "web" "http://127.0.0.1:9002" [] false
    (config.HealthCheckConfig.mk false "" 0 0 0) (config.TLSConfig.mk false false).

Definition partial : config.ServiceConfig.t :=
  config.ServiceConfig.mk "ap" "http://127.0.0.1:9003" ["/ap"] true
    (probe true 3) (config.TLSConfig.mk false false).

Definition ok : manager.Provision := manager.mkProvision None None None None.

Definition proxy : httputil.ReverseProxy :=
  httputil.mkReverseProxy "http://127.0.0.1:9001" None.

Definition cfg : config.Config :=
  config.mkConfig [web] "tskey-auth" "" "" ""
    (config.ManagementUI.mk false "" 0) (config.MetricsConfig.mk false 0).

Definition empty : World := initial "tskey-auth" "/data/tsnet" "" "".

(** [api] added while the process is empty. *)
Definition serving : World := AddService api ok empty.

(** [api] added, and then the checker started. *)
Definition probing : World := CheckerStart serving.

(** [web], which has no health check, added while the process is
    empty. *)
Definition unchecked : World := AddService web ok empty.

(** The service object [web] is served from in [unchecked]. *)
Definition web_object : manager.Service :=
  manager.mkService web
    (Some (tsnet.mkServer "web" ["/data/tsnet"; "web"] "tskey-auth" false))
    (Some (httputil.mkReverseProxy "http://127.0.0.1:9002" None))
    true.

(** The service object of [api] once its prober has given up on it. *)
Definition down : manager.Service :=
  manager.SetHealthy (manager.NewService api) false.

End sample.

(* ===================================================================== *)
(** * Further statements about the registry *)
(* ===================================================================== *)

(** The server [AddService] makes for a configuration, and the proxy it
    builds for it. *)
Definition serverOf (m : manager.Manager) (cfg : config.ServiceConfig.t) : tsnet.Server :=
  tsnet.mkServer (config.ServiceConfig.Name cfg)
    [manager.stateDir m; config.ServiceConfig.Name cfg] (manager.authKey m) false.

Definition proxyOf (cfg : config.ServiceConfig.t) : httputil.ReverseProxy :=
  httputil.mkReverseProxy (config.ServiceConfig.Backend cfg)
    (if config.TLSConfig.Enabled (config.ServiceConfig.TLS cfg)
     then Some (config.TLSConfig.SkipVerify (config.ServiceConfig.TLS cfg))
     else None).

(** Provisioning in which every library call succeeds. *)
Definition provisioned (env : manager.Provision) : Prop :=
  manager.ts_Start env = None /\ manager.ts_ListenTLS env = None /\
  manager.ts_Listen env = None /\ manager.url_Parse env = None.

(** A call into the Tailscale API or the local client made on behalf of
    device deletion. *)
Definition is_api_call (e : event) : bool :=
  match e with
  | TsLocalClient _ | LcStatus _ | ApiDeleteDevice _ => true
  | _ => false
  end.

Definition is_go (e : event) : bool :=
  match e with Go _ => true | _ => false end.

(** The hostname of the server an event closes. *)
Definition closed_host (e : event) : option string :=
  match e with TsClose ts => Some (tsnet.Hostname ts) | _ => None end.

(** Every registered name leads to a service object that is fully
    provisioned for that name and is served on both listeners. *)
Definition registry_sound (w : World) : Prop :=
  wf (st w) /\
  forall name l,
    manager.registry (st w) !! name = Some l ->
    exists s,
      manager.svcs (st w) !! l = Some s /\
      config.ServiceConfig.Name (manager.Config s) = name /\
      manager.tsnetServer s
        = Some (serverOf (manager.mgr (st w)) (manager.Config s)) /\
      manager.reverseProxy s = Some (proxyOf (manager.Config s)) /\
      (tsnet.mkListener (serverOf (manager.mgr (st w)) (manager.Config s))
         true "tcp" ":443", l, proxyOf (manager.Config s)) ∈ servers w /\
      (tsnet.mkListener (serverOf (manager.mgr (st w)) (manager.Config s))
         false "tcp" ":80", l, proxyOf (manager.Config s)) ∈ servers w.

(** What a manager is built with and never reassigns: everything but
    the reference to its map. *)
Definition credentials (m : manager.Manager)
  : string * string * option (string * string) * string :=
  (manager.authKey m, manager.stateDir m, manager.apiClient m, manager.tailnet m).

(** The length of the run of failed probes a history of probe results
    ends with, counted without bound. *)
Definition failure_run (probes : list bool) : nat :=
  foldl (fun (n : nat) (healthy : bool) => if healthy then O else S n) O probes.

(** A run of [n] failures is empty or short of the threshold. *)
Definition run_below (hc : config.HealthCheckConfig.t) (n : nat) : Prop :=
  n = O \/ Z.of_nat n < config.HealthCheckConfig.UnhealthyThreshold hc.

(* ===================================================================== *)
(** * Further statements about the configuration *)
(* ===================================================================== *)

(** A service [Validate] has nothing to object to and nothing left to
    fill in. *)
Definition well_formed_service (svc : config.ServiceConfig.t) : Prop :=
  let hc := config.ServiceConfig.HealthCheck svc in
  config.ServiceConfig.Name svc <> "" /\
  (strings.HasPrefix (config.ServiceConfig.Backend svc) "http://" = true \/
   strings.HasPrefix (config.ServiceConfig.Backend svc) "https://" = true) /\
  (config.HealthCheckConfig.Enabled hc = true ->
   config.HealthCheckConfig.Path hc <> "" /\
   config.HealthCheckConfig.Interval hc <> 0 /\
   config.HealthCheckConfig.Timeout hc <> 0 /\
   config.HealthCheckConfig.UnhealthyThreshold hc <> 0).

Definition well_formed (c : config.Config) : Prop :=
  config.AuthKey c <> "" /\
  config.StateDir c <> "" /\
  Forall well_formed_service (config.Services c) /\
  NoDup (config.ServiceConfig.Name <$> config.Services c) /\
  (config.ManagementUI.Enabled (config.ManagementUI c) = true ->
   config.ManagementUI.Hostname (config.ManagementUI c) <> "" /\
   config.ManagementUI.Port (config.ManagementUI c) <> 0) /\
  (config.MetricsConfig.Enabled (config.Metrics c) = true ->
   config.MetricsConfig.Port (config.Metrics c) <> 0).

(** A service that passes every check of the loop body of [Validate]
    made on it alone. *)
Definition passes (svc : config.ServiceConfig.t) : Prop :=
  ~ service_defect svc.

(** What an error of [Validate] says about the service it stopped at,
    the [i]-th one, given the names of the services before it: which
    check failed, and that the checks the loop makes before that one
    passed. *)
Definition offence (e : config.error) (i : nat) (earlier : list string)
    (svc : config.ServiceConfig.t) : Prop :=
  let name := config.ServiceConfig.Name svc in
  let backend := config.ServiceConfig.Backend svc in
  let hc := config.ServiceConfig.HealthCheck svc in
  match e with
  | config.ErrAuthKeyRequired => False
  | config.ErrNameRequired k => k = i /\ name = ""
  | config.ErrDuplicateName n => name = n /\ n <> "" /\ n ∈ earlier
  | config.ErrBackendRequired n =>
    name = n /\ n <> "" /\ (n ∉ earlier) /\ backend = ""
  | config.ErrBackendScheme n =>
    name = n /\ n <> "" /\ (n ∉ earlier) /\ backend <> "" /\
    strings.HasPrefix backend "http://" = false /\
    strings.HasPrefix backend "https://" = false
  | config.ErrHealthPathRequired n =>
    name = n /\ n <> "" /\ (n ∉ earlier) /\
    (strings.HasPrefix backend "http://" = true \/
     strings.HasPrefix backend "https://" = true) /\
    config.HealthCheckConfig.Enabled hc = true /\
    config.HealthCheckConfig.Path hc = ""
  end.

(** The services the loop had gone through without objection when it
    stopped at the [i]-th: each passes, and their names differ. *)
Definition stopped_at (svcs : list config.ServiceConfig.t) (e : config.error) : Prop :=
  exists i svc,
    svcs !! i = Some svc /\
    Forall passes (take i svcs) /\
    NoDup (config.ServiceConfig.Name <$> take i svcs) /\
    offence e i (config.ServiceConfig.Name <$> take i svcs) svc.

Definition error_justified (c : config.Config) (e : config.error) : Prop :=
  match e with
  | config.ErrAuthKeyRequired => config.AuthKey c = ""
  | _ => config.AuthKey c <> "" /\ stopped_at (config.Services c) e
  end.

(* ===================================================================== *)
(** * Further statements about the REST API *)
(* ===================================================================== *)

(** The string holds no "/". *)
Fixpoint no_slash (s : string) : bool :=
  match s with
  | EmptyString => true
  | String c s' => negb (Ascii.eqb c ui.slash) && no_slash s'
  end.

(** The number of "/" in the string. *)
Fixpoint slashes (s : string) : nat :=
  match s with
  | EmptyString => O
  | String c s' => if Ascii.eqb c ui.slash then S (slashes s') else slashes s'
  end.

(** The configuration names every registered service. *)
Definition config_covers_registry (a : ui.App) : Prop :=
  forall name,
    is_Some (manager.registry (st (ui.world a)) !! name) ->
    name ∈ config.ServiceConfig.Name <$> config.Services (ui.cfg a).

(** The process [main] hands to the API, if it gets that far. *)
Definition started (parsed : config.Config) (env : nat -> manager.Provision)
  : option ui.App :=
  match config.Validate parsed with
  | (cfg, None) => Some (ui.mkApp (main.start cfg env) cfg)
  | (_, Some _) => None
  end.

(** What the configuration owes the registry while the handlers come one
    at a time. With none in flight, or one that has stored its slice,
    every registered name is in the configuration. With one that has yet
    to read the configuration, every registered name is in it or is the
    name to append, and none is the name to take out. With one that has
    read it, every registered name is in the slice to be stored. *)
Definition keeps_up (s : ui.Server) : Prop :=
  let reg := manager.registry (st (ui.world (ui.app s))) in
  let names := config.ServiceConfig.Name <$> config.Services (ui.cfg (ui.app s)) in
  match ui.handlers s with
  | [] | [ui.Saving] => forall name, is_Some (reg !! name) -> name ∈ names
  | [ui.Appending svcCfg] =>
    forall name,
      is_Some (reg !! name) ->
      name ∈ names \/ name = config.ServiceConfig.Name svcCfg
  | [ui.Filtering n] =>
    forall name, is_Some (reg !! name) -> name ∈ names /\ name <> n
  | [ui.Assigning services] =>
    forall name,
      is_Some (reg !! name) -> name ∈ config.ServiceConfig.Name <$> services
  | _ => True
  end.

(** The file is the configuration: what was saved last is [h.config], or
    nothing was saved and [h.config] is what [main] loaded. *)
Definition file_current (a0 : ui.App) (s : ui.Server) : Prop :=
  last (ui.saved s) = Some (ui.cfg (ui.app s)) \/
  (ui.saved s = [] /\ ui.cfg (ui.app s) = ui.cfg a0).

(** The same while the handlers come one at a time: it holds but
    between the store of a handler and its save. *)
Definition file_keeps_up (a0 : ui.App) (s : ui.Server) : Prop :=
  match ui.handlers s with
  | [ui.Saving] => True
  | [] | [_] => file_current a0 s
  | _ => True
  end.

(** What holds of [a], relative to the state [a0] the API started from:
    every prober checks an object that existed then, every object made
    since is healthy, and no object has gone. *)
Definition kept_since (a0 a : ui.App) : Prop :=
  (forall p, p ∈ probers (ui.world a) ->
             is_Some (manager.svcs (st (ui.world a0)) !! health.svc p)) /\
  (forall l s,
     manager.svcs (st (ui.world a0)) !! l = None ->
     manager.svcs (st (ui.world a)) !! l = Some s ->
     manager.IsHealthy s = true) /\
  (forall l,
     is_Some (manager.svcs (st (ui.world a0)) !! l) ->
     is_Some (manager.svcs (st (ui.world a)) !! l)).

(* ===================================================================== *)
(** * Further statements about the metrics *)
(* ===================================================================== *)

(** The status a handler's calls amount to: the code of its first call
    when that is a [WriteHeader], and 200 otherwise. *)
Definition first_status (ops : list metrics.op) : Z :=
  match ops with
  | metrics.OpWriteHeader code :: _ => code
  | _ => 200
  end.

(** The bytes a handler writes, in order. *)
Definition writes (ops : list metrics.op) : list string :=
  omap (fun o => match o with metrics.OpWrite b => Some b | _ => None end) ops.

Definition is_header (c : metrics.call) : bool :=
  match c with metrics.UnderlyingWriteHeader _ => true | _ => false end.

Definition is_active_inc (c : metrics.call) : bool :=
  match c with metrics.ActiveInc _ => true | _ => false end.

Definition is_active_dec (c : metrics.call) : bool :=
  match c with metrics.ActiveDec _ => true | _ => false end.

Definition counted (c : metrics.call) : option (string * string * Z) :=
  match c with
  | metrics.RequestsInc s m status => Some (s, m, status)
  | _ => None
  end.

Definition written_bytes (calls : list metrics.call) : list string :=
  omap (fun c => match c with metrics.UnderlyingWrite b => Some b | _ => None end)
    calls.

(** More inputs the statements are run on. *)
Module sample_run.

(** A parser that knows two durations. *)
Definition time : ui.Time :=
  ui.mkTime
    (fun text =>
       if bool_decide (text = "10s") then inl (10 * config.Second)
       else if bool_decide (text = "5s") then inl (5 * config.Second)
       else inr "time: invalid duration")
    (fun d => if d =? 10 * config.Second then "10s" else "5s").

(** The parsed file: [api] and [web], management UI on. *)
Definition parsed : config.Config :=
  config.mkConfig [sample.api; sample.web] "tskey-auth" "" "" ""
    (config.ManagementUI.mk true "" 0) (config.MetricsConfig.mk false 0).

Definition loaded : config.Config := (config.Validate parsed).1.

Definition allOk : nat -> manager.Provision := fun _ => sample.ok.

(** No certificate: [ListenTLS] fails. *)
Definition noTLS : manager.Provision :=
  manager.mkProvision None (Some "no certificate") None None.

(** The process when [main] hands over to the API. *)
Definition app : ui.App := ui.mkApp (main.start loaded allOk) loaded.

(** A request for a service [db] with its health check enabled. *)
Definition db : ui.ServiceRequest.t :=
  ui.ServiceRequest.mk "db" "http://127.0.0.1:5432" [] false
    (ui.HealthCheckJSON.mk true "/ready" "10s" "5s" 3)
    (config.TLSConfig.mk false false).

Definition dbConfig : config.ServiceConfig.t :=
  config.ServiceConfig.mk "db" "http://127.0.0.1:5432" [] false
    (config.HealthCheckConfig.mk true "/ready" (10 * config.Second)
       (5 * config.Second) 3)
    (config.TLSConfig.mk false false).

(** A request for a service without a name. *)
Definition nameless : ui.ServiceRequest.t :=
  ui.ServiceRequest.mk "" "http://127.0.0.1:7000" [] false
    (ui.HealthCheckJSON.mk false "" "" "" 0) (config.TLSConfig.mk false false).

Definition namelessConfig : config.ServiceConfig.t :=
  config.ServiceConfig.mk "" "http://127.0.0.1:7000" [] false
    (config.HealthCheckConfig.mk false "" 0 0 0) (config.TLSConfig.mk false false).

(** A request for a service with a "/" in its name. *)
Definition nested : ui.ServiceRequest.t :=
  ui.ServiceRequest.mk "a/b" "http://127.0.0.1:7001" [] false
    (ui.HealthCheckJSON.mk false "" "" "" 0) (config.TLSConfig.mk false false).

(** [db] added through the API. *)
Definition withDb : ui.App := (ui.AddService time "POST" (inl db) sample.ok app).1.1.

(** The service with the "/" added through the API. *)
Definition withNested : ui.App :=
  (ui.AddService time "POST" (inl nested) sample.ok app).1.1.

(** A configuration with two services of one name. *)
Definition twice : config.Config :=
  config.mkConfig [sample.web; sample.api; sample.web] "tskey-auth" "" "" ""
    (config.ManagementUI.mk false "" 0) (config.MetricsConfig.mk false 0).

(** The API once the handler that added [db] has answered. *)
Definition served : ui.Server := ui.mkServer withDb [] [ui.cfg withDb].

(** [api] with a health check every minus one second. *)
Definition hasty : config.ServiceConfig.t :=
  config.ServiceConfig.mk "api" "http://127.0.0.1:9001" ["/api"] true
    (config.HealthCheckConfig.mk true "/health" (- config.Second)
       (5 * config.Second) 2)
    (config.TLSConfig.mk false false).

(** A parsed file with [hasty] in it, and the process [main] hands to
    the API for it. *)
Definition impatient : config.Config :=
  config.mkConfig [hasty; sample.web] "tskey-auth" "" "" ""
    (config.ManagementUI.mk true "" 0) (config.MetricsConfig.mk false 0).

Definition impatientApp : ui.App :=
  ui.mkApp (main.start (config.Validate impatient).1 allOk)
    (config.Validate impatient).1.

(** [api] added to a manager that has an API client. *)
Definition managed : World :=
  AddService sample.api sample.ok
    (initial "tskey-auth" "/data/tsnet" "tskey-api" "example.ts.net").

End sample_run.

(* ===================================================================== *)
(** * Prefixes *)
(* ===================================================================== *)

Section Prefixes.

Lemma HasPrefix_app (p rest : string) :
  strings.HasPrefix (p +:+ rest) p = true.
Proof.
  unfold strings.HasPrefix.
  induction p as [|a p IH]; simpl.
  - by destruct rest.
  - destruct (Ascii.ascii_dec a a); [exact IH | done].
Qed.

Lemma HasPrefix_inv (s p : string) :
  strings.HasPrefix s p = true -> exists rest, s = p +:+ rest.
Proof.
  unfold strings.HasPrefix.
  revert s. induction p as [|a p IH]; intros s H.
  - by exists s.
  - destruct s as [|b s]; simpl in H; [done |].
    destruct (Ascii.ascii_dec a b) as [-> | ]; [| done].
    destruct (IH s H) as [rest ->]. by exists rest.
Qed.

Lemma slice_from_app (p rest : string) :
  strings.slice_from (String.length p) (p +:+ rest) = rest.
Proof. induction p as [|a p IH]; simpl; [by destruct rest | exact IH]. Qed.

Lemma TrimPrefix_app (p rest : string) :
  strings.TrimPrefix (p +:+ rest) p = rest.
Proof.
  unfold strings.TrimPrefix. by rewrite HasPrefix_app, slice_from_app.
Qed.

End Prefixes.

(* ===================================================================== *)
(** * The health state machine *)
(* ===================================================================== *)

Section HealthStateMachine.

Import config.HealthCheckConfig.

Variable hc : config.HealthCheckConfig.t.

Lemma int_wrap_small (z : Z) :
  - 2 ^ 63 <= z <= health.max_int -> health.int_wrap z = z.
Proof.
  unfold health.int_wrap, health.max_int. intros H.
  rewrite Z.mod_small; lia.
Qed.

Lemma ticks_app (fc : Z) (s : manager.Service) (a b : list bool) :
  health.ticks hc fc s (a ++ b) =
  health.ticks hc (health.ticks hc fc s a).1 (health.ticks hc fc s a).2 b.
Proof.
  revert fc s. induction a as [|x a IH]; intros fc s; simpl; [done |].
  destruct (health.tick hc fc s x) as [fc' s']. apply IH.
Qed.

(** A success: counter 0, flag true, whatever the state was. *)
Lemma tick_success (fc : Z) (s : manager.Service) :
  health.tick hc fc s true = (0, manager.SetHealthy s true).
Proof. reflexivity. Qed.

(** Below the threshold a failure only counts. *)
Lemma tick_failure_below (fc : Z) (s : manager.Service) :
  0 <= fc -> fc + 1 < UnhealthyThreshold hc ->
  UnhealthyThreshold hc <= health.max_int ->
  health.tick hc fc s false = (fc + 1, s).
Proof.
  intros H0 Hlt Hmax. unfold health.tick. simpl.
  rewrite int_wrap_small by (unfold health.max_int in *; lia).
  destruct (Z.geb_spec (fc + 1) (UnhealthyThreshold hc)); [lia | done].
Qed.

(** The failure that reaches the threshold clears the flag. *)
Lemma tick_failure_reaching (fc : Z) (s : manager.Service) :
  0 <= fc -> fc + 1 = UnhealthyThreshold hc ->
  UnhealthyThreshold hc <= health.max_int ->
  manager.IsHealthy (health.tick hc fc s false).2 = false.
Proof.
  intros H0 Heq Hmax. unfold health.tick. simpl.
  rewrite int_wrap_small by (unfold health.max_int in *; lia).
  destruct (Z.geb_spec (fc + 1) (UnhealthyThreshold hc)); [| lia].
  by destruct (manager.IsHealthy s) eqn:E.
Qed.

Lemma ticks_failures_below (n : nat) (fc : Z) (s : manager.Service) :
  0 <= fc -> fc + Z.of_nat n < UnhealthyThreshold hc ->
  UnhealthyThreshold hc <= health.max_int ->
  health.ticks hc fc s (repeat false n) = (fc + Z.of_nat n, s).
Proof.
  revert fc. induction n as [|n IH]; intros fc H0 Hlt Hmax.
  - simpl. by rewrite Z.add_0_r.
  - cbn [repeat health.ticks].
    rewrite tick_failure_below by lia.
    rewrite IH by lia. f_equal. lia.
Qed.

(** From a counter of 0: [threshold - 1] failures leave the service as
    it is, and one more clears the flag. *)
Lemma ticks_failures_run (n : nat) (s : manager.Service) :
  UnhealthyThreshold hc <= health.max_int ->
  Z.of_nat n = UnhealthyThreshold hc - 1 ->
  health.ticks hc 0 s (repeat false n) = (Z.of_nat n, s) /\
  manager.IsHealthy (health.ticks hc 0 s (repeat false (S n))).2 = false.
Proof.
  intros Hmax Hn.
  assert (Hrun : health.ticks hc 0 s (repeat false n) = (Z.of_nat n, s)).
  { rewrite ticks_failures_below by lia. done. }
  split; [exact Hrun |].
  replace (S n) with (n + 1)%nat by lia.
  rewrite repeat_app, ticks_app, Hrun. cbn [fst snd repeat health.ticks].
  pose proof (tick_failure_reaching (Z.of_nat n) s) as H.
  destruct (health.tick hc (Z.of_nat n) s false) as [fc' s'].
  apply H; lia.
Qed.

End HealthStateMachine.

(** C1. The health flag of a service is true when the service is
    created. With a threshold [t] (a Go [int], so at most [max_int]) and
    [n = t - 1]: a run of [n] consecutive failed probes, whether it
    begins when the prober starts or right after a successful probe that
    follows any earlier history of probes, leaves the flag true, and the
    next failed probe, the [t]-th of the run, makes it false. A
    successful probe in any state of the prober sets the counter to 0
    and the flag to true; so does one after any history. *)
Theorem health_flag_follows_threshold
    (cfg : config.ServiceConfig.t) (history : list bool) (n : nat) :
  let threshold :=
    config.HealthCheckConfig.UnhealthyThreshold (config.ServiceConfig.HealthCheck cfg) in
  let svc := manager.NewService cfg in
  threshold <= health.max_int ->
  Z.of_nat n = threshold - 1 ->
  manager.IsHealthy svc = true /\
  manager.IsHealthy (health.runHealthCheck svc (repeat false n)).2 = true /\
  manager.IsHealthy (health.runHealthCheck svc (repeat false (S n))).2 = false /\
  manager.IsHealthy
    (health.runHealthCheck svc (history ++ true :: repeat false n)).2 = true /\
  manager.IsHealthy
    (health.runHealthCheck svc (history ++ true :: repeat false (S n))).2 = false /\
  (forall hc failureCount s,
     (health.tick hc failureCount s true).1 = 0 /\
     manager.IsHealthy (health.tick hc failureCount s true).2 = true) /\
  (health.runHealthCheck svc (history ++ [true])).1 = 0 /\
  manager.IsHealthy (health.runHealthCheck svc (history ++ [true])).2 = true.
Proof.
  intros threshold svc Hmax Hn.
  unfold health.runHealthCheck. simpl manager.Config.
  set (hc := config.ServiceConfig.HealthCheck cfg) in *.
  split; [done |].
  destruct (ticks_failures_run hc n svc Hmax Hn) as [Hrun Hflip].
  split; [by rewrite Hrun |].
  split; [exact Hflip |].
  assert (Hsucc : forall rest,
    health.ticks hc 0 svc (history ++ true :: rest) =
    health.ticks hc 0
      (manager.SetHealthy (health.ticks hc 0 svc history).2 true) rest).
  { intros rest. rewrite ticks_app. cbn [health.ticks].
    by destruct (health.ticks hc 0 svc history) as [fc s]. }
  split.
  { rewrite Hsucc.
    destruct (ticks_failures_run hc n
                (manager.SetHealthy (health.ticks hc 0 svc history).2 true)
                Hmax Hn) as [-> _].
    done. }
  split.
  { rewrite Hsucc.
    by destruct (ticks_failures_run hc n
                   (manager.SetHealthy (health.ticks hc 0 svc history).2 true)
                   Hmax Hn) as [_ ->]. }
  split; [done |].
  by rewrite (Hsucc []).
Qed.

(* ===================================================================== *)
(** * The dispatcher *)
(* ===================================================================== *)

Section Dispatcher.

Import config.ServiceConfig.

Variable s : manager.Service.
Variable proxy : httputil.ReverseProxy.

Lemma serveHTTP_unhealthy (urlPath : string) :
  manager.IsHealthy s = false ->
  manager.serveHTTP s proxy urlPath =
  [HttpError "Service Unavailable" StatusServiceUnavailable].
Proof. intros H. unfold manager.serveHTTP. by rewrite H. Qed.

(** With a non-empty path set, a healthy service's answer is decided
    by the loop over the prefixes. *)
Lemma serveHTTP_routed (urlPath : string) :
  manager.IsHealthy s = true ->
  Paths (manager.Config s) <> [] ->
  manager.serveHTTP s proxy urlPath =
  let '(matched, urlPath') :=
    manager.matchPaths (Paths (manager.Config s))
      (StripPrefix (manager.Config s)) urlPath in
  if negb matched then [HttpNotFound] else [ProxyServeHTTP proxy urlPath'].
Proof.
  intros Hh Hne. unfold manager.serveHTTP. rewrite Hh. simpl negb. cbv iota.
  by destruct (Paths (manager.Config s)).
Qed.

Lemma matchPaths_first (before after : list string) (p rest : string) (strip : bool) :
  Forall (fun q => strings.HasPrefix (p +:+ rest) q = false) before ->
  manager.matchPaths (before ++ p :: after) strip (p +:+ rest) =
  (true,
   if strip then (if bool_decide (rest = "") then "/" else rest)
   else p +:+ rest).
Proof.
  induction 1 as [|q before Hq _ IH]; simpl.
  - by rewrite HasPrefix_app, TrimPrefix_app.
  - by rewrite Hq.
Qed.

Lemma matchPaths_none (paths : list string) (strip : bool) (urlPath : string) :
  Forall (fun q => strings.HasPrefix urlPath q = false) paths ->
  manager.matchPaths paths strip urlPath = (false, urlPath).
Proof. induction 1 as [|q paths Hq _ IH]; simpl; [done | by rewrite Hq]. Qed.

(** The first configured prefix that the path starts with decides. *)
Lemma serveHTTP_first_match (before after : list string) (p rest : string) :
  manager.IsHealthy s = true ->
  Paths (manager.Config s) = before ++ p :: after ->
  Forall (fun q => strings.HasPrefix (p +:+ rest) q = false) before ->
  manager.serveHTTP s proxy (p +:+ rest) =
  [ProxyServeHTTP proxy
     (if StripPrefix (manager.Config s)
      then (if bool_decide (rest = "") then "/" else rest)
      else p +:+ rest)].
Proof.
  intros Hh Hp Hbefore.
  rewrite serveHTTP_routed; [| done | rewrite Hp; by destruct before].
  by rewrite Hp, (matchPaths_first before after p rest _ Hbefore).
Qed.

Lemma serveHTTP_no_match (urlPath : string) :
  manager.IsHealthy s = true ->
  Paths (manager.Config s) <> [] ->
  Forall (fun q => strings.HasPrefix urlPath q = false) (Paths (manager.Config s)) ->
  manager.serveHTTP s proxy urlPath = [HttpNotFound].
Proof.
  intros Hh Hne Hall. rewrite serveHTTP_routed by done.
  by rewrite (matchPaths_none _ _ _ Hall).
Qed.

Lemma serveHTTP_match_all (urlPath : string) :
  manager.IsHealthy s = true ->
  Paths (manager.Config s) = [] ->
  manager.serveHTTP s proxy urlPath = [ProxyServeHTTP proxy urlPath].
Proof. intros Hh Hp. unfold manager.serveHTTP. by rewrite Hh, Hp. Qed.

End Dispatcher.

(** C2. A request to a service whose health flag is false is answered
    with [http.Error(w, "Service Unavailable", 503)] and nothing else:
    the trace of the handler holds no call of the reverse proxy, and the
    path set of the service plays no part. The same holds when the
    handler reads the service through its pointer. *)
Theorem unhealthy_service_answers_503
    (s : manager.Service) (proxy : httputil.ReverseProxy) (urlPath : string)
    (st : manager.State) (l : loc) :
  manager.IsHealthy s = false ->
  manager.serveHTTP s proxy urlPath =
    [HttpError "Service Unavailable" StatusServiceUnavailable] /\
  Forall (fun e => is_forward e = false) (manager.serveHTTP s proxy urlPath) /\
  status_of <$> manager.serveHTTP s proxy urlPath = [Some 503] /\
  (manager.svcs st !! l = Some s ->
   manager.handle st l proxy urlPath =
     Some [HttpError "Service Unavailable" StatusServiceUnavailable]).
Proof.
  intros H. rewrite (serveHTTP_unhealthy s proxy urlPath H).
  repeat split.
  - by repeat constructor.
  - intros Hl. unfold manager.handle. rewrite Hl. simpl.
    by rewrite (serveHTTP_unhealthy s proxy urlPath H).
Qed.

(** C3. For a healthy service: with paths ["/api"] and stripPrefix, a
    request for /api/users is forwarded with path /users and one for
    /other is answered 404 without being forwarded; with an empty path
    set every request is forwarded with its path as it is. With a
    non-empty path set the prefixes are tried in the order they are
    declared and the first that the path starts with decides: the
    request is forwarded, with that prefix removed when stripPrefix is
    set, and with "/" when nothing is left; when no prefix matches the
    answer is 404. *)
Theorem path_routing
    (s : manager.Service) (proxy : httputil.ReverseProxy) :
  manager.IsHealthy s = true ->
  let cfg := manager.Config s in
  (config.ServiceConfig.Paths cfg = ["/api"] ->
   config.ServiceConfig.StripPrefix cfg = true ->
   manager.serveHTTP s proxy "/api/users" = [ProxyServeHTTP proxy "/users"] /\
   manager.serveHTTP s proxy "/other" = [HttpNotFound]) /\
  (config.ServiceConfig.Paths cfg = [] ->
   forall urlPath,
     manager.serveHTTP s proxy urlPath = [ProxyServeHTTP proxy urlPath]) /\
  (forall before p after rest,
     config.ServiceConfig.Paths cfg = before ++ p :: after ->
     Forall (fun q => strings.HasPrefix (p +:+ rest) q = false) before ->
     manager.serveHTTP s proxy (p +:+ rest) =
     [ProxyServeHTTP proxy
        (if config.ServiceConfig.StripPrefix cfg
         then (if bool_decide (rest = "") then "/" else rest)
         else p +:+ rest)]) /\
  (forall urlPath,
     config.ServiceConfig.Paths cfg <> [] ->
     Forall (fun q => strings.HasPrefix urlPath q = false)
       (config.ServiceConfig.Paths cfg) ->
     manager.serveHTTP s proxy urlPath = [HttpNotFound]).
Proof.
  intros Hh cfg. subst cfg. split; [| split; [| split]].
  - intros Hp Hs. split.
    + pose proof (serveHTTP_first_match s proxy [] [] "/api" "/users" Hh Hp) as E.
      rewrite Hs in E. apply E. constructor.
    + apply serveHTTP_no_match; [done | by rewrite Hp |].
      rewrite Hp. by repeat constructor.
  - intros Hp urlPath. by apply serveHTTP_match_all.
  - intros before p after rest Hp Hb. by eapply serveHTTP_first_match.
  - intros urlPath Hne Hall. by apply serveHTTP_no_match.
Qed.

(** C6. Stripping removes the matched prefix as text, wherever it ends:
    for a path that is [p] followed by [rest], [TrimPrefix] gives back
    exactly [rest], and a healthy service with stripPrefix whose first
    matching prefix is [p] forwards [rest] (or "/" when [rest] is
    empty). With paths ["/ap"], a request for /api is forwarded with
    path "i". *)
Theorem strip_is_textual
    (s : manager.Service) (proxy : httputil.ReverseProxy) :
  manager.IsHealthy s = true ->
  config.ServiceConfig.StripPrefix (manager.Config s) = true ->
  (forall p rest, strings.TrimPrefix (p +:+ rest) p = rest) /\
  (forall before p after rest,
     config.ServiceConfig.Paths (manager.Config s) = before ++ p :: after ->
     Forall (fun q => strings.HasPrefix (p +:+ rest) q = false) before ->
     manager.serveHTTP s proxy (p +:+ rest) =
     [ProxyServeHTTP proxy (if bool_decide (rest = "") then "/" else rest)]) /\
  (config.ServiceConfig.Paths (manager.Config s) = ["/ap"] ->
   manager.serveHTTP s proxy "/api" = [ProxyServeHTTP proxy "i"]).
Proof.
  intros Hh Hs. split; [apply TrimPrefix_app |]. split.
  - intros before p after rest Hp Hb.
    rewrite (serveHTTP_first_match s proxy before after p rest Hh Hp Hb).
    by rewrite Hs.
  - intros Hp.
    pose proof (serveHTTP_first_match s proxy [] [] "/ap" "i" Hh Hp) as E.
    rewrite Hs in E. apply E. constructor.
Qed.

(* ===================================================================== *)
(** * The registry *)
(* ===================================================================== *)

Section Registry.

Implicit Types (s : manager.State) (r l : loc) (name k : string).

Lemma copy_loop (m : gmap string loc) :
  map_fold (fun k v acc => <[k := v]> acc) ∅ m = m.
Proof.
  apply (map_fold_weak_ind (fun acc m => acc = m)); [done |].
  by intros i x m' acc _ ->.
Qed.

Lemma GetAllServices_eq s :
  manager.GetAllServices s =
  (manager.withMaps s
     (<[fresh (dom (manager.maps s)) := manager.registry s]> (manager.maps s)),
   fresh (dom (manager.maps s))).
Proof. unfold manager.GetAllServices. by rewrite copy_loop. Qed.

Lemma fresh_ref_not_registry s :
  wf s -> fresh (dom (manager.maps s)) <> manager.services (manager.mgr s).
Proof.
  intros Hwf E. apply (is_fresh (dom (manager.maps s))).
  rewrite E. by apply elem_of_dom.
Qed.

Lemma registry_lookup_wf s name l :
  manager.registry s !! name = Some l -> wf s.
Proof.
  unfold manager.registry, wf.
  destruct (manager.maps s !! manager.services (manager.mgr s)); simpl; [eauto |].
  by rewrite lookup_empty.
Qed.

(** A change to a map other than the manager's is not seen through
    [m.services]. *)
Lemma registry_other_map s (h : gmap loc (gmap string loc)) :
  h !! manager.services (manager.mgr s)
    = manager.maps s !! manager.services (manager.mgr s) ->
  manager.registry (manager.withMaps s h) = manager.registry s.
Proof. unfold manager.registry. simpl. by intros ->. Qed.

Lemma registry_storeHealthy s l h :
  manager.registry (manager.storeHealthy l h s) = manager.registry s.
Proof. done. Qed.

Lemma registry_mapdelete s name :
  wf s ->
  manager.registry (manager.mapdelete (manager.services (manager.mgr s)) name s)
  = delete name (manager.registry s).
Proof.
  intros [m Hm]. unfold manager.registry, manager.mapdelete. simpl.
  rewrite lookup_alter_eq, Hm. done.
Qed.

Lemma mutate_frame s r (m : mutation) :
  r <> manager.services (manager.mgr s) ->
  manager.mgr (mutate r s m) = manager.mgr s /\
  manager.maps (mutate r s m) !! manager.services (manager.mgr s)
    = manager.maps s !! manager.services (manager.mgr s) /\
  (is_map_mutation m = true -> manager.svcs (mutate r s m) = manager.svcs s).
Proof.
  intros Hr. destruct m as [k v | k | k h]; simpl.
  - by rewrite lookup_alter_ne.
  - by rewrite lookup_alter_ne.
  - destruct (manager.maps s !! r ≫= _); done.
Qed.

Lemma mutations_frame (muts : list mutation) s r :
  r <> manager.services (manager.mgr s) ->
  manager.registry (foldl (mutate r) s muts) = manager.registry s /\
  (forallb is_map_mutation muts = true ->
   manager.svcs (foldl (mutate r) s muts) = manager.svcs s).
Proof.
  revert s. induction muts as [|m muts IH]; intros s Hr; simpl; [done |].
  destruct (mutate_frame s r m Hr) as (Hmgr & Hmaps & Hsvcs).
  destruct (IH (mutate r s m)) as [IHreg IHsvcs]; [by rewrite Hmgr |].
  split.
  - rewrite IHreg. unfold manager.registry. by rewrite Hmgr, Hmaps.
  - intros [Hm Hrest]%andb_prop. rewrite IHsvcs, Hsvcs; done.
Qed.

End Registry.

(** C4. [AddService] with a name that is registered returns the error
    "service ... already exists", leaves the heap (the registry and every
    service object) as it was, and calls nothing: its trace is empty, so
    no network identity is provisioned and no goroutine is started. The
    process as a whole is unchanged. *)
Theorem AddService_duplicate_name
    (cfg : config.ServiceConfig.t) (env : manager.Provision)
    (w : World) (l : loc) :
  manager.registry (st w) !! config.ServiceConfig.Name cfg = Some l ->
  manager.AddService cfg env (st w) =
    (st w, Some (manager.ErrAlreadyExists (config.ServiceConfig.Name cfg)), []) /\
  AddService cfg env w = w.
Proof.
  intros H. unfold AddService, manager.AddService. rewrite H.
  split; [done |]. by destruct w.
Qed.

(** C7. [RemoveService] with a name that is not registered returns the
    error "service ... not found", changes nothing and calls nothing.
    Removal is not idempotent: when the name is registered the call
    succeeds, and a second call with the same name then fails with the
    not-found error. *)
Theorem RemoveService_not_found
    (name : string) (o o' : manager.DeleteOutcome) (s : manager.State) :
  (manager.registry s !! name = None ->
   manager.RemoveService name o s = (s, Some (manager.ErrNotFound name), [])) /\
  (forall l,
     manager.registry s !! name = Some l ->
     let s' := (manager.RemoveService name o s).1.1 in
     (manager.RemoveService name o s).1.2 = None /\
     manager.registry s' !! name = None /\
     manager.RemoveService name o' s' = (s', Some (manager.ErrNotFound name), [])).
Proof.
  split.
  - intros H. unfold manager.RemoveService. by rewrite H.
  - intros l H. pose proof (registry_lookup_wf _ _ _ H) as Hwf.
    unfold manager.RemoveService at 1 2. rewrite H. simpl.
    assert (Hgone : manager.registry
              (manager.mapdelete (manager.services (manager.mgr s)) name s)
              !! name = None).
    { rewrite registry_mapdelete by done. apply lookup_delete_eq. }
    split; [done |]. split; [done |].
    unfold manager.RemoveService. by rewrite Hgone.
Qed.

(** C9, as it stands, fails: with [api] registered and healthy, the
    caller of [GetAllServices] that calls [SetHealthy(false)] on the
    service found in the returned map has made the registered service
    unhealthy. *)
Lemma returned_service_is_shared : ~ returned_map_is_isolated.
Proof.
  intros H.
  specialize (H (st sample.serving) [SetHealthyOf "api" false]).
  assert (Hwf : wf (st sample.serving)) by (vm_compute; eauto).
  specialize (H Hwf).
  destruct (manager.GetAllServices (st sample.serving)) as [s1 r] eqn:E.
  destruct H as [_ H].
  apply (f_equal (fun m => m !! "api")) in H.
  injection E as <- <-.
  vm_compute in H. discriminate H.
Qed.

(** C9, amended. [GetAllServices] returns a new map holding the entries
    of the registry, the pointers themselves. Whatever the caller then
    does with the returned map, the registry's mapping stays as it was;
    and as long as the caller only adds, deletes or reassigns entries,
    every service object stays as it was too. The services are shared:
    [SetHealthy] on a service taken from the returned map writes the
    flag of the registered service. *)
Theorem returned_map_is_a_shallow_copy
    (s : manager.State) (muts : list mutation) :
  wf s ->
  let s1 := (manager.GetAllServices s).1 in
  let r := (manager.GetAllServices s).2 in
  let s2 := foldl (mutate r) s1 muts in
  manager.maps s1 !! r = Some (manager.registry s) /\
  manager.registry s1 = manager.registry s /\
  manager.svcs s1 = manager.svcs s /\
  manager.registry s2 = manager.registry s /\
  (forallb is_map_mutation muts = true ->
   manager.svcs s2 = manager.svcs s /\ registered s2 = registered s) /\
  (forall k l svc h,
     manager.registry s !! k = Some l ->
     manager.svcs s !! l = Some svc ->
     manager.svcs (mutate r s1 (SetHealthyOf k h)) !! l
       = Some (manager.SetHealthy svc h)).
Proof.
  intros Hwf. rewrite GetAllServices_eq. cbn [fst snd].
  set (r := fresh (dom (manager.maps s))).
  set (s1 := manager.withMaps s _).
  pose proof (fresh_ref_not_registry s Hwf) as Hr. fold r in Hr.
  assert (Hreg1 : manager.registry s1 = manager.registry s).
  { apply registry_other_map. by apply lookup_insert_ne. }
  assert (Hret : manager.maps s1 !! r = Some (manager.registry s)).
  { apply lookup_insert_eq. }
  destruct (mutations_frame muts s1 r Hr) as [Hreg2 Hsvcs2].
  split; [done |]. split; [done |]. split; [done |].
  split; [by rewrite Hreg2 |]. split.
  - intros Hm. specialize (Hsvcs2 Hm).
    split; [done |]. unfold registered. by rewrite Hreg2, Hreg1, Hsvcs2.
  - intros k l svc h Hk Hl. unfold mutate. rewrite Hret. simpl.
    rewrite Hk. simpl. by rewrite lookup_alter_eq, Hl.
Qed.

(* ===================================================================== *)
(** * Goroutines *)
(* ===================================================================== *)

Section Goroutines.

Implicit Types (w : World) (e : event) (evs : list event).

Lemma perform_st w e : st (perform w e) = st w.
Proof.
  destruct e as [| | | | | | |[ln l p|l]| | | |]; simpl; try done.
  destruct (manager.svcs (st w) !! l); [| done].
  by destruct (time.NewTicker _).
Qed.

Lemma perform_ctx_done w e : ctx_done (perform w e) = ctx_done w.
Proof.
  destruct e as [| | | | | | |[ln l p|l]| | | |]; simpl; try done.
  destruct (manager.svcs (st w) !! l); [| done].
  by destruct (time.NewTicker _).
Qed.

Lemma perform_quiet w e :
  quiet e ->
  probers (perform w e) = probers w /\
  stopCh_closed (perform w e) = stopCh_closed w /\
  panicking (perform w e) = panicking w.
Proof.
  intros [Hgo Hclose].
  destruct e as [| | | | | | |[ln l p|l]| | | |]; simpl; try done.
  by destruct (Hgo l).
Qed.

Lemma foldl_perform_st evs w : st (foldl perform w evs) = st w.
Proof.
  revert w. induction evs as [|e evs IH]; intros w; simpl; [done |].
  by rewrite IH, perform_st.
Qed.

Lemma foldl_perform_ctx_done evs w :
  ctx_done (foldl perform w evs) = ctx_done w.
Proof.
  revert w. induction evs as [|e evs IH]; intros w; simpl; [done |].
  by rewrite IH, perform_ctx_done.
Qed.

Lemma foldl_perform_quiet evs w :
  Forall quiet evs ->
  probers (foldl perform w evs) = probers w /\
  stopCh_closed (foldl perform w evs) = stopCh_closed w /\
  panicking (foldl perform w evs) = panicking w.
Proof.
  intros H. revert w. induction H as [|e evs He _ IH]; intros w; simpl; [done |].
  destruct (perform_quiet w e He) as (<- & <- & <-). apply IH.
Qed.

Ltac quiet_events :=
  repeat constructor; try (intros ?); discriminate.

Lemma AddService_quiet cfg env (s : manager.State) :
  Forall quiet (manager.AddService cfg env s).2.
Proof.
  unfold manager.AddService.
  destruct (manager.registry s !! _); [by constructor |].
  destruct env as [[?|] [?|] [?|] [?|]]; simpl; quiet_events.
Qed.

Lemma release_quiet (s : manager.State) (l : loc) o :
  Forall quiet (manager.release s l o).
Proof.
  unfold manager.release, manager.deleteDevice.
  destruct (manager.svcs s !! l ≫= manager.tsnetServer); [| by constructor].
  destruct (manager.apiClient (manager.mgr s)); [destruct o |]; simpl;
    quiet_events.
Qed.

Lemma RemoveService_quiet name o (s : manager.State) :
  Forall quiet (manager.RemoveService name o s).2.
Proof.
  unfold manager.RemoveService.
  destruct (manager.registry s !! name); simpl;
    [apply release_quiet | by constructor].
Qed.

Lemma Shutdown_quiet o (s : manager.State) :
  Forall quiet (manager.Shutdown o s).2.
Proof.
  unfold manager.Shutdown. simpl.
  induction (map_to_list (manager.registry s)) as [|[name l] rest IH]; simpl.
  - constructor.
  - apply Forall_app. split; [apply release_quiet | exact IH].
Qed.

Lemma AddService_probers cfg env w :
  probers (AddService cfg env w) = probers w /\
  stopCh_closed (AddService cfg env w) = stopCh_closed w /\
  ctx_done (AddService cfg env w) = ctx_done w.
Proof.
  unfold AddService, exec.
  pose proof (AddService_quiet cfg env (st w)) as Hq.
  destruct (manager.AddService cfg env (st w)) as [[s err] evs]. simpl in *.
  destruct (foldl_perform_quiet evs (withSt w s) Hq) as (-> & -> & _).
  by rewrite foldl_perform_ctx_done.
Qed.

Lemma RemoveService_probers name o w :
  probers (RemoveService name o w) = probers w /\
  stopCh_closed (RemoveService name o w) = stopCh_closed w /\
  ctx_done (RemoveService name o w) = ctx_done w.
Proof.
  unfold RemoveService, exec.
  pose proof (RemoveService_quiet name o (st w)) as Hq.
  destruct (manager.RemoveService name o (st w)) as [[s err] evs]. simpl in *.
  destruct (foldl_perform_quiet evs (withSt w s) Hq) as (-> & -> & _).
  by rewrite foldl_perform_ctx_done.
Qed.

Lemma Shutdown_probers o w : probers (Shutdown o w) = probers w.
Proof.
  unfold Shutdown, exec.
  pose proof (Shutdown_quiet o (st w)) as Hq.
  destruct (manager.Shutdown o (st w)) as [s evs]. simpl in *.
  by destruct (foldl_perform_quiet evs (withSt w s) Hq) as (-> & _).
Qed.

Lemma AddService_panicking cfg env w :
  panicking (AddService cfg env w) = panicking w.
Proof.
  unfold AddService, exec.
  pose proof (AddService_quiet cfg env (st w)) as Hq.
  destruct (manager.AddService cfg env (st w)) as [[s err] evs]. simpl in *.
  by destruct (foldl_perform_quiet evs (withSt w s) Hq) as (_ & _ & ->).
Qed.

Lemma RemoveService_panicking name o w :
  panicking (RemoveService name o w) = panicking w.
Proof.
  unfold RemoveService, exec.
  pose proof (RemoveService_quiet name o (st w)) as Hq.
  destruct (manager.RemoveService name o (st w)) as [[s err] evs]. simpl in *.
  by destruct (foldl_perform_quiet evs (withSt w s) Hq) as (_ & _ & ->).
Qed.


(** The goroutines [Start] launches, one entry of the map after the
    other. *)
Lemma foldl_perform_start (s : manager.State) (entries : list (string * loc)) w :
  manager.svcs (st w) = manager.svcs s ->
  let w' :=
    foldl perform w
      (omap (fun '(_, l) =>
               match manager.svcs s !! l with
               | Some svc =>
                 if config.HealthCheckConfig.Enabled
                      (config.ServiceConfig.HealthCheck (manager.Config svc))
                 then Some (Go (RunHealthCheck l)) else None
               | None => None
               end) entries) in
  probers w' = probers w ++ omap (fun '(_, l) => proberFor s l) entries /\
  panicking w' = panicking w ++ omap (fun '(_, l) => panicFor s l) entries.
Proof.
  revert w. induction entries as [|[name l] rest IH]; intros w Hw; cbv zeta.
  - simpl. by rewrite !app_nil_r.
  - cbn [omap list_omap]. unfold proberFor at 1, panicFor at 1.
    destruct (manager.svcs s !! l) as [svc|] eqn:Hl; [| by apply IH].
    destruct (config.HealthCheckConfig.Enabled _) eqn:He; [| by apply IH].
    cbn [foldl].
    pose proof (IH (perform w (Go (RunHealthCheck l)))) as IH'.
    cbv zeta in IH'. rewrite perform_st in IH'. destruct (IH' Hw) as [E1 E2].
    rewrite E1, E2. cbn [perform]. rewrite Hw, Hl. cbv zeta.
    destruct (time.NewTicker _); cbn [probers panicking]; by rewrite <- ?app_assoc.
Qed.

Lemma CheckerStart_goroutines w :
  probers (CheckerStart w) =
    probers w ++
    omap (fun '(_, l) => proberFor (st w) l)
      (map_to_list (manager.registry (st w))) /\
  panicking (CheckerStart w) =
    panicking w ++
    omap (fun '(_, l) => panicFor (st w) l)
      (map_to_list (manager.registry (st w))).
Proof.
  unfold CheckerStart, exec, health.Start.
  rewrite GetAllServices_eq. cbv beta iota zeta.
  cbn [fst snd manager.maps manager.svcs manager.withMaps].
  rewrite lookup_insert_eq. cbn [default]. unfold id.
  match goal with
  | |- context [foldl perform (withSt w ?s1) _] =>
    exact (foldl_perform_start (st w) (map_to_list (manager.registry (st w)))
             (withSt w s1) eq_refl)
  end.
Qed.

Lemma CheckerStart_probers w :
  probers (CheckerStart w) =
  probers w ++
  omap (fun '(_, l) => proberFor (st w) l)
    (map_to_list (manager.registry (st w))).
Proof. apply CheckerStart_goroutines. Qed.


End Goroutines.

Section ProberLifetime.

Implicit Types (w : World).

(** What a tick that happened looks like. *)
Lemma proberTick_Some i o w w' :
  proberTick i o w = Some w' ->
  exists p s fc s',
    probers w !! i = Some p /\
    manager.svcs (st w) !! health.svc p = Some s /\
    health.tick (health.cfg p) (health.failureCount p) s (health.performCheck o)
      = (fc, s') /\
    w' = mkWorld
           (manager.withSvcs (st w) (<[health.svc p := s']> (manager.svcs (st w))))
           (<[i := health.mkProber (health.svc p) (health.cfg p) fc]> (probers w))
           (servers w) (stopCh_closed w) (ctx_done w) (panicking w).
Proof.
  unfold proberTick. intros H.
  destruct (probers w !! i) as [p|] eqn:Hp; [| done]. simpl in H.
  destruct (manager.svcs (st w) !! health.svc p) as [s|] eqn:Hs; [| done].
  simpl in H. destruct (health.tick _ _ _ _) as [fc s'] eqn:Ht.
  injection H as <-. by exists p, s, fc, s'.
Qed.



Lemma proberFor_inv (s : manager.State) l p :
  proberFor s l = Some p ->
  exists svc,
    manager.svcs s !! l = Some svc /\
    config.HealthCheckConfig.Enabled
      (config.ServiceConfig.HealthCheck (manager.Config svc)) = true /\
    0 < config.HealthCheckConfig.Interval
          (config.ServiceConfig.HealthCheck (manager.Config svc)) /\
    p = health.mkProber l (config.ServiceConfig.HealthCheck (manager.Config svc)) 0.
Proof.
  unfold proberFor, time.NewTicker.
  destruct (manager.svcs s !! l) as [svc|]; [| done].
  destruct (config.HealthCheckConfig.Enabled _) eqn:He; [| done].
  destruct (Z.leb_spec
              (config.HealthCheckConfig.Interval
                 (config.ServiceConfig.HealthCheck (manager.Config svc))) 0);
    [done |].
  intros [= <-]. by exists svc.
Qed.

Lemma panicFor_inv (s : manager.State) l l' :
  panicFor s l = Some l' ->
  l' = l /\
  exists svc,
    manager.svcs s !! l = Some svc /\
    config.HealthCheckConfig.Enabled
      (config.ServiceConfig.HealthCheck (manager.Config svc)) = true /\
    config.HealthCheckConfig.Interval
      (config.ServiceConfig.HealthCheck (manager.Config svc)) <= 0.
Proof.
  unfold panicFor, time.NewTicker.
  destruct (manager.svcs s !! l) as [svc|]; [| done].
  destruct (config.HealthCheckConfig.Enabled _) eqn:He; [| done].
  destruct (Z.leb_spec
              (config.HealthCheckConfig.Interval
                 (config.ServiceConfig.HealthCheck (manager.Config svc))) 0);
    [| done].
  intros [= <-]. split; [done |]. by exists svc.
Qed.

Lemma proberFor_Some (s : manager.State) l svc :
  manager.svcs s !! l = Some svc ->
  config.HealthCheckConfig.Enabled
    (config.ServiceConfig.HealthCheck (manager.Config svc)) = true ->
  0 < config.HealthCheckConfig.Interval
        (config.ServiceConfig.HealthCheck (manager.Config svc)) ->
  proberFor s l
  = Some (health.mkProber l (config.ServiceConfig.HealthCheck (manager.Config svc)) 0).
Proof.
  intros Hl He Hi. unfold proberFor, time.NewTicker. rewrite Hl, He.
  by destruct (Z.leb_spec
                 (config.HealthCheckConfig.Interval
                    (config.ServiceConfig.HealthCheck (manager.Config svc))) 0);
    [lia |].
Qed.

Lemma panicFor_Some (s : manager.State) l svc :
  manager.svcs s !! l = Some svc ->
  config.HealthCheckConfig.Enabled
    (config.ServiceConfig.HealthCheck (manager.Config svc)) = true ->
  config.HealthCheckConfig.Interval
    (config.ServiceConfig.HealthCheck (manager.Config svc)) <= 0 ->
  panicFor s l = Some l.
Proof.
  intros Hl He Hi. unfold panicFor, time.NewTicker. rewrite Hl, He.
  by destruct (Z.leb_spec
                 (config.HealthCheckConfig.Interval
                    (config.ServiceConfig.HealthCheck (manager.Config svc))) 0);
    [| lia].
Qed.

Lemma proberFor_ticking (s : manager.State) l p :
  proberFor s l = Some p -> 0 < config.HealthCheckConfig.Interval (health.cfg p).
Proof. by intros (svc & _ & _ & Hi & ->)%proberFor_inv. Qed.

Lemma ticking_step w w' : step w w' -> probers_ticking w -> probers_ticking w'.
Proof.
  intros Hstep Hw p.
  destruct Hstep as
    [w cfg env | w name o | w o | w | w | w _ | w | w j o w' Htick | w j Hsig _].
  - destruct (AddService_probers cfg env w) as [-> _]. apply Hw.
  - destruct (RemoveService_probers name o w) as [-> _]. apply Hw.
  - rewrite Shutdown_probers. apply Hw.
  - apply Hw.
  - rewrite CheckerStart_probers. intros [Hin | Hin]%elem_of_app; [by apply Hw |].
    apply list_elem_of_omap in Hin as ([name l] & _ & Hfor).
    by eapply proberFor_ticking.
  - apply Hw.
  - apply Hw.
  - apply proberTick_Some in Htick as (q & s & fc & s' & Hq & _ & _ & ->). simpl.
    intros Hin. apply list_elem_of_lookup in Hin as [k Hk].
    destruct (decide (j = k)) as [-> | Hne].
    + rewrite list_lookup_insert_eq in Hk by (by eapply lookup_lt_Some).
      injection Hk as <-. simpl. apply Hw. by eapply list_elem_of_lookup_2.
    + rewrite list_lookup_insert_ne in Hk by done.
      apply Hw. by eapply list_elem_of_lookup_2.
  - simpl. intros Hin. apply Hw. by eapply list_elem_of_delete_inv.
Qed.

Lemma ticking_reachable w0 w :
  probers_ticking w0 -> reachable w0 w -> probers_ticking w.
Proof. intros H0. induction 1; [done | by eapply ticking_step]. Qed.

End ProberLifetime.



(* ===================================================================== *)
(** * Services without a health check *)
(* ===================================================================== *)

Section HealthChecksSound.

Implicit Types (w : World) (l : loc).

Lemma AddService_st cfg env w :
  st (AddService cfg env w) = (manager.AddService cfg env (st w)).1.1.
Proof.
  unfold AddService, exec.
  destruct (manager.AddService cfg env (st w)) as [[s' err] evs]. simpl.
  by rewrite foldl_perform_st.
Qed.

Lemma RemoveService_st name o w :
  st (RemoveService name o w) = (manager.RemoveService name o (st w)).1.1.
Proof.
  unfold RemoveService, exec.
  destruct (manager.RemoveService name o (st w)) as [[s' err] evs]. simpl.
  by rewrite foldl_perform_st.
Qed.

(** [AddService] leaves every service object that exists as it is, and
    the one it makes is healthy and has the given configuration. *)
Lemma AddService_svcs cfg env (s : manager.State) l :
  let s' := (manager.AddService cfg env s).1.1 in
  (forall svc, manager.svcs s !! l = Some svc -> manager.svcs s' !! l = Some svc) /\
  (forall svc',
     manager.svcs s !! l = None -> manager.svcs s' !! l = Some svc' ->
     manager.Config svc' = cfg /\ manager.IsHealthy svc' = true).
Proof.
  unfold manager.AddService.
  destruct (manager.registry s !! _); [simpl; split; [done | congruence] |].
  pose proof (is_fresh (dom (manager.svcs s))) as Hfresh.
  apply not_elem_of_dom in Hfresh.
  set (l0 := fresh (dom (manager.svcs s))) in *.
  destruct env as [[?|] [?|] [?|] [?|]]; simpl;
    rewrite ?alter_insert_eq; simpl;
    (split;
     [ intros svc Hl; rewrite lookup_insert_ne; [done | congruence]
     | intros svc' Hnone Hl;
       destruct (decide (l0 = l)) as [<- | Hne];
       [ rewrite lookup_insert_eq in Hl; by injection Hl as <-
       | rewrite lookup_insert_ne in Hl by done; congruence ] ]).
Qed.

Lemma RemoveService_svcs name o (s : manager.State) :
  manager.svcs (manager.RemoveService name o s).1.1 = manager.svcs s.
Proof. unfold manager.RemoveService. by destruct (manager.registry s !! name). Qed.

Lemma tick_Config hc fc (svc : manager.Service) b :
  manager.Config (health.tick hc fc svc b).2 = manager.Config svc.
Proof.
  unfold health.tick. destruct b; simpl; [done |].
  destruct (_ >=? _); [| done]. by destruct (manager.IsHealthy svc).
Qed.

(** Soundness carries over to a process with the same service objects
    and no prober that was not there. *)
Lemma sound_same_svcs w w' :
  manager.svcs (st w') = manager.svcs (st w) ->
  (forall p, p ∈ probers w' -> p ∈ probers w) ->
  health_checks_sound w -> health_checks_sound w'.
Proof.
  intros Hs Hp [H1 H2]. split.
  - intros l svc. rewrite Hs. apply H1.
  - intros p Hin. rewrite Hs. apply H2, Hp, Hin.
Qed.

Lemma sound_initial authKey stateDir apiKey tailnet :
  health_checks_sound (initial authKey stateDir apiKey tailnet).
Proof.
  split.
  - intros l svc H. simpl in H. by rewrite lookup_empty in H.
  - intros p H. simpl in H. by apply elem_of_nil in H.
Qed.

Lemma sound_step w w' :
  health_checks_sound w -> step w w' -> health_checks_sound w'.
Proof.
  intros Hw Hstep.
  destruct Hstep as
    [w cfg env | w name o | w o | w | w | w _ | w | w j o w' Htick | w j _ _].
  - destruct Hw as [H1 H2].
    destruct (AddService_probers cfg env w) as [Hp _].
    split.
    + intros l svc'. rewrite AddService_st. intros Hl He.
      destruct (AddService_svcs cfg env (st w) l) as [Hold Hnew].
      destruct (manager.svcs (st w) !! l) as [svc|] eqn:E.
      * rewrite (Hold svc eq_refl) in Hl. injection Hl as <-. by eapply H1.
      * by destruct (Hnew svc' eq_refl Hl).
    + intros p. rewrite Hp, AddService_st. intros Hin.
      destruct (H2 p Hin) as (svc & Hl & He). exists svc. split; [| done].
      by apply (AddService_svcs cfg env (st w) (health.svc p)).
  - apply (sound_same_svcs w); [| | done].
    + by rewrite RemoveService_st, RemoveService_svcs.
    + intros p. by destruct (RemoveService_probers name o w) as [-> _].
  - apply (sound_same_svcs w); [| | done].
    + unfold Shutdown, exec. by rewrite foldl_perform_st.
    + intros p. by rewrite Shutdown_probers.
  - apply (sound_same_svcs w); [| done | done].
    by rewrite GetAllServices_eq.
  - assert (Hs : manager.svcs (st (CheckerStart w)) = manager.svcs (st w)).
    { unfold CheckerStart, exec, health.Start. rewrite foldl_perform_st.
      by rewrite GetAllServices_eq. }
    destruct Hw as [H1 H2]. split.
    + intros l svc. rewrite Hs. apply H1.
    + intros p. rewrite Hs, CheckerStart_probers.
      intros [Hin | Hin]%elem_of_app; [by apply H2 |].
      apply list_elem_of_omap in Hin as ([name l] & _ & Hfor).
      unfold proberFor in Hfor.
      destruct (manager.svcs (st w) !! l) as [svc|] eqn:Hl; [| done].
      destruct (config.HealthCheckConfig.Enabled _) eqn:He; [| done].
      destruct (time.NewTicker _); [| done].
      injection Hfor as <-. simpl. eauto.
  - by apply (sound_same_svcs w).
  - by apply (sound_same_svcs w).
  - apply proberTick_Some in Htick as (q & svc & fc & svc' & Hq & Hsvc & Ht & ->).
    destruct Hw as [H1 H2].
    assert (Hqin : q ∈ probers w) by (by eapply list_elem_of_lookup_2).
    destruct (H2 q Hqin) as (svc0 & Hsvc0 & He0).
    assert (svc0 = svc) as -> by congruence.
    assert (Hcfg : manager.Config svc' = manager.Config svc).
    { pose proof (tick_Config (health.cfg q) (health.failureCount q) svc
                    (health.performCheck o)) as E.
      by rewrite Ht in E. }
    split; simpl.
    + intros l s0 Hl He.
      destruct (decide (health.svc q = l)) as [<- | Hne].
      * rewrite lookup_insert_eq in Hl. injection Hl as <-.
        rewrite Hcfg in He. congruence.
      * rewrite lookup_insert_ne in Hl by done. by eapply H1.
    + intros p Hin.
      assert (Hp : exists x : manager.Service,
                manager.svcs (st w) !! health.svc p = Some x /\
                config.HealthCheckConfig.Enabled
                  (config.ServiceConfig.HealthCheck (manager.Config x)) = true).
      { apply list_elem_of_lookup in Hin as [k Hk].
        destruct (decide (j = k)) as [-> | Hne].
        - rewrite list_lookup_insert_eq in Hk by (by eapply lookup_lt_Some).
          injection Hk as <-. simpl. eauto.
        - rewrite list_lookup_insert_ne in Hk by done.
          apply H2. by eapply list_elem_of_lookup_2. }
      destruct Hp as (s0 & Hl & He).
      destruct (decide (health.svc q = health.svc p)) as [E | Hne].
      * rewrite <- E, lookup_insert_eq. exists svc'. split; [done |].
        rewrite Hcfg. rewrite <- E in Hl. congruence.
      * rewrite lookup_insert_ne by done. eauto.
  - apply (sound_same_svcs w); [done | | done].
    intros p. apply list_elem_of_delete_inv.
Qed.

Lemma sound_reachable w0 w :
  health_checks_sound w0 -> reachable w0 w -> health_checks_sound w.
Proof. intros H0. induction 1; [done | by eapply sound_step]. Qed.

Lemma serveHTTP_healthy_not_503 (svc : manager.Service) proxy urlPath :
  manager.IsHealthy svc = true ->
  Forall (fun e => status_of e <> Some StatusServiceUnavailable)
    (manager.serveHTTP svc proxy urlPath).
Proof.
  intros Hh. unfold manager.serveHTTP. rewrite Hh. simpl negb. cbv iota.
  destruct (config.ServiceConfig.Paths _); [by repeat constructor |].
  destruct (manager.matchPaths _ _ _) as [[] ?]; by repeat constructor.
Qed.

End HealthChecksSound.

(** C10. In every state the process reaches from its start, a service
    whose health check is disabled has its health flag set: the flag is
    set when the service is made, the only writes of the flag are those
    of a prober, and every prober checks a service whose health check is
    enabled. So the handler of such a service never answers 503. *)
Theorem disabled_health_check_never_503
    (authKey stateDir apiKey tailnet : string) (w : World) :
  reachable (initial authKey stateDir apiKey tailnet) w ->
  (forall cfg, manager.IsHealthy (manager.NewService cfg) = true) /\
  (forall p,
     p ∈ probers w ->
     exists s,
       manager.svcs (st w) !! health.svc p = Some s /\
       config.HealthCheckConfig.Enabled
         (config.ServiceConfig.HealthCheck (manager.Config s)) = true) /\
  (forall l s,
     manager.svcs (st w) !! l = Some s ->
     config.HealthCheckConfig.Enabled
       (config.ServiceConfig.HealthCheck (manager.Config s)) = false ->
     manager.IsHealthy s = true /\
     forall proxy urlPath,
       manager.handle (st w) l proxy urlPath
         = Some (manager.serveHTTP s proxy urlPath) /\
       Forall (fun e => status_of e <> Some StatusServiceUnavailable)
         (manager.serveHTTP s proxy urlPath)).
Proof.
  intros Hreach.
  destruct (sound_reachable _ w (sound_initial authKey stateDir apiKey tailnet) Hreach)
    as [H1 H2].
  split; [done |]. split; [exact H2 |].
  intros l s Hl He. pose proof (H1 l s Hl He) as Hh.
  split; [exact Hh |]. intros proxy urlPath. split.
  - unfold manager.handle. by rewrite Hl.
  - by apply serveHTTP_healthy_not_503.
Qed.

(* ===================================================================== *)
(** * Validation of the configuration *)
(* ===================================================================== *)

Section Validation.

Import config.

Implicit Types (svc : ServiceConfig.t) (names : gmap string bool).

Lemma seen_insert names name n :
  seen (<[name := true]> names) n = true <-> n = name \/ seen names n = true.
Proof.
  unfold seen. destruct (decide (name = n)) as [-> | Hne].
  - rewrite lookup_insert_eq. simpl. tauto.
  - rewrite lookup_insert_ne by done. split; [tauto |]. intros [-> | H]; done.
Qed.

(** One pass of the loop body without an error: the service has none
    of the defects and its name was not seen. *)
Lemma service_defect_dec svc :
  service_defect svc <->
  (bool_decide (ServiceConfig.Name svc = "")
   || bool_decide (ServiceConfig.Backend svc = "")
   || (negb (strings.HasPrefix (ServiceConfig.Backend svc) "http://")
       && negb (strings.HasPrefix (ServiceConfig.Backend svc) "https://"))
   || (HealthCheckConfig.Enabled (ServiceConfig.HealthCheck svc)
       && bool_decide (HealthCheckConfig.Path (ServiceConfig.HealthCheck svc) = "")))
  = true.
Proof.
  unfold service_defect.
  rewrite !orb_true_iff, !andb_true_iff, !negb_true_iff, !bool_decide_eq_true.
  tauto.
Qed.

(** The loop returns an error exactly when a service from index [i] on
    has a defect, two of them share a name, or one has a name the loop
    has already seen. *)
Lemma validateServices_rejects (l : list ServiceConfig.t) i names :
  is_Some (validateServices i names l).2 <->
  Exists service_defect l \/
  ~ NoDup (ServiceConfig.Name <$> l) \/
  Exists (fun svc => seen names (ServiceConfig.Name svc) = true) l.
Proof.
  revert i names. induction l as [|svc rest IH]; intros i names.
  - simpl. split.
    + by intros [? ?].
    + intros [H | [H | H]]; [by apply Exists_nil in H | | by apply Exists_nil in H].
      destruct H. constructor.
  - cbn [validateServices]. rewrite fmap_cons, NoDup_cons, !Exists_cons.
    rewrite (service_defect_dec svc).
    set (name := ServiceConfig.Name svc).
    destruct (bool_decide (name = "")) eqn:E1; simpl; [split; eauto |].
    destruct (seen names name) eqn:E2; simpl; [split; eauto |].
    destruct (bool_decide (ServiceConfig.Backend svc = "")) eqn:E3; simpl;
      [split; eauto |].
    destruct (negb _ && negb _) eqn:E4; simpl; [split; eauto |].
    assert (Hrest :
      is_Some (validateServices (S i) (<[name := true]> names) rest).2 <->
      (false = true \/ Exists service_defect rest) \/
      ~ ((name ∉ (ServiceConfig.Name <$> rest)) /\
         NoDup (ServiceConfig.Name <$> rest)) \/
      (false = true \/
       Exists (fun svc => seen names (ServiceConfig.Name svc) = true) rest)).
    { rewrite IH. clear IH.
      assert (Hseen :
        Exists (fun svc => seen (<[name := true]> names) (ServiceConfig.Name svc) = true) rest
        <-> name ∈ ServiceConfig.Name <$> rest \/
            Exists (fun svc => seen names (ServiceConfig.Name svc) = true) rest).
      { rewrite !Exists_exists, list_elem_of_fmap. split.
        - intros (x & Hx & [Hn | Hs]%seen_insert); [left | right]; eauto.
        - intros [(x & Hn & Hx) | (x & Hx & Hs)]; exists x; split; try done;
            apply seen_insert; eauto. }
      rewrite Hseen.
      destruct (decide (name ∈ ServiceConfig.Name <$> rest)); split;
        intros; try tauto; intuition discriminate. }
    destruct (HealthCheckConfig.Enabled (ServiceConfig.HealthCheck svc)) eqn:E5;
      simpl.
    + destruct (bool_decide (HealthCheckConfig.Path _ = "")) eqn:E6; simpl;
        [split; eauto |].
      destruct (validateServices (S i) _ rest) as [rest' e]. exact Hrest.
    + destruct (validateServices (S i) _ rest) as [rest' e]. exact Hrest.
Qed.

Lemma fillHealthCheck_defaulted svc :
  HealthCheckConfig.Enabled (ServiceConfig.HealthCheck svc) = true ->
  service_defaulted svc
    (withHealthCheck svc (fillHealthCheck (ServiceConfig.HealthCheck svc))).
Proof.
  intros He. unfold service_defaulted. simpl.
  repeat split; try done; try congruence;
    match goal with
    | |- context [bool_decide (?x = 0)] =>
      destruct (Z.eqb_spec x 0) as [E | E];
      [rewrite bool_decide_eq_true_2 by done | rewrite bool_decide_eq_false_2 by done];
      done
    end.
Qed.

Lemma unchanged_defaulted svc :
  HealthCheckConfig.Enabled (ServiceConfig.HealthCheck svc) = false ->
  service_defaulted svc svc.
Proof. intros He. unfold service_defaulted. repeat split; congruence. Qed.

Lemma validateServices_accepts (l : list ServiceConfig.t) i names l' :
  validateServices i names l = (l', None) -> Forall2 service_defaulted l l'.
Proof.
  revert i names l'. induction l as [|svc rest IH]; intros i names l' H.
  - injection H as <-. constructor.
  - cbn [validateServices] in H.
    repeat (match type of H with
            | (if ?b then _ else _) = _ => destruct b eqn:?; [try done |]
            end).
    all: destruct (validateServices (S i) _ rest) as [rest' e] eqn:Hrest.
    all: injection H as <- ->.
    all: constructor; [| by eapply IH].
    + by apply fillHealthCheck_defaulted.
    + by apply unchanged_defaulted.
Qed.

Lemma fillManagementUI_spec (u : ManagementUI.t) :
  (ManagementUI.Enabled u = true ->
   ManagementUI.Enabled (fillManagementUI u) = true /\
   ManagementUI.Hostname (fillManagementUI u) =
     (if bool_decide (ManagementUI.Hostname u = "") then "tsnet-proxy-ui"
      else ManagementUI.Hostname u) /\
   ManagementUI.Port (fillManagementUI u) =
     (if bool_decide (ManagementUI.Port u = 0) then 8080 else ManagementUI.Port u)) /\
  (ManagementUI.Enabled u = false -> fillManagementUI u = u).
Proof.
  destruct u as [en host port]. unfold fillManagementUI. simpl.
  split; intros ->; simpl; [| done].
  destruct (bool_decide (host = "")); simpl;
    destruct (Z.eqb_spec port 0) as [E | E];
    [rewrite bool_decide_eq_true_2 by done | rewrite bool_decide_eq_false_2 by done
    |rewrite bool_decide_eq_true_2 by done | rewrite bool_decide_eq_false_2 by done];
    done.
Qed.

Lemma fillMetrics_spec (m : MetricsConfig.t) :
  (MetricsConfig.Enabled m = true ->
   MetricsConfig.Enabled (fillMetrics m) = true /\
   MetricsConfig.Port (fillMetrics m) =
     (if bool_decide (MetricsConfig.Port m = 0) then 9090 else MetricsConfig.Port m)) /\
  (MetricsConfig.Enabled m = false -> fillMetrics m = m).
Proof.
  destruct m as [en port]. unfold fillMetrics. simpl.
  split; intros ->; simpl; [| done].
  destruct (Z.eqb_spec port 0) as [E | E];
    [rewrite bool_decide_eq_true_2 by done | rewrite bool_decide_eq_false_2 by done];
    done.
Qed.

End Validation.

(** C8, as it stands, fails in its second half: the configuration with
    the one service [web], whose health check is disabled and whose
    interval, timeout and threshold are unset, and with the management
    UI and the metrics disabled and their ports unset, is accepted, and
    all of these fields are still zero afterwards. *)
Lemma disabled_blocks_keep_zero : ~ Validate_fills_every_default.
Proof.
  intros H.
  destruct (H sample.cfg (config.Validate sample.cfg).1 eq_refl) as [Hsvc _].
  destruct (Hsvc 0%nat sample.web sample.web eq_refl eq_refl) as [Hi _].
  specialize (Hi eq_refl). discriminate Hi.
Qed.

(** C8, amended. [Validate] returns an error exactly when the
    configuration has one of the listed defects: no auth key, a service
    without a name, two services with one name, a service without a
    backend URL or with one that starts with neither http:// nor
    https://, or a health check that is enabled and has no path. When it
    accepts, it has filled the defaults of the blocks that are enabled:
    interval 30s, timeout 5s and threshold 3 where they were zero in a
    service whose health check is enabled, hostname and port 8080 of an
    enabled management UI, port 9090 of enabled metrics, and the state
    directory; a service whose health check is disabled, a disabled
    management UI and disabled metrics are left as they were. *)
Theorem Validate_rejects_defects_and_fills_enabled_defaults (c : config.Config) :
  (is_Some (config.Validate c).2 <-> defective c) /\
  (forall c', config.Validate c = (c', None) -> enabled_fields_defaulted c c').
Proof.
  unfold config.Validate, defective. split.
  - destruct (bool_decide (config.AuthKey c = "")) eqn:Ha.
    + apply bool_decide_eq_true in Ha. simpl. split; eauto.
    + apply bool_decide_eq_false in Ha.
      assert (Hsv : config.Services
                (if bool_decide (config.StateDir c = "")
                 then config.withStateDir c "/data/tsnet" else c)
              = config.Services c) by (by destruct (bool_decide _)).
      rewrite Hsv.
      pose proof (validateServices_rejects (config.Services c) 0 ∅) as Hrej.
      destruct (config.validateServices 0 ∅ (config.Services c)) as [svcs e].
      simpl in Hrej.
      assert (Hnone : ~ Exists
                (fun svc => config.seen ∅ (config.ServiceConfig.Name svc) = true)
                (config.Services c)).
      { intros (x & _ & Hx)%Exists_exists. unfold config.seen in Hx.
        by rewrite lookup_empty in Hx. }
      destruct e as [err|]; simpl.
      * split; [| eauto]. intros He. apply Hrej in He. tauto.
      * split; [by intros [? ?] |]. intros Hd.
        apply Hrej. tauto.
  - intros c' H.
    destruct (bool_decide (config.AuthKey c = "")); [done |].
    set (c1 := if bool_decide (config.StateDir c = "")
               then config.withStateDir c "/data/tsnet" else c) in *.
    destruct (config.validateServices 0 ∅ (config.Services c1)) as [svcs e] eqn:Hv.
    destruct e as [err|]; [done |]. injection H as <-.
    apply validateServices_accepts in Hv.
    assert (Hc1 : config.Services c1 = config.Services c /\
                  config.AuthKey c1 = config.AuthKey c /\
                  config.APIKey c1 = config.APIKey c /\
                  config.Tailnet c1 = config.Tailnet c /\
                  config.ManagementUI c1 = config.ManagementUI c /\
                  config.Metrics c1 = config.Metrics c /\
                  config.StateDir c1 =
                    (if bool_decide (config.StateDir c = "") then "/data/tsnet"
                     else config.StateDir c)).
    { unfold c1. by destruct (bool_decide (config.StateDir c = "")). }
    destruct Hc1 as (Hs & Hk & Hapi & Htn & Hui & Hm & Hdir).
    unfold enabled_fields_defaulted. simpl.
    rewrite Hk, Hapi, Htn, Hdir, Hui, Hm. rewrite Hs in Hv.
    repeat (split; [done |]).
    split; [apply fillManagementUI_spec | apply fillMetrics_spec].
Qed.

(* ===================================================================== *)
(** * The statements at work on the sample inputs *)
(* ===================================================================== *)

(** [api] has threshold 2: one failure after a success keeps it healthy,
    the second makes it unhealthy. *)
Lemma health_flag_follows_threshold_witness :
  manager.IsHealthy
    (health.runHealthCheck (manager.NewService sample.api)
       ([false; false] ++ true :: repeat false 1)).2 = true /\
  manager.IsHealthy
    (health.runHealthCheck (manager.NewService sample.api)
       ([false; false] ++ true :: repeat false 2)).2 = false.
Proof.
  destruct (health_flag_follows_threshold sample.api [false; false] 1)
    as (_ & _ & _ & H1 & H2 & _).
  - unfold health.max_int. simpl. lia.
  - reflexivity.
  - exact (conj H1 H2).
Defined.

Lemma unhealthy_service_answers_503_witness :
  manager.serveHTTP sample.down sample.proxy "/api/users" =
    [HttpError "Service Unavailable" StatusServiceUnavailable].
Proof.
  exact (proj1 (unhealthy_service_answers_503 sample.down sample.proxy "/api/users"
                  (st sample.empty) 1%positive eq_refl)).
Defined.

Lemma path_routing_witness :
  manager.serveHTTP (manager.NewService sample.api) sample.proxy "/api/users"
    = [ProxyServeHTTP sample.proxy "/users"] /\
  manager.serveHTTP (manager.NewService sample.api) sample.proxy "/other"
    = [HttpNotFound].
Proof.
  exact (proj1 (path_routing (manager.NewService sample.api) sample.proxy eq_refl)
           eq_refl eq_refl).
Defined.

Lemma AddService_duplicate_name_witness :
  AddService sample.api sample.ok sample.serving = sample.serving.
Proof.
  exact (proj2 (AddService_duplicate_name sample.api sample.ok sample.serving
                  1%positive eq_refl)).
Defined.

Lemma strip_is_textual_witness :
  manager.serveHTTP (manager.NewService sample.partial) sample.proxy "/api"
    = [ProxyServeHTTP sample.proxy "i"].
Proof.
  exact (proj2 (proj2 (strip_is_textual (manager.NewService sample.partial)
                         sample.proxy eq_refl eq_refl))
           eq_refl).
Defined.

Lemma returned_map_is_a_shallow_copy_witness :
  manager.registry
    (foldl (mutate (manager.GetAllServices (st sample.serving)).2)
       (manager.GetAllServices (st sample.serving)).1
       [Delete "api"; Assign "web" 7%positive])
  = manager.registry (st sample.serving).
Proof.
  refine (proj1 (proj2 (proj2 (proj2
    (returned_map_is_a_shallow_copy (st sample.serving)
       [Delete "api"; Assign "web" 7%positive] _))))).
  vm_compute. eexists. reflexivity.
Defined.

Lemma disabled_health_check_never_503_witness :
  manager.svcs (st sample.unchecked) !! 1%positive = Some sample.web_object /\
  manager.IsHealthy sample.web_object = true /\
  Forall (fun e => status_of e <> Some StatusServiceUnavailable)
    (manager.serveHTTP sample.web_object sample.proxy "/index.html").
Proof.
  split; [reflexivity |].
  assert (Hreach : reachable sample.empty sample.unchecked).
  { apply (reachable_step _ sample.empty); [apply reachable_refl |].
    apply (step_AddService sample.empty sample.web sample.ok). }
  destruct (proj2 (proj2
    (disabled_health_check_never_503 "tskey-auth" "/data/tsnet" "" ""
       sample.unchecked Hreach)) 1%positive sample.web_object eq_refl eq_refl)
    as [Hh Hserve].
  split; [exact Hh |].
  exact (proj2 (Hserve sample.proxy "/index.html")).
Defined.

(* ===================================================================== *)
(** * Adding and removing services *)
(* ===================================================================== *)

Section AddRemove.

Implicit Types (s : manager.State) (w : World) (l : loc) (name : string).

Lemma registry_mapassign s name l :
  wf s ->
  manager.registry (manager.mapassign (manager.services (manager.mgr s)) name l s)
  = <[name := l]> (manager.registry s).
Proof.
  intros [m Hm]. unfold manager.registry, manager.mapassign. simpl.
  rewrite lookup_alter_eq, Hm. done.
Qed.

Lemma fresh_svc_None s : manager.svcs s !! fresh (dom (manager.svcs s)) = None.
Proof. apply not_elem_of_dom, is_fresh. Qed.

(** [AddService] when the name is free and every library call
    succeeds. *)
Lemma AddService_provisioned cfg env s :
  wf s ->
  manager.registry s !! config.ServiceConfig.Name cfg = None ->
  provisioned env ->
  let l := fresh (dom (manager.svcs s)) in
  let ts := serverOf (manager.mgr s) cfg in
  manager.AddService cfg env s =
  (manager.mkState
     (<[l := manager.mkService cfg (Some ts) (Some (proxyOf cfg)) true]> (manager.svcs s))
     (<[manager.services (manager.mgr s) :=
          <[config.ServiceConfig.Name cfg := l]> (manager.registry s)]> (manager.maps s))
     (manager.mgr s),
   None,
   [TsStart ts; TsListenTLS ts "tcp" ":443"; TsListen ts "tcp" ":80";
    Go (HttpServe (tsnet.mkListener ts true "tcp" ":443") l (proxyOf cfg));
    Go (HttpServe (tsnet.mkListener ts false "tcp" ":80") l (proxyOf cfg))]).
Proof.
  intros [m Hm] Hfree (H1 & H2 & H3 & H4). unfold manager.AddService.
  rewrite Hfree, H1, H2, H3, H4. cbv zeta.
  unfold manager.mapassign, manager.withSvcs, manager.withMaps, manager.registry.
  simpl. rewrite alter_insert_eq. simpl. rewrite Hm. simpl.
  f_equal. f_equal. f_equal.
  apply map_eq. intros r.
  destruct (decide (manager.services (manager.mgr s) = r)) as [<- | Hne].
  - by rewrite lookup_alter_eq, lookup_insert_eq, Hm.
  - by rewrite lookup_alter_ne, lookup_insert_ne.
Qed.

(** [AddService] when the name is free and a library call fails. *)
Lemma AddService_unprovisioned cfg env s :
  manager.registry s !! config.ServiceConfig.Name cfg = None ->
  ~ provisioned env ->
  let l := fresh (dom (manager.svcs s)) in
  let ts := serverOf (manager.mgr s) cfg in
  exists err evs,
    manager.AddService cfg env s =
      (manager.withSvcs s (<[l := manager.NewService cfg]> (manager.svcs s)),
       Some err, evs) /\
    match manager.ts_Start env with
    | Some cause => err = manager.ErrStart cause /\ evs = [TsStart ts]
    | None =>
      exists calls,
        evs = TsStart ts :: calls ++ [TsClose ts] /\
        Forall (fun e => is_go e = false) calls /\
        match manager.ts_ListenTLS env, manager.ts_Listen env, manager.url_Parse env with
        | Some cause, _, _ => err = manager.ErrListenTLS cause
        | None, Some cause, _ => err = manager.ErrListen cause
        | None, None, Some cause => err = manager.ErrInvalidBackend cause
        | None, None, None => False
        end
    end.
Proof.
  intros Hfree Hnot. unfold manager.AddService. rewrite Hfree. cbv zeta.
  fold (serverOf (manager.mgr s) cfg).
  destruct env as [[c1|] [c2|] [c3|] [c4|]]; simpl.
  all: try (eexists; eexists; split; [reflexivity |]; simpl).
  all: try (split; reflexivity).
  all: try (eexists; split;
            [ match goal with
              | |- [?a; ?b; ?c] = _ => change [a; b; c] with (a :: [b] ++ [c])
              | |- [?a; ?b; ?c; ?d] = _ => change [a; b; c; d] with (a :: [b; c] ++ [d])
              end; reflexivity
            | split; [by repeat constructor | done] ]).
  destruct Hnot. by repeat split.
Qed.

End AddRemove.

Section RegistrySound.

Implicit Types (s : manager.State) (w : World) (l : loc) (name : string).

(** Events other than the start of a server goroutine leave the servers
    as they are. *)
Lemma perform_servers w e :
  (forall ln l p, e <> Go (HttpServe ln l p)) ->
  servers (perform w e) = servers w.
Proof.
  intros H. destruct e as [| | | | | | |[ln l p|l]| | | |]; simpl; try done.
  - by destruct (H ln l p).
  - destruct (manager.svcs (st w) !! l); [| done].
    by destruct (time.NewTicker _).
Qed.

Lemma foldl_perform_servers evs w :
  Forall (fun e => forall ln l p, e <> Go (HttpServe ln l p)) evs ->
  servers (foldl perform w evs) = servers w.
Proof.
  intros H. revert w. induction H as [|e evs He _ IH]; intros w; simpl; [done |].
  by rewrite IH, perform_servers.
Qed.

Lemma not_go_not_serve (evs : list event) :
  Forall (fun e => is_go e = false) evs ->
  Forall (fun e => forall ln l p, e <> Go (HttpServe ln l p)) evs.
Proof.
  intros H. eapply Forall_impl; [exact H |].
  intros e He ln l p ->. discriminate He.
Qed.

Lemma not_go_quiet (evs : list event) :
  Forall (fun e => is_go e = false) evs ->
  Forall (fun e => e <> CloseStopCh) evs ->
  Forall quiet evs.
Proof.
  intros H1 H2. apply Forall_forall. intros e He.
  rewrite Forall_forall in H1, H2. split.
  - intros l ->. by specialize (H1 _ He).
  - by apply H2.
Qed.

Lemma deleteDevice_calls (m : manager.Manager) ts o :
  Forall (fun e => is_api_call e = true) (manager.deleteDevice m ts o).
Proof.
  unfold manager.deleteDevice.
  destruct (manager.apiClient m); [destruct o |]; by repeat constructor.
Qed.

Lemma release_no_go s l o :
  Forall (fun e => is_go e = false) (manager.release s l o).
Proof.
  unfold manager.release.
  destruct (manager.svcs s !! l ≫= manager.tsnetServer) as [ts|]; [| constructor].
  apply Forall_app. split; [| by repeat constructor].
  eapply Forall_impl; [apply deleteDevice_calls |].
  by intros [] He.
Qed.

Lemma Shutdown_no_go o s :
  Forall (fun e => is_go e = false) (manager.Shutdown o s).2.
Proof.
  unfold manager.Shutdown. simpl.
  induction (map_to_list (manager.registry s)) as [|[name l] rest IH]; simpl.
  - constructor.
  - apply Forall_app. split; [apply release_no_go | exact IH].
Qed.

Lemma tick_fields hc fc (svc : manager.Service) b :
  manager.Config (health.tick hc fc svc b).2 = manager.Config svc /\
  manager.tsnetServer (health.tick hc fc svc b).2 = manager.tsnetServer svc /\
  manager.reverseProxy (health.tick hc fc svc b).2 = manager.reverseProxy svc.
Proof.
  unfold health.tick. destruct b; simpl; [done |].
  destruct (_ >=? _); [| done]. by destruct (manager.IsHealthy svc).
Qed.

(** Soundness of the registry carries over to a process with the same
    manager and registry, whose service objects keep what they were
    provisioned with and whose servers are all still there. *)
Lemma registry_sound_same w w' :
  manager.mgr (st w') = manager.mgr (st w) ->
  manager.maps (st w') !! manager.services (manager.mgr (st w))
    = manager.maps (st w) !! manager.services (manager.mgr (st w)) ->
  (forall l svc,
     manager.svcs (st w) !! l = Some svc ->
     exists svc',
       manager.svcs (st w') !! l = Some svc' /\
       manager.Config svc' = manager.Config svc /\
       manager.tsnetServer svc' = manager.tsnetServer svc /\
       manager.reverseProxy svc' = manager.reverseProxy svc) ->
  (forall x, x ∈ servers w -> x ∈ servers w') ->
  registry_sound w -> registry_sound w'.
Proof.
  intros Hmgr Hmaps Hsvcs Hsrv [Hwf Hreg].
  assert (Hr : manager.registry (st w') = manager.registry (st w)).
  { unfold manager.registry. by rewrite Hmgr, Hmaps. }
  split.
  - unfold wf in *. by rewrite Hmgr, Hmaps.
  - intros name l Hl. rewrite Hr in Hl.
    destruct (Hreg name l Hl) as (svc & Hsvc & Hn & Hts & Hp & H443 & H80).
    destruct (Hsvcs l svc Hsvc) as (svc' & Hsvc' & Hc & Ht & Hx).
    exists svc'. rewrite Hmgr, Hc, Ht, Hx. eauto 10.
Qed.

Lemma registry_sound_initial authKey stateDir apiKey tailnet :
  registry_sound (initial authKey stateDir apiKey tailnet).
Proof.
  split.
  - unfold wf. simpl. rewrite lookup_singleton_eq. eauto.
  - intros name l. unfold manager.registry. simpl.
    rewrite lookup_singleton_eq. simpl. by rewrite lookup_empty.
Qed.

Lemma provisioned_dec env : {provisioned env} + {~ provisioned env}.
Proof.
  unfold provisioned. destruct env as [[?|] [?|] [?|] [?|]]; simpl;
    first [ left; by repeat split
          | right; intros (? & ? & ? & ?); discriminate ].
Defined.

(** The world after an [AddService] that goes through. *)
Lemma AddService_provisioned_world cfg env w :
  wf (st w) ->
  manager.registry (st w) !! config.ServiceConfig.Name cfg = None ->
  provisioned env ->
  let l := fresh (dom (manager.svcs (st w))) in
  let ts := serverOf (manager.mgr (st w)) cfg in
  AddService cfg env w =
  mkWorld (manager.AddService cfg env (st w)).1.1 (probers w)
    (servers w ++
     [(tsnet.mkListener ts true "tcp" ":443", l, proxyOf cfg);
      (tsnet.mkListener ts false "tcp" ":80", l, proxyOf cfg)])
    (stopCh_closed w) (ctx_done w) (panicking w).
Proof.
  intros Hwf Hfree Hprov. unfold AddService.
  rewrite (AddService_provisioned cfg env (st w) Hwf Hfree Hprov).
  unfold exec. simpl. by rewrite <- app_assoc.
Qed.

Lemma AddService_unprovisioned_world cfg env w :
  manager.registry (st w) !! config.ServiceConfig.Name cfg = None ->
  ~ provisioned env ->
  AddService cfg env w =
  mkWorld
    (manager.withSvcs (st w)
       (<[fresh (dom (manager.svcs (st w))) := manager.NewService cfg]>
          (manager.svcs (st w))))
    (probers w) (servers w) (stopCh_closed w) (ctx_done w) (panicking w).
Proof.
  intros Hfree Hnot.
  pose proof (AddService_st cfg env w) as Hst.
  pose proof (AddService_panicking cfg env w) as Hk.
  destruct (AddService_probers cfg env w) as (Hp & Hc & Hd).
  assert (Hs : servers (AddService cfg env w) = servers w).
  { unfold AddService, exec.
    destruct (AddService_unprovisioned cfg env (st w) Hfree Hnot)
      as (err & evs & E & Hev).
    rewrite E. simpl. rewrite foldl_perform_servers; [done |].
    destruct (manager.ts_Start env).
    - destruct Hev as [_ ->]. repeat constructor. intros; discriminate.
    - destruct Hev as (calls & -> & Hcalls & _).
      constructor; [intros; discriminate |].
      apply Forall_app. split; [by apply not_go_not_serve |].
      repeat constructor. intros; discriminate. }
  destruct (AddService_unprovisioned cfg env (st w) Hfree Hnot)
    as (err & evs & E & _).
  rewrite E in Hst. simpl in Hst.
  destruct (AddService cfg env w) as [s' p' sv' c' d' k']. simpl in *.
  by subst.
Qed.

Lemma registry_sound_step w w' :
  registry_sound w -> step w w' -> registry_sound w'.
Proof.
  intros Hw Hstep.
  destruct Hstep as
    [w cfg env | w name o | w o | w | w | w _ | w | w j o w' Htick | w j _ _].
  - (* AddService *)
    destruct (manager.registry (st w) !! config.ServiceConfig.Name cfg)
      as [l|] eqn:Hfree.
    { unfold AddService, manager.AddService. rewrite Hfree.
      by destruct w. }
    pose proof (fresh_svc_None (st w)) as Hfresh.
    destruct (provisioned_dec env) as [Hprov | Hnot].
    + destruct Hw as [Hwf Hreg].
      rewrite (AddService_provisioned_world cfg env w Hwf Hfree Hprov).
      rewrite (AddService_provisioned cfg env (st w) Hwf Hfree Hprov).
      cbv zeta. split.
      * unfold wf. simpl. rewrite lookup_insert_eq. eauto.
      * intros name l. unfold manager.registry. simpl.
        rewrite lookup_insert_eq. simpl.
        destruct (decide (config.ServiceConfig.Name cfg = name)) as [<- | Hne].
        -- rewrite lookup_insert_eq. intros [= <-].
           eexists. rewrite lookup_insert_eq. split; [done |]. simpl.
           repeat split; try done; apply elem_of_app; right;
             [apply list_elem_of_here | apply list_elem_of_further, list_elem_of_here].
        -- rewrite lookup_insert_ne by done. intros Hl.
           destruct (Hreg name l Hl) as (svc & Hsvc & Hn & Hts & Hp & H443 & H80).
           exists svc. rewrite lookup_insert_ne by congruence.
           repeat split; try done; apply elem_of_app; by left.
    + rewrite (AddService_unprovisioned_world cfg env w Hfree Hnot).
      apply (registry_sound_same w); try done.
      intros l svc Hl. exists svc. simpl.
      rewrite lookup_insert_ne by congruence. done.
  - (* RemoveService *)
    destruct Hw as [Hwf Hreg].
    assert (Hs : servers (RemoveService name o w) = servers w).
    { unfold RemoveService, exec.
      pose proof (RemoveService_quiet name o (st w)) as Hq.
      destruct (manager.RemoveService name o (st w)) as [[s' err] evs] eqn:E.
      simpl. rewrite foldl_perform_servers; [done |].
      unfold manager.RemoveService in E.
      destruct (manager.registry (st w) !! name); injection E as <- <- <-;
        [apply not_go_not_serve, release_no_go | constructor]. }
    pose proof (RemoveService_st name o w) as Hst.
    unfold manager.RemoveService in Hst.
    destruct (manager.registry (st w) !! name) as [l0|] eqn:Hl0; simpl in Hst.
    + split.
      * unfold wf in *. rewrite Hst. simpl.
        rewrite lookup_alter_eq. destruct Hwf as [m ->]. simpl. eauto.
      * intros n l. rewrite Hst, registry_mapdelete by done. simpl.
        intros Hl. apply lookup_delete_Some in Hl as [Hne Hl].
        destruct (Hreg n l Hl) as (svc & Hsvc & Hn & Hts & Hp & H443 & H80).
        exists svc. rewrite Hs. eauto 10.
    + apply (registry_sound_same w); rewrite ?Hst, ?Hs; eauto. by split.
  - (* Shutdown *)
    unfold Shutdown, exec. split.
    + unfold wf. rewrite foldl_perform_st. simpl. rewrite lookup_insert_eq. eauto.
    + intros name l. rewrite foldl_perform_st. unfold manager.registry. simpl.
      rewrite lookup_insert_eq. simpl. by rewrite lookup_empty.
  - (* GetAllServices *)
    destruct Hw as [Hwf Hreg].
    apply (registry_sound_same w); [| | | done | by split];
      rewrite GetAllServices_eq; simpl; [done | | eauto].
    apply lookup_insert_ne. by apply fresh_ref_not_registry.
  - (* Checker.Start *)
    destruct Hw as [Hwf Hreg].
    assert (Hst : st (CheckerStart w) = (manager.GetAllServices (st w)).1).
    { unfold CheckerStart, exec, health.Start. rewrite foldl_perform_st.
      by destruct (manager.GetAllServices (st w)). }
    assert (Hs : servers (CheckerStart w) = servers w).
    { unfold CheckerStart, exec, health.Start.
      destruct (manager.GetAllServices (st w)) as [s1 r]. simpl.
      rewrite foldl_perform_servers; [done |]. apply Forall_forall. intros e He.
      apply list_elem_of_omap in He as ([name l] & _ & He).
      destruct (manager.svcs s1 !! l) as [svc|]; [| done].
      destruct (config.HealthCheckConfig.Enabled _); [| done].
      injection He as <-. intros; discriminate. }
    apply (registry_sound_same w); [| | | by rewrite Hs | by split];
      rewrite Hst, GetAllServices_eq; simpl; [done | | eauto].
    apply lookup_insert_ne. by apply fresh_ref_not_registry.
  - apply (registry_sound_same w); simpl; eauto 10.
  - apply (registry_sound_same w); simpl; eauto 10.
  - (* tick *)
    apply proberTick_Some in Htick as (q & svc & fc & svc' & Hq & Hsvc & Ht & ->).
    apply (registry_sound_same w); simpl; try done.
    intros l x Hl.
    destruct (decide (health.svc q = l)) as [<- | Hne].
    + exists svc'. rewrite lookup_insert_eq. split; [done |].
      assert (x = svc) as -> by congruence.
      pose proof (tick_fields (health.cfg q) (health.failureCount q) svc
                    (health.performCheck o)) as E.
      by rewrite Ht in E.
    + exists x. by rewrite lookup_insert_ne.
  - apply (registry_sound_same w); simpl; eauto 10.
Qed.

Lemma registry_sound_reachable w0 w :
  registry_sound w0 -> reachable w0 w -> registry_sound w.
Proof. intros H0. induction 1; [done | by eapply registry_sound_step]. Qed.

End RegistrySound.

Section Credentials.

Implicit Types (w : World).

Lemma AddService_mgr cfg env (s : manager.State) :
  manager.mgr (manager.AddService cfg env s).1.1 = manager.mgr s.
Proof.
  unfold manager.AddService.
  destruct (manager.registry s !! _); [done |].
  by destruct env as [[?|] [?|] [?|] [?|]].
Qed.

Lemma RemoveService_mgr name o (s : manager.State) :
  manager.mgr (manager.RemoveService name o s).1.1 = manager.mgr s.
Proof. unfold manager.RemoveService. by destruct (manager.registry s !! name). Qed.

Lemma step_credentials w w' :
  step w w' ->
  credentials (manager.mgr (st w')) = credentials (manager.mgr (st w)).
Proof.
  intros Hstep.
  destruct Hstep as
    [w cfg env | w name o | w o | w | w | w _ | w | w j o w' Htick | w j _ _].
  - by rewrite AddService_st, AddService_mgr.
  - by rewrite RemoveService_st, RemoveService_mgr.
  - unfold Shutdown, exec. by rewrite foldl_perform_st.
  - by rewrite GetAllServices_eq.
  - unfold CheckerStart, exec, health.Start. rewrite foldl_perform_st.
    by rewrite GetAllServices_eq.
  - done.
  - done.
  - by apply proberTick_Some in Htick as (q & svc & fc & svc' & _ & _ & _ & ->).
  - done.
Qed.

Lemma reachable_credentials w0 w :
  reachable w0 w ->
  credentials (manager.mgr (st w)) = credentials (manager.mgr (st w0)).
Proof.
  induction 1 as [|w w' _ IH Hstep]; [done |].
  by rewrite (step_credentials _ _ Hstep).
Qed.

Lemma release_without_client (s : manager.State) l o :
  manager.apiClient (manager.mgr s) = None ->
  Forall (fun e => is_api_call e = false) (manager.release s l o).
Proof.
  intros Hnone. unfold manager.release, manager.deleteDevice. rewrite Hnone.
  destruct (manager.svcs s !! l ≫= manager.tsnetServer); by repeat constructor.
Qed.

End Credentials.

(** A successful [AddService] registers exactly one new name. When the
    name is free and every library call succeeds, the call returns no
    error; the name then leads to a service object that did not exist
    before, is healthy, holds the configuration, the server started for
    it and a proxy to its backend (with a TLS transport exactly when TLS
    is enabled); every other name and every other service object is as
    it was; and the calls made are Start, ListenTLS on :443, Listen on
    :80 and the two server goroutines, in this order. *)
Theorem AddService_registers_service
    (cfg : config.ServiceConfig.t) (env : manager.Provision) (s : manager.State) :
  wf s ->
  manager.registry s !! config.ServiceConfig.Name cfg = None ->
  provisioned env ->
  let r := manager.AddService cfg env s in
  let ts := serverOf (manager.mgr s) cfg in
  r.1.2 = None /\
  exists l,
    manager.svcs s !! l = None /\
    manager.GetService (config.ServiceConfig.Name cfg) r.1.1 = Some l /\
    manager.svcs r.1.1 !! l
      = Some (manager.mkService cfg (Some ts) (Some (proxyOf cfg)) true) /\
    (forall name,
       name <> config.ServiceConfig.Name cfg ->
       manager.GetService name r.1.1 = manager.GetService name s) /\
    (forall l', l' <> l -> manager.svcs r.1.1 !! l' = manager.svcs s !! l') /\
    r.2 = [TsStart ts; TsListenTLS ts "tcp" ":443"; TsListen ts "tcp" ":80";
           Go (HttpServe (tsnet.mkListener ts true "tcp" ":443") l (proxyOf cfg));
           Go (HttpServe (tsnet.mkListener ts false "tcp" ":80") l (proxyOf cfg))].
Proof.
  intros Hwf Hfree Hprov r ts. subst r ts.
  rewrite (AddService_provisioned cfg env s Hwf Hfree Hprov). cbv zeta. simpl.
  split; [done |]. exists (fresh (dom (manager.svcs s))).
  split; [apply fresh_svc_None |].
  unfold manager.GetService, manager.registry. simpl.
  rewrite lookup_insert_eq. simpl. rewrite !lookup_insert_eq.
  repeat split; try done.
  - intros name Hne. by rewrite lookup_insert_ne.
  - intros l' Hne. by rewrite lookup_insert_ne.
Qed.

(** A failed [AddService] registers nothing. When the name is free and
    a library call fails, the call returns the error of the first call
    that failed; the registry, the manager and every service object that
    existed are as they were; no goroutine is started; and a server that
    was started is closed as the last call, while one whose Start failed
    is not closed. *)
Theorem AddService_failure_unwinds
    (cfg : config.ServiceConfig.t) (env : manager.Provision) (s : manager.State) :
  manager.registry s !! config.ServiceConfig.Name cfg = None ->
  ~ provisioned env ->
  let r := manager.AddService cfg env s in
  let ts := serverOf (manager.mgr s) cfg in
  is_Some r.1.2 /\
  manager.registry r.1.1 = manager.registry s /\
  manager.maps r.1.1 = manager.maps s /\
  manager.mgr r.1.1 = manager.mgr s /\
  (forall l svc, manager.svcs s !! l = Some svc -> manager.svcs r.1.1 !! l = Some svc) /\
  Forall (fun e => is_go e = false) r.2 /\
  (forall cause,
     manager.ts_Start env = Some cause ->
     r.1.2 = Some (manager.ErrStart cause) /\ r.2 = [TsStart ts]) /\
  (manager.ts_Start env = None ->
   head r.2 = Some (TsStart ts) /\ last r.2 = Some (TsClose ts) /\
   r.1.2 =
     Some (match manager.ts_ListenTLS env, manager.ts_Listen env with
           | Some cause, _ => manager.ErrListenTLS cause
           | None, Some cause => manager.ErrListen cause
           | None, None =>
             manager.ErrInvalidBackend (default "" (manager.url_Parse env))
           end)).
Proof.
  intros Hfree Hnot r ts. subst r ts.
  destruct (AddService_unprovisioned cfg env s Hfree Hnot) as (err & evs & E & Hev).
  rewrite E. simpl.
  split; [eauto |]. split; [done |]. split; [done |]. split; [done |].
  split.
  { intros l svc Hl. rewrite lookup_insert_ne; [done |].
    intros <-. by rewrite fresh_svc_None in Hl. }
  destruct (manager.ts_Start env) as [c|].
  - destruct Hev as [-> ->].
    split; [by repeat constructor |].
    split; [by intros cause [= <-] | done].
  - destruct Hev as (calls & -> & Hcalls & Herr).
    split.
    { constructor; [done |]. apply Forall_app. split; [done | by repeat constructor]. }
    split; [done |]. intros _.
    split; [done |]. split.
    { by rewrite app_comm_cons, last_snoc. }
    destruct (manager.ts_ListenTLS env); [by subst |].
    destruct (manager.ts_Listen env); [by subst |].
    destruct (manager.url_Parse env); [by subst | done].
Qed.

(** What [RemoveService] of a registered name does. *)
Lemma RemoveService_registered
    (name : string) (o : manager.DeleteOutcome) (s : manager.State) (l : loc) :
  manager.registry s !! name = Some l ->
  let r := manager.RemoveService name o s in
  r.1.2 = None /\
  manager.GetService name r.1.1 = None /\
  (forall n, n <> name -> manager.GetService n r.1.1 = manager.GetService n s) /\
  manager.svcs r.1.1 = manager.svcs s /\
  manager.mgr r.1.1 = manager.mgr s /\
  (forall proxy urlPath,
     manager.handle r.1.1 l proxy urlPath = manager.handle s l proxy urlPath) /\
  (forall svc ts,
     manager.svcs s !! l = Some svc ->
     manager.tsnetServer svc = Some ts ->
     exists calls,
       r.2 = calls ++ [TsClose ts] /\
       Forall (fun e => is_api_call e = true) calls /\
       (manager.apiClient (manager.mgr s) = None -> calls = []) /\
       (forall ID,
          is_Some (manager.apiClient (manager.mgr s)) ->
          o = manager.Deleted ID \/ o = manager.DeleteFails ID ->
          calls = [TsLocalClient ts; LcStatus ts;
                   ApiDeleteDevice ("%!d(tailcfg.StableNodeID=" +:+ ID +:+ ")")])).
Proof.
  intros Hl r. subst r. pose proof (registry_lookup_wf _ _ _ Hl) as Hwf.
  unfold manager.RemoveService. rewrite Hl. simpl.
  unfold manager.GetService. rewrite registry_mapdelete by done.
  split; [done |]. split; [apply lookup_delete_eq |].
  split; [intros n Hne; by apply lookup_delete_ne |].
  split; [done |]. split; [done |]. split; [done |].
  intros svc ts Hsvc Hts. unfold manager.release. rewrite Hsvc. simpl.
  rewrite Hts. eexists. split; [done |].
  split; [apply deleteDevice_calls |].
  unfold manager.deleteDevice. split.
  - by intros ->.
  - intros ID [c Hc] [-> | ->]; by rewrite Hc.
Qed.

(** [RemoveService] of a registered name succeeds and removes that name
    only: every other name leads where it led, and no service object is
    touched, so a handler still running for the removed service answers
    as before. When the service has a server, closing it is the last
    call made, preceded only by the calls of the device deletion: none
    of them without an API client, and LocalClient, Status and
    DeleteDevice when there is a client and Status names the node. The
    device DeleteDevice is asked to delete is then not the ID of the
    node: the ID is a string and is formatted with the verb for
    integers, so what is sent is the text fmt writes for a verb that
    does not fit, with the ID inside it. *)
Theorem RemoveService_removes_only_its_name
    (name : string) (o : manager.DeleteOutcome) (s : manager.State) (l : loc) :
  manager.registry s !! name = Some l ->
  let r := manager.RemoveService name o s in
  r.1.2 = None /\
  manager.GetService name r.1.1 = None /\
  (forall n, n <> name -> manager.GetService n r.1.1 = manager.GetService n s) /\
  manager.svcs r.1.1 = manager.svcs s /\
  manager.mgr r.1.1 = manager.mgr s /\
  (forall proxy urlPath,
     manager.handle r.1.1 l proxy urlPath = manager.handle s l proxy urlPath) /\
  (forall svc ts,
     manager.svcs s !! l = Some svc ->
     manager.tsnetServer svc = Some ts ->
     exists calls,
       r.2 = calls ++ [TsClose ts] /\
       Forall (fun e => is_api_call e = true) calls /\
       (manager.apiClient (manager.mgr s) = None -> calls = []) /\
       (forall ID,
          is_Some (manager.apiClient (manager.mgr s)) ->
          o = manager.Deleted ID \/ o = manager.DeleteFails ID ->
          calls = [TsLocalClient ts; LcStatus ts;
                   ApiDeleteDevice ("%!d(tailcfg.StableNodeID=" +:+ ID +:+ ")")])).
Proof. exact (RemoveService_registered name o s l). Qed.

(** Adding a service and removing it again leaves the registry as it
    was before the two calls, with every earlier service object intact
    and the probers as they were; the removal succeeds and the last
    thing it does is close the server the addition started. *)
Theorem AddService_then_RemoveService
    (cfg : config.ServiceConfig.t) (env : manager.Provision)
    (o : manager.DeleteOutcome) (w : World) :
  wf (st w) ->
  manager.registry (st w) !! config.ServiceConfig.Name cfg = None ->
  provisioned env ->
  let name := config.ServiceConfig.Name cfg in
  let w1 := AddService cfg env w in
  let w2 := RemoveService name o w1 in
  (manager.RemoveService name o (st w1)).1.2 = None /\
  manager.registry (st w2) = manager.registry (st w) /\
  (forall l svc,
     manager.svcs (st w) !! l = Some svc -> manager.svcs (st w2) !! l = Some svc) /\
  probers w2 = probers w /\
  In (TsStart (serverOf (manager.mgr (st w)) cfg)) (manager.AddService cfg env (st w)).2 /\
  last (manager.RemoveService name o (st w1)).2
    = Some (TsClose (serverOf (manager.mgr (st w)) cfg)).
Proof.
  intros Hwf Hfree Hprov name w1 w2. subst name w1 w2.
  set (name := config.ServiceConfig.Name cfg).
  set (l := fresh (dom (manager.svcs (st w)))).
  assert (Hst1 : st (AddService cfg env w) = (manager.AddService cfg env (st w)).1.1)
    by apply AddService_st.
  rewrite (AddService_provisioned cfg env (st w) Hwf Hfree Hprov) in Hst1 |- *.
  cbv zeta in Hst1 |- *. simpl in Hst1. fold l name in Hst1 |- *.
  assert (Hreg1 : manager.registry (st (AddService cfg env w))
                  = <[name := l]> (manager.registry (st w))).
  { rewrite Hst1. unfold manager.registry at 1. simpl.
    by rewrite lookup_insert_eq. }
  assert (Hl : manager.registry (st (AddService cfg env w)) !! name = Some l).
  { rewrite Hreg1. apply lookup_insert_eq. }
  destruct (RemoveService_registered name o _ l Hl)
    as (Herr & _ & _ & Hsvcs & _ & _ & Hev).
  split; [exact Herr |].
  rewrite RemoveService_st.
  destruct (RemoveService_probers name o (AddService cfg env w)) as [-> _].
  destruct (AddService_probers cfg env w) as [-> _].
  split.
  { unfold manager.RemoveService. rewrite Hl. simpl.
    rewrite registry_mapdelete by (by eapply registry_lookup_wf).
    rewrite Hreg1, delete_insert_id; done. }
  split.
  { intros l' svc Hl'. rewrite Hsvcs, Hst1. simpl.
    rewrite lookup_insert_ne; [done |]. intros <-.
    unfold l in Hl'. by rewrite fresh_svc_None in Hl'. }
  split; [done |]. split; [simpl; tauto |].
  destruct (Hev (manager.mkService cfg
                   (Some (serverOf (manager.mgr (st w)) cfg))
                   (Some (proxyOf cfg)) true)
                (serverOf (manager.mgr (st w)) cfg)) as (calls & -> & _).
  - rewrite Hst1. simpl. apply lookup_insert_eq.
  - done.
  - apply last_snoc.
Qed.

(** A manager built without an API key or without a tailnet name never
    calls the Tailscale API or a local client to delete a device, in
    any state the process reaches: neither [RemoveService] nor
    [Shutdown] makes such a call. *)
Theorem no_api_client_no_device_deletion
    (authKey stateDir apiKey tailnet : string) (w : World) :
  reachable (initial authKey stateDir apiKey tailnet) w ->
  apiKey = "" \/ tailnet = "" ->
  (forall name o,
     Forall (fun e => is_api_call e = false) (manager.RemoveService name o (st w)).2) /\
  (forall o,
     Forall (fun e => is_api_call e = false) (manager.Shutdown o (st w)).2).
Proof.
  intros Hreach Hno.
  assert (Hnone : manager.apiClient (manager.mgr (st w)) = None).
  { pose proof (reachable_credentials _ _ Hreach) as E.
    injection E as _ _ -> _. simpl.
    destruct Hno as [-> | ->]; [done |].
    by destruct (bool_decide (apiKey = "")). }
  split.
  - intros name o. unfold manager.RemoveService.
    destruct (manager.registry (st w) !! name); simpl;
      [by apply release_without_client | constructor].
  - intros o. unfold manager.Shutdown. simpl.
    induction (map_to_list (manager.registry (st w))) as [|[name l] rest IH]; simpl.
    + constructor.
    + apply Forall_app. split; [by apply release_without_client | exact IH].
Qed.

(** In every state the process reaches, each registered name leads to a
    service object that exists, is configured under that very name, and
    holds the server and the proxy [AddService] made for it; the object
    is served on the TLS listener of port 443 and on the plain listener
    of port 80; and no two names lead to one object. *)
Theorem registered_services_are_provisioned
    (authKey stateDir apiKey tailnet : string) (w : World) :
  reachable (initial authKey stateDir apiKey tailnet) w ->
  registry_sound w /\
  (forall n1 n2 l,
     manager.registry (st w) !! n1 = Some l ->
     manager.registry (st w) !! n2 = Some l ->
     n1 = n2).
Proof.
  intros Hreach.
  pose proof (registry_sound_reachable _ w
                (registry_sound_initial authKey stateDir apiKey tailnet) Hreach)
    as Hs.
  split; [exact Hs |]. destruct Hs as [_ Hreg].
  intros n1 n2 l H1 H2.
  destruct (Hreg n1 l H1) as (s1 & Hs1 & <- & _).
  destruct (Hreg n2 l H2) as (s2 & Hs2 & <- & _).
  congruence.
Qed.

(** [Shutdown] releases every registered service exactly once. In any
    state the process reaches, the servers it closes are those of the
    registered names, one close per name and none twice; afterwards the
    registry is empty, so removing any name fails with the not-found
    error; the service objects are as they were, and the map the manager
    had is left as it was, a new one taking its place. *)
Theorem Shutdown_releases_every_service
    (authKey stateDir apiKey tailnet : string) (w : World)
    (o : string -> manager.DeleteOutcome) :
  reachable (initial authKey stateDir apiKey tailnet) w ->
  let r := manager.Shutdown o (st w) in
  omap closed_host r.2 = (map_to_list (manager.registry (st w))).*1 /\
  NoDup (omap closed_host r.2) /\
  (forall name,
     name ∈ omap closed_host r.2 <-> is_Some (manager.registry (st w) !! name)) /\
  manager.registry r.1 = ∅ /\
  manager.svcs r.1 = manager.svcs (st w) /\
  manager.maps r.1 !! manager.services (manager.mgr (st w))
    = manager.maps (st w) !! manager.services (manager.mgr (st w)) /\
  (forall name o',
     manager.RemoveService name o' r.1 = (r.1, Some (manager.ErrNotFound name), [])).
Proof.
  intros Hreach r. subst r.
  pose proof (registry_sound_reachable _ w
                (registry_sound_initial authKey stateDir apiKey tailnet) Hreach)
    as [Hwf Hreg].
  assert (Hclosed :
    omap closed_host (manager.Shutdown o (st w)).2
    = (map_to_list (manager.registry (st w))).*1).
  { unfold manager.Shutdown. simpl.
    assert (Hin : forall name l,
              (name, l) ∈ map_to_list (manager.registry (st w)) ->
              manager.registry (st w) !! name = Some l).
    { intros name l. apply elem_of_map_to_list. }
    induction (map_to_list (manager.registry (st w))) as [|[name l] rest IH];
      simpl; [done |].
    rewrite omap_app, IH by (intros; apply Hin; by right).
    destruct (Hreg name l (Hin name l (list_elem_of_here _ _)))
      as (svc & Hsvc & Hn & Hts & _).
    unfold manager.release. rewrite Hsvc. simpl. rewrite Hts.
    rewrite omap_app.
    assert (Hdel : omap closed_host
                     (manager.deleteDevice (manager.mgr (st w))
                        (serverOf (manager.mgr (st w)) (manager.Config svc)) (o name))
                   = []).
    { unfold manager.deleteDevice.
      destruct (manager.apiClient _); [by destruct (o name) | done]. }
    rewrite Hdel. simpl. by rewrite Hn. }
  rewrite Hclosed.
  assert (Hempty : manager.registry (manager.Shutdown o (st w)).1 = ∅).
  { unfold manager.registry, manager.Shutdown. simpl. by rewrite lookup_insert_eq. }
  split; [done |].
  split; [apply NoDup_fst_map_to_list |].
  split.
  { intros name. rewrite list_elem_of_fmap. split.
    - intros ([n l] & -> & Hin). apply elem_of_map_to_list in Hin. eauto.
    - intros [l Hl]. exists (name, l). split; [done |].
      by apply elem_of_map_to_list. }
  split; [exact Hempty |]. split; [done |]. split.
  { unfold manager.Shutdown. simpl. apply lookup_insert_ne.
    by apply fresh_ref_not_registry. }
  intros name o'. unfold manager.RemoveService.
  by rewrite Hempty, lookup_empty.
Qed.

(* ===================================================================== *)
(** * The prober, in full *)
(* ===================================================================== *)

Section FailureRun.

Import config.HealthCheckConfig.

Variable hc : config.HealthCheckConfig.t.
Hypothesis Hmax : UnhealthyThreshold hc <= health.max_int.

Local Abbreviation below := (run_below hc).

Lemma failure_run_snoc (probes : list bool) (b : bool) :
  failure_run (probes ++ [b]) = if b then O else S (failure_run probes).
Proof. unfold failure_run. by rewrite foldl_app. Qed.

Lemma ticks_snoc fc (s : manager.Service) (probes : list bool) (b : bool) :
  health.ticks hc fc s (probes ++ [b]) =
  health.tick hc (health.ticks hc fc s probes).1 (health.ticks hc fc s probes).2 b.
Proof.
  rewrite ticks_app. cbn [health.ticks].
  by destruct (health.tick hc _ _ b).
Qed.

(** A failed tick never sets the flag. *)
Lemma tick_failure_stays_down fc (s : manager.Service) :
  manager.IsHealthy s = false ->
  manager.IsHealthy (health.tick hc fc s false).2 = false.
Proof.
  intros Hs. unfold health.tick. simpl.
  destruct (_ >=? _); [| done]. by rewrite Hs.
Qed.

(** The prober's counter and the flag, against the length of the
    current run of failures. *)
Lemma ticks_track_run (s : manager.Service) (probes : list bool) :
  manager.IsHealthy s = true ->
  let r := health.ticks hc 0 s probes in
  let n := failure_run probes in
  (below n -> manager.IsHealthy r.2 = true /\ r.1 = Z.of_nat n) /\
  (~ below n -> manager.IsHealthy r.2 = false).
Proof.
  intros Hs. induction probes as [|b probes IH] using rev_ind.
  - simpl. split; [done |]. intros H. destruct H. by left.
  - cbv zeta in *. rewrite ticks_snoc, failure_run_snoc.
    destruct (health.ticks hc 0 s probes) as [fc s'] eqn:E. simpl in *.
    destruct IH as [IHup IHdown].
    destruct b.
    + (* success *)
      rewrite tick_success. simpl. split; [done |].
      intros H. destruct H. by left.
    + (* failure *)
      split.
      * intros [Hz | Hlt]; [done |].
        destruct IHup as [Hh ->]; [right; lia |].
        rewrite tick_failure_below by lia. simpl. split; [done | lia].
      * intros Hnot.
        assert (Hge : UnhealthyThreshold hc <= Z.of_nat (S (failure_run probes))).
        { destruct (Z.le_gt_cases (UnhealthyThreshold hc)
                      (Z.of_nat (S (failure_run probes)))); [done |].
          destruct Hnot. right. lia. }
        destruct (manager.IsHealthy s') eqn:Hh.
        -- assert (Hb : below (failure_run probes)).
           { destruct (decide (failure_run probes = O)) as [Hz | Hnz]; [by left |].
             right.
             destruct (Z.le_gt_cases (UnhealthyThreshold hc)
                         (Z.of_nat (failure_run probes))) as [Hle | Hgt]; [| lia].
             assert (Hd : ~ below (failure_run probes)).
             { intros [Hz | Hlt]; [done | lia]. }
             specialize (IHdown Hd). congruence. }
           destruct (IHup Hb) as [_ ->].
           unfold health.tick. simpl.
           rewrite int_wrap_small.
           ++ destruct (Z.geb_spec (Z.of_nat (failure_run probes) + 1)
                          (UnhealthyThreshold hc)); [by rewrite Hh | lia].
           ++ unfold health.max_int in *.
              destruct Hb as [-> | Hlt]; simpl; lia.
        -- by apply tick_failure_stays_down.
Qed.

End FailureRun.

(** The health flag after any history of probes. With a threshold that
    is a Go [int], the flag of a service is true exactly when the run of
    failed probes the history ends with is empty or shorter than the
    threshold; and while it is true, the prober's failure counter is the
    length of that run. A threshold of 1 or less, zero and negative
    ones included, therefore makes the first failed probe clear the
    flag, and no number of further failures sets it again. *)
Theorem health_flag_tracks_failure_run
    (cfg : config.ServiceConfig.t) (history : list bool) :
  let threshold :=
    config.HealthCheckConfig.UnhealthyThreshold (config.ServiceConfig.HealthCheck cfg) in
  let r := health.runHealthCheck (manager.NewService cfg) history in
  let n := Z.of_nat (failure_run history) in
  threshold <= health.max_int ->
  (manager.IsHealthy r.2 = true <-> n = 0 \/ n < threshold) /\
  (manager.IsHealthy r.2 = true -> r.1 = n).
Proof.
  intros threshold r n Hmax. subst threshold r n.
  unfold health.runHealthCheck. simpl manager.Config.
  destruct (ticks_track_run (config.ServiceConfig.HealthCheck cfg) Hmax
              (manager.NewService cfg) history eq_refl) as [Hup Hdown].
  unfold run_below in *.
  assert (Hdec : {failure_run history = O \/
                  Z.of_nat (failure_run history)
                  < config.HealthCheckConfig.UnhealthyThreshold
                      (config.ServiceConfig.HealthCheck cfg)} +
                 {~ (failure_run history = O \/
                     Z.of_nat (failure_run history)
                     < config.HealthCheckConfig.UnhealthyThreshold
                         (config.ServiceConfig.HealthCheck cfg))}).
  { destruct (decide (failure_run history = O)); [left; by left |].
    destruct (Z_lt_dec (Z.of_nat (failure_run history))
                (config.HealthCheckConfig.UnhealthyThreshold
                   (config.ServiceConfig.HealthCheck cfg)));
      [left; by right | right; tauto]. }
  destruct Hdec as [Hb | Hnb].
  - destruct (Hup Hb) as [Hh Hc]. split; [| done].
    split; [| done]. intros _. destruct Hb as [Hz | Hlt]; [left; lia | by right].
  - rewrite (Hdown Hnb). split; [| done].
    split; [done |]. intros [Hz | Hlt]; destruct Hnb; [left; lia | by right].
Qed.

(** From probes to answers. A probe counts as passed exactly when a
    response came back with a status from 200 to 399. After any history
    of probe outcomes, the handler of the service answers every request
    with 503 when that history ends with a run of failed probes that is
    not empty and as long as the threshold, and never answers 503
    otherwise. *)
Theorem probes_gate_requests
    (cfg : config.ServiceConfig.t) (outcomes : list health.ProbeOutcome)
    (proxy : httputil.ReverseProxy) (urlPath : string) :
  let threshold :=
    config.HealthCheckConfig.UnhealthyThreshold (config.ServiceConfig.HealthCheck cfg) in
  let probes := health.performCheck <$> outcomes in
  let s := (health.runHealthCheck (manager.NewService cfg) probes).2 in
  let n := Z.of_nat (failure_run probes) in
  threshold <= health.max_int ->
  (forall o,
     health.performCheck o = true <->
     exists code, o = health.Response code /\ 200 <= code < 400) /\
  (1 <= n -> threshold <= n ->
   manager.serveHTTP s proxy urlPath
     = [HttpError "Service Unavailable" StatusServiceUnavailable]) /\
  (n = 0 \/ n < threshold ->
   Forall (fun e => status_of e <> Some StatusServiceUnavailable)
     (manager.serveHTTP s proxy urlPath)).
Proof.
  intros threshold probes s n Hmax. subst threshold s n.
  unfold health.runHealthCheck. simpl manager.Config.
  destruct (ticks_track_run (config.ServiceConfig.HealthCheck cfg) Hmax
              (manager.NewService cfg) probes eq_refl) as [Hup Hdown].
  unfold run_below in *.
  split; [| split].
  - intros [| |code]; simpl.
    + split; [done | by intros (c & [=] & _)].
    + split; [done | by intros (c & [=] & _)].
    + rewrite andb_true_iff, Z.leb_le, Z.ltb_lt. split.
      * intros H. by exists code.
      * by intros (c & [= <-] & H).
  - intros H1 Hge. apply serveHTTP_unhealthy. apply Hdown.
    intros [Hz | Hlt]; lia.
  - intros Hb. apply serveHTTP_healthy_not_503. apply Hup.
    destruct Hb as [Hz | Hlt]; [left; lia | by right].
Qed.

Section ProberFrame.

Implicit Types (w : World).

Lemma tick_healthy_only hc fc (svc : manager.Service) b :
  (health.tick hc fc svc b).2
  = manager.SetHealthy svc (manager.IsHealthy (health.tick hc fc svc b).2).
Proof.
  unfold health.tick. destruct b; simpl; [done |].
  destruct (_ >=? _); [| by destruct svc].
  destruct (manager.IsHealthy svc) eqn:E; [done |].
  destruct svc. simpl in *. by subst.
Qed.

End ProberFrame.

(** A tick of a prober writes one flag and one counter. It leaves the
    manager, every map, the servers, both stop signals, the goroutines
    that are to panic and every other prober as they are; the prober keeps its service and its settings;
    every other service object is untouched, and the object it checks
    changes in nothing but its health flag. *)
Theorem proberTick_writes_only_the_flag
    (i : nat) (o : health.ProbeOutcome) (w w' : World) :
  proberTick i o w = Some w' ->
  manager.mgr (st w') = manager.mgr (st w) /\
  manager.maps (st w') = manager.maps (st w) /\
  servers w' = servers w /\
  stopCh_closed w' = stopCh_closed w /\
  ctx_done w' = ctx_done w /\
  panicking w' = panicking w /\
  length (probers w') = length (probers w) /\
  (forall j, j <> i -> probers w' !! j = probers w !! j) /\
  exists p fc s,
    probers w !! i = Some p /\
    probers w' !! i = Some (health.mkProber (health.svc p) (health.cfg p) fc) /\
    manager.svcs (st w) !! health.svc p = Some s /\
    (exists flag,
       manager.svcs (st w') !! health.svc p = Some (manager.SetHealthy s flag)) /\
    (forall l, l <> health.svc p ->
               manager.svcs (st w') !! l = manager.svcs (st w) !! l).
Proof.
  intros Htick.
  apply proberTick_Some in Htick as (p & s & fc & s' & Hp & Hs & Ht & ->).
  simpl. repeat (split; [done |]).
  split; [apply length_insert |].
  split; [intros j Hne; by apply list_lookup_insert_ne |].
  exists p, fc, s. split; [done |].
  split; [apply list_lookup_insert_eq; by eapply lookup_lt_Some |].
  split; [done |]. split.
  - exists (manager.IsHealthy s'). rewrite lookup_insert_eq. f_equal.
    pose proof (tick_healthy_only (health.cfg p) (health.failureCount p) s
                  (health.performCheck o)) as E.
    by rewrite Ht in E.
  - intros l Hne. by apply lookup_insert_ne.
Qed.

Section Statuses.

Lemma GetAllStatuses_lookup (st0 : manager.State) (name : string) :
  (health.GetAllStatuses st0).2 !! name
  = manager.registry st0 !! name
      ≫= (fun l => manager.IsHealthy <$> manager.svcs st0 !! l).
Proof.
  unfold health.GetAllStatuses. rewrite GetAllServices_eq. cbv beta iota zeta.
  cbn [fst snd manager.maps manager.svcs manager.withMaps].
  rewrite lookup_insert_eq. cbn [default].
  generalize (manager.registry st0). intros m.
  apply (map_fold_weak_ind
           (fun acc m =>
              acc !! name
              = m !! name ≫= (fun l => manager.IsHealthy <$> manager.svcs st0 !! l))).
  - by rewrite !lookup_empty.
  - intros k l m' acc Hk IH.
    destruct (decide (k = name)) as [-> | Hne].
    + rewrite lookup_insert_eq. simpl.
      destruct (manager.svcs st0 !! l) as [s|]; simpl.
      * by rewrite lookup_insert_eq.
      * by rewrite IH, Hk.
    + rewrite (lookup_insert_ne m') by done.
      destruct (manager.svcs st0 !! l) as [s|]; [| done].
      by rewrite lookup_insert_ne.
Qed.

End Statuses.

(** The health snapshot agrees with the registry. In every state the
    process reaches, [GetAllStatuses] has an entry for exactly the
    registered names, each entry is the health flag of the service the
    name leads to, and [GetServiceStatus] gives the same flag for a
    registered name and (false, false) for any other. Taking the
    snapshot changes neither the registry nor any service object. *)
Theorem statuses_agree_with_registry
    (authKey stateDir apiKey tailnet : string) (w : World) (name : string) :
  reachable (initial authKey stateDir apiKey tailnet) w ->
  let statuses := (health.GetAllStatuses (st w)).2 in
  (is_Some (statuses !! name) <-> is_Some (manager.registry (st w) !! name)) /\
  (forall l s,
     manager.registry (st w) !! name = Some l ->
     manager.svcs (st w) !! l = Some s ->
     statuses !! name = Some (manager.IsHealthy s)) /\
  health.GetServiceStatus name (st w)
    = (default false (statuses !! name), bool_decide (is_Some (statuses !! name))) /\
  manager.registry (health.GetAllStatuses (st w)).1 = manager.registry (st w) /\
  manager.svcs (health.GetAllStatuses (st w)).1 = manager.svcs (st w).
Proof.
  intros Hreach statuses. subst statuses.
  pose proof (registry_sound_reachable _ w
                (registry_sound_initial authKey stateDir apiKey tailnet) Hreach)
    as [Hwf Hreg].
  assert (Hframe :
    manager.registry (health.GetAllStatuses (st w)).1 = manager.registry (st w) /\
    manager.svcs (health.GetAllStatuses (st w)).1 = manager.svcs (st w)).
  { unfold health.GetAllStatuses. rewrite GetAllServices_eq. simpl.
    split; [| done]. apply registry_other_map.
    apply lookup_insert_ne. by apply fresh_ref_not_registry. }
  rewrite GetAllStatuses_lookup.
  unfold health.GetServiceStatus, manager.GetService.
  destruct (manager.registry (st w) !! name) as [l|] eqn:Hl; simpl.
  - destruct (Hreg name l Hl) as (s & Hs & _). rewrite Hs. simpl.
    split; [split; eauto |].
    split; [intros l' s' [= <-] Hs'; congruence |].
    by split.
  - split; [done |]. split; [done |]. by split.
Qed.

(* ===================================================================== *)
(** * Validation, in full *)
(* ===================================================================== *)

Section ValidationMore.

Import config.

Implicit Types (svc : ServiceConfig.t) (names : gmap string bool).

Lemma fillHealthCheck_idem (hc : HealthCheckConfig.t) :
  fillHealthCheck (fillHealthCheck hc) = fillHealthCheck hc.
Proof.
  destruct hc as [en path i t u]. unfold fillHealthCheck. simpl.
  destruct (i =? 0) eqn:E1; destruct (t =? 0) eqn:E2; destruct (u =? 0) eqn:E3;
    simpl; rewrite ?E1, ?E2, ?E3; done.
Qed.

Lemma fillManagementUI_idem (u : ManagementUI.t) :
  fillManagementUI (fillManagementUI u) = fillManagementUI u.
Proof.
  destruct u as [[] host port]; unfold fillManagementUI; simpl; [| done].
  destruct (bool_decide (host = "")) eqn:Eh; simpl;
    destruct (port =? 0) eqn:Ep; simpl; rewrite ?Eh, ?Ep; simpl; rewrite ?Eh, ?Ep; done.
Qed.

Lemma fillMetrics_idem (m : MetricsConfig.t) :
  fillMetrics (fillMetrics m) = fillMetrics m.
Proof.
  destruct m as [[] port]; unfold fillMetrics; simpl; [| done].
  destruct (port =? 0) eqn:Ep; simpl; rewrite ?Ep; simpl; rewrite ?Ep; done.
Qed.

(** The loop accepts again what it accepted, and changes nothing the
    second time. *)
Lemma validateServices_idem (l : list ServiceConfig.t) i names l' :
  validateServices i names l = (l', None) ->
  validateServices i names l' = (l', None).
Proof.
  revert i names l'. induction l as [|svc rest IH]; intros i names l' H.
  - by injection H as <-.
  - cbn [validateServices] in H.
    destruct (bool_decide (ServiceConfig.Name svc = "")) eqn:E1; [done |].
    destruct (seen names (ServiceConfig.Name svc)) eqn:E2; [done |].
    destruct (bool_decide (ServiceConfig.Backend svc = "")) eqn:E3; [done |].
    destruct (negb _ && negb _) eqn:E4; [done |].
    destruct (HealthCheckConfig.Enabled (ServiceConfig.HealthCheck svc)) eqn:E5.
    + destruct (bool_decide (HealthCheckConfig.Path _ = "")) eqn:E6; [done |].
      destruct (validateServices (S i) _ rest) as [rest' e] eqn:Hrest.
      injection H as <- ->. cbn [validateServices]. simpl.
      rewrite E1, E2, E3, E4, E5, E6, (IH _ _ _ Hrest).
      unfold withHealthCheck. simpl. by rewrite fillHealthCheck_idem.
    + destruct (validateServices (S i) _ rest) as [rest' e] eqn:Hrest.
      injection H as <- ->. cbn [validateServices].
      by rewrite E1, E2, E3, E4, E5, (IH _ _ _ Hrest).
Qed.

(** What the loop has established of the services it accepted. *)
Lemma validateServices_well_formed (l : list ServiceConfig.t) i names l' :
  validateServices i names l = (l', None) ->
  Forall well_formed_service l' /\
  NoDup (ServiceConfig.Name <$> l') /\
  Forall (fun svc => seen names (ServiceConfig.Name svc) = false) l'.
Proof.
  revert i names l'. induction l as [|svc rest IH]; intros i names l' H.
  - injection H as <-. repeat split; constructor.
  - cbn [validateServices] in H.
    destruct (bool_decide (ServiceConfig.Name svc = "")) eqn:E1; [done |].
    destruct (seen names (ServiceConfig.Name svc)) eqn:E2; [done |].
    destruct (bool_decide (ServiceConfig.Backend svc = "")) eqn:E3; [done |].
    destruct (negb _ && negb _) eqn:E4; [done |].
    apply bool_decide_eq_false in E1.
    assert (Hscheme :
      strings.HasPrefix (ServiceConfig.Backend svc) "http://" = true \/
      strings.HasPrefix (ServiceConfig.Backend svc) "https://" = true).
    { destruct (strings.HasPrefix _ "http://"); [by left |].
      destruct (strings.HasPrefix _ "https://"); [by right | done]. }
    assert (Hrec : forall rest' svc',
      validateServices (S i) (<[ServiceConfig.Name svc := true]> names) rest
        = (rest', None) ->
      ServiceConfig.Name svc' = ServiceConfig.Name svc ->
      well_formed_service svc' ->
      Forall well_formed_service (svc' :: rest') /\
      NoDup (ServiceConfig.Name <$> svc' :: rest') /\
      Forall (fun svc => seen names (ServiceConfig.Name svc) = false) (svc' :: rest')).
    { intros rest' svc' Hrest Hname Hwf.
      destruct (IH _ _ _ Hrest) as (Hall & Hnd & Hseen).
      assert (Hnot : ServiceConfig.Name svc ∉ ServiceConfig.Name <$> rest').
      { intros (x & Hx & Hin)%list_elem_of_fmap.
        rewrite Forall_forall in Hseen. specialize (Hseen x Hin).
        assert (seen (<[ServiceConfig.Name svc := true]> names) (ServiceConfig.Name x)
                = true) by (apply seen_insert; by left).
        congruence. }
      split; [by constructor |]. split.
      - rewrite fmap_cons, Hname. by constructor.
      - constructor; [by rewrite Hname |].
        eapply Forall_impl; [exact Hseen |]. intros x Hx. simpl in Hx.
        destruct (seen names (ServiceConfig.Name x)) eqn:E; [| done].
        assert (seen (<[ServiceConfig.Name svc := true]> names) (ServiceConfig.Name x)
                = true) by (apply seen_insert; by right).
        congruence. }
    destruct (HealthCheckConfig.Enabled (ServiceConfig.HealthCheck svc)) eqn:E5.
    + destruct (bool_decide (HealthCheckConfig.Path _ = "")) eqn:E6; [done |].
      apply bool_decide_eq_false in E6.
      destruct (validateServices (S i) _ rest) as [rest' e] eqn:Hrest.
      injection H as <- ->. apply Hrec; [done | done |].
      unfold well_formed_service. simpl.
      split; [done |]. split; [done |]. intros _.
      split; [done |].
      repeat split.
      * destruct (Z.eqb_spec (HealthCheckConfig.Interval (ServiceConfig.HealthCheck svc)) 0);
          [done | done].
      * destruct (Z.eqb_spec (HealthCheckConfig.Timeout (ServiceConfig.HealthCheck svc)) 0);
          [done | done].
      * destruct (Z.eqb_spec
                    (HealthCheckConfig.UnhealthyThreshold (ServiceConfig.HealthCheck svc)) 0);
          [done | done].
    + destruct (validateServices (S i) _ rest) as [rest' e] eqn:Hrest.
      injection H as <- ->. apply Hrec; [done | done |].
      unfold well_formed_service. split; [done |]. split; [done |].
      intros He. congruence.
Qed.

End ValidationMore.

Section ValidateShape.

Import config.

(** The configuration [Validate] leaves behind when it accepts. *)
Lemma Validate_accepted (c c' : Config) :
  Validate c = (c', None) <->
  AuthKey c <> "" /\
  exists svcs,
    validateServices 0 ∅ (Services c) = (svcs, None) /\
    c' = mkConfig svcs (AuthKey c) (APIKey c) (Tailnet c)
           (if bool_decide (StateDir c = "") then "/data/tsnet" else StateDir c)
           (fillManagementUI (ManagementUI c)) (fillMetrics (Metrics c)).
Proof.
  unfold Validate.
  destruct (bool_decide (AuthKey c = "")) eqn:Ha.
  { apply bool_decide_eq_true in Ha. split; [done | tauto]. }
  apply bool_decide_eq_false in Ha.
  assert (Hsv : Services
            (if bool_decide (StateDir c = "")
             then withStateDir c "/data/tsnet" else c)
          = Services c) by (by destruct (bool_decide _)).
  rewrite Hsv.
  destruct (validateServices 0 ∅ (Services c)) as [svcs e].
  destruct e as [err|].
  - split; [done |]. by intros (_ & ? & [=] & _).
  - split.
    + intros [= <-]. split; [done |]. exists svcs. split; [done |].
      by destruct (bool_decide (StateDir c = "")).
    + intros (_ & ? & [= <-] & ->). f_equal.
      by destruct (bool_decide (StateDir c = "")).
Qed.

End ValidateShape.

(** Validating twice is validating once: a configuration [Validate] has
    accepted, defaults filled in, is accepted again and comes out
    unchanged. *)
Theorem Validate_idempotent (c c' : config.Config) :
  config.Validate c = (c', None) ->
  config.Validate c' = (c', None).
Proof.
  intros H. apply Validate_accepted in H as (Ha & svcs & Hv & ->).
  apply Validate_accepted. simpl. split; [done |].
  exists svcs. split; [by eapply validateServices_idem |].
  rewrite fillManagementUI_idem, fillMetrics_idem. f_equal.
  destruct (bool_decide (config.StateDir c = "")) eqn:E; [done |].
  by rewrite E.
Qed.

(** What acceptance guarantees. In a configuration [Validate] has
    accepted, the auth key and the state directory are not empty; every
    service has a name, a backend that starts with http:// or https://,
    and, when its health check is enabled, a path and an interval, a
    timeout and a threshold that are not zero; no two services share a
    name; an enabled management UI has a hostname and a port, and
    enabled metrics have a port. *)
Theorem accepted_configuration_is_well_formed (c c' : config.Config) :
  config.Validate c = (c', None) ->
  well_formed c'.
Proof.
  intros H. apply Validate_accepted in H as (Ha & svcs & Hv & ->).
  destruct (validateServices_well_formed _ _ _ _ Hv) as (Hall & Hnd & _).
  unfold well_formed. simpl.
  split; [done |]. split.
  { destruct (bool_decide (config.StateDir c = "")) eqn:E; [done |].
    by apply bool_decide_eq_false in E. }
  split; [done |]. split; [done |]. split.
  - destruct (config.ManagementUI c) as [en host port].
    unfold config.fillManagementUI. simpl. intros He.
    destruct en; simpl in *.
    + destruct (bool_decide (host = "")) eqn:Eh; simpl;
        destruct (Z.eqb_spec port 0); simpl;
        try apply bool_decide_eq_false in Eh; done.
    + done.
  - destruct (config.Metrics c) as [en port].
    unfold config.fillMetrics. simpl. intros He.
    destruct en; simpl in *; [| done].
    destruct (Z.eqb_spec port 0); simpl; done.
Qed.

Section ValidationErrors.

Import config.

Implicit Types (svc : ServiceConfig.t) (names : gmap string bool).

Lemma validateServices_error (l pre : list ServiceConfig.t) names l' e :
  (forall n, seen names n = true <-> n ∈ ServiceConfig.Name <$> pre) ->
  Forall passes pre ->
  NoDup (ServiceConfig.Name <$> pre) ->
  validateServices (length pre) names l = (l', Some e) ->
  exists k svc,
    l !! k = Some svc /\
    Forall passes (pre ++ take k l) /\
    NoDup (ServiceConfig.Name <$> pre ++ take k l) /\
    offence e (length pre + k) (ServiceConfig.Name <$> pre ++ take k l) svc.
Proof.
  revert pre names l'. induction l as [|svc rest IH]; intros pre names l' Hseen Hpass Hnd H.
  - done.
  - cbn [validateServices] in H.
    assert (Hhere : forall e0,
      offence e0 (length pre + 0) (ServiceConfig.Name <$> pre) svc ->
      exists k svc0,
        (svc :: rest) !! k = Some svc0 /\
        Forall passes (pre ++ take k (svc :: rest)) /\
        NoDup (ServiceConfig.Name <$> pre ++ take k (svc :: rest)) /\
        offence e0 (length pre + k)
          (ServiceConfig.Name <$> pre ++ take k (svc :: rest)) svc0).
    { intros e0 Ho. exists O, svc. simpl. by rewrite app_nil_r. }
    destruct (bool_decide (ServiceConfig.Name svc = "")) eqn:E1.
    { injection H as <- <-. apply bool_decide_eq_true in E1.
      apply Hhere. simpl. split; [lia | done]. }
    apply bool_decide_eq_false in E1.
    destruct (seen names (ServiceConfig.Name svc)) eqn:E2.
    { injection H as <- <-. apply Hhere. simpl.
      split; [done |]. split; [done |]. by apply Hseen. }
    assert (Hnew : ServiceConfig.Name svc ∉ ServiceConfig.Name <$> pre).
    { intros Hin. apply Hseen in Hin. congruence. }
    destruct (bool_decide (ServiceConfig.Backend svc = "")) eqn:E3.
    { injection H as <- <-. apply bool_decide_eq_true in E3.
      apply Hhere. simpl. by repeat split. }
    apply bool_decide_eq_false in E3.
    destruct (negb _ && negb _) eqn:E4.
    { injection H as <- <-. apply andb_true_iff in E4 as [Hh Hs].
      apply negb_true_iff in Hh, Hs. apply Hhere. simpl. by repeat split. }
    assert (Hscheme :
      strings.HasPrefix (ServiceConfig.Backend svc) "http://" = true \/
      strings.HasPrefix (ServiceConfig.Backend svc) "https://" = true).
    { destruct (strings.HasPrefix _ "http://"); [by left |].
      destruct (strings.HasPrefix _ "https://"); [by right | done]. }
    assert (Hrec : forall rest',
      (HealthCheckConfig.Enabled (ServiceConfig.HealthCheck svc) = true ->
       HealthCheckConfig.Path (ServiceConfig.HealthCheck svc) <> "") ->
      validateServices (S (length pre)) (<[ServiceConfig.Name svc := true]> names) rest
        = (rest', Some e) ->
      exists k svc0,
        (svc :: rest) !! k = Some svc0 /\
        Forall passes (pre ++ take k (svc :: rest)) /\
        NoDup (ServiceConfig.Name <$> pre ++ take k (svc :: rest)) /\
        offence e (length pre + k)
          (ServiceConfig.Name <$> pre ++ take k (svc :: rest)) svc0).
    { intros rest' Hpath Hrest.
      destruct (IH (pre ++ [svc]) (<[ServiceConfig.Name svc := true]> names) rest')
        as (k & svc0 & Hk & Hp & Hn & Ho).
      - intros n. rewrite seen_insert, fmap_app, elem_of_app, Hseen. simpl.
        rewrite list_elem_of_singleton. tauto.
      - apply Forall_app. split; [done |]. constructor; [| constructor].
        unfold passes, service_defect. intros [? | [? | [[? ?] | [? ?]]]];
          try done.
        + destruct Hscheme; congruence.
        + by apply Hpath.
      - rewrite fmap_app. apply NoDup_app. split; [done |]. split.
        + intros x Hx Hin. simpl in Hin. apply list_elem_of_singleton in Hin.
          by subst.
        + simpl. apply NoDup_singleton.
      - by rewrite length_app, Nat.add_1_r.
      - exists (S k), svc0. rewrite length_app in Ho. simpl in *.
        rewrite <- app_assoc in Hp, Hn, Ho. simpl in *.
        replace (length pre + S k)%nat with (length pre + 1 + k)%nat by lia.
        done. }
    destruct (HealthCheckConfig.Enabled (ServiceConfig.HealthCheck svc)) eqn:E5.
    + destruct (bool_decide (HealthCheckConfig.Path _ = "")) eqn:E6.
      { injection H as <- <-. apply bool_decide_eq_true in E6.
        apply Hhere. simpl. by repeat split. }
      apply bool_decide_eq_false in E6.
      destruct (validateServices (S (length pre)) _ rest) as [rest' e'] eqn:Hrest.
      injection H as <- ->. by eapply Hrec.
    + destruct (validateServices (S (length pre)) _ rest) as [rest' e'] eqn:Hrest.
      injection H as <- ->. by eapply Hrec.
Qed.

End ValidationErrors.

(** Every error of [Validate] is earned, and names the first offence.
    The auth-key error means the auth key is empty. Any other error
    means the auth key is there and the loop stopped at some service:
    every service before it passes all checks and their names differ,
    and the service itself fails exactly the check the error names,
    having passed the checks made before that one, in the order name,
    duplicate, backend, scheme, health-check path. The index in the
    missing-name error is the index of that service. *)
Theorem Validate_error_names_first_offence
    (c c' : config.Config) (e : config.error) :
  config.Validate c = (c', Some e) ->
  error_justified c e.
Proof.
  unfold config.Validate.
  destruct (bool_decide (config.AuthKey c = "")) eqn:Ha.
  { intros [= <- <-]. by apply bool_decide_eq_true in Ha. }
  apply bool_decide_eq_false in Ha.
  assert (Hsv : config.Services
            (if bool_decide (config.StateDir c = "")
             then config.withStateDir c "/data/tsnet" else c)
          = config.Services c) by (by destruct (bool_decide _)).
  rewrite Hsv.
  destruct (config.validateServices 0 ∅ (config.Services c)) as [svcs e'] eqn:Hv.
  destruct e' as [err|]; [| done]. intros [= <- <-].
  destruct (validateServices_error (config.Services c) [] ∅ svcs err)
    as (k & svc & Hk & Hp & Hn & Ho).
  { intros n. unfold config.seen. rewrite lookup_empty. simpl.
    split; [done |]. intros H. by apply elem_of_nil in H. }
  { constructor. }
  { constructor. }
  { exact Hv. }
  simpl in *.
  assert (Hstop : stopped_at (config.Services c) err) by (by exists k, svc).
  unfold error_justified.
  destruct err; try (by split). exfalso. exact Ho.
Qed.

(* ===================================================================== *)
(** * Start-up *)
(* ===================================================================== *)

Section Startup.

Implicit Types (w : World) (svc : config.ServiceConfig.t).

Variable env : nat -> manager.Provision.

(** One [AddService] of a free name, whether it goes through or not. *)
Lemma AddService_free_name svc (e : manager.Provision) w :
  wf (st w) ->
  manager.registry (st w) !! config.ServiceConfig.Name svc = None ->
  let w1 := AddService svc e w in
  wf (st w1) /\
  manager.mgr (st w1) = manager.mgr (st w) /\
  probers w1 = probers w /\
  (forall n l, manager.registry (st w) !! n = Some l ->
               manager.registry (st w1) !! n = Some l) /\
  (forall l s, manager.svcs (st w) !! l = Some s ->
               manager.svcs (st w1) !! l = Some s) /\
  (forall n, is_Some (manager.registry (st w1) !! n) ->
             is_Some (manager.registry (st w) !! n) \/
             (n = config.ServiceConfig.Name svc /\ provisioned e)) /\
  (provisioned e ->
   exists l,
     manager.registry (st w1) !! config.ServiceConfig.Name svc = Some l /\
     manager.svcs (st w1) !! l
       = Some (manager.mkService svc (Some (serverOf (manager.mgr (st w)) svc))
                 (Some (proxyOf svc)) true)).
Proof.
  intros Hwf Hfree w1. subst w1.
  pose proof (fresh_svc_None (st w)) as Hfresh.
  destruct (provisioned_dec e) as [Hprov | Hnot].
  - rewrite (AddService_provisioned_world svc e w Hwf Hfree Hprov).
    rewrite (AddService_provisioned svc e (st w) Hwf Hfree Hprov).
    cbv zeta. simpl.
    assert (Hreg : manager.registry
              (manager.mkState
                 (<[fresh (dom (manager.svcs (st w))) :=
                      manager.mkService svc (Some (serverOf (manager.mgr (st w)) svc))
                        (Some (proxyOf svc)) true]> (manager.svcs (st w)))
                 (<[manager.services (manager.mgr (st w)) :=
                      <[config.ServiceConfig.Name svc :=
                          fresh (dom (manager.svcs (st w)))]>
                        (manager.registry (st w))]> (manager.maps (st w)))
                 (manager.mgr (st w)))
              = <[config.ServiceConfig.Name svc := fresh (dom (manager.svcs (st w)))]>
                  (manager.registry (st w))).
    { unfold manager.registry at 1. simpl. by rewrite lookup_insert_eq. }
    rewrite Hreg.
    split; [unfold wf; simpl; rewrite lookup_insert_eq; eauto |].
    split; [done |]. split; [done |]. split.
    { intros n l Hl. rewrite lookup_insert_ne; [done | congruence]. }
    split.
    { intros l s Hl. rewrite lookup_insert_ne; [done | congruence]. }
    split.
    { intros n Hn.
      destruct (decide (config.ServiceConfig.Name svc = n)) as [<- | Hne];
        [by right | left]. by rewrite lookup_insert_ne in Hn. }
    intros _. eexists. rewrite !lookup_insert_eq. done.
  - rewrite (AddService_unprovisioned_world svc e w Hfree Hnot). simpl.
    assert (Hreg : manager.registry
              (manager.withSvcs (st w)
                 (<[fresh (dom (manager.svcs (st w))) := manager.NewService svc]>
                    (manager.svcs (st w))))
              = manager.registry (st w)) by done.
    rewrite Hreg.
    split; [done |]. split; [done |]. split; [done |]. split; [done |].
    split.
    { intros l s Hl. rewrite lookup_insert_ne; [done | congruence]. }
    split; [by left | done].
Qed.

Lemma addServices_spec (svcs : list config.ServiceConfig.t) (i : nat) w :
  wf (st w) ->
  NoDup (config.ServiceConfig.Name <$> svcs) ->
  Forall (fun svc => manager.registry (st w) !! config.ServiceConfig.Name svc = None)
    svcs ->
  let w' := main.addServices i env svcs w in
  wf (st w') /\
  manager.mgr (st w') = manager.mgr (st w) /\
  probers w' = probers w /\
  (forall n l, manager.registry (st w) !! n = Some l ->
               manager.registry (st w') !! n = Some l) /\
  (forall l s, manager.svcs (st w) !! l = Some s ->
               manager.svcs (st w') !! l = Some s) /\
  (forall n, is_Some (manager.registry (st w') !! n) ->
             is_Some (manager.registry (st w) !! n) \/
             exists k svc,
               svcs !! k = Some svc /\ config.ServiceConfig.Name svc = n /\
               provisioned (env (i + k)%nat)) /\
  (forall k svc,
     svcs !! k = Some svc -> provisioned (env (i + k)%nat) ->
     exists l,
       manager.registry (st w') !! config.ServiceConfig.Name svc = Some l /\
       manager.svcs (st w') !! l
         = Some (manager.mkService svc (Some (serverOf (manager.mgr (st w)) svc))
                   (Some (proxyOf svc)) true)).
Proof.
  revert i w. induction svcs as [|svc rest IH]; intros i w Hwf Hnd Hfree; simpl.
  - repeat split; try done. intros n Hn. by left.
  - rewrite fmap_cons in Hnd. apply NoDup_cons in Hnd as [Hnotin Hnd].
    apply Forall_cons in Hfree as [Hfree Hfrees].
    destruct (AddService_free_name svc (env i) w Hwf Hfree)
      as (Hwf1 & Hmgr1 & Hp1 & Hreg1 & Hobj1 & Hdom1 & Hnew1).
    set (w1 := AddService svc (env i) w) in *.
    destruct (IH (S i) w1 Hwf1 Hnd) as (Hwf' & Hmgr' & Hp' & Hreg' & Hobj' & Hdom' & Hnew').
    { apply Forall_forall. intros x Hx.
      destruct (manager.registry (st w1) !! config.ServiceConfig.Name x) eqn:E;
        [| done].
      destruct (Hdom1 (config.ServiceConfig.Name x)) as [[? Hs] | [Hn _]]; [eauto | |].
      - rewrite Forall_forall in Hfrees. specialize (Hfrees x Hx). congruence.
      - destruct Hnotin. rewrite <- Hn. apply list_elem_of_fmap. eauto. }
    split; [done |]. split; [congruence |]. split; [congruence |].
    split; [eauto |]. split; [eauto |]. split.
    + intros n Hn. destruct (Hdom' n Hn) as [H1 | (k & x & Hk & Hx & Hpr)].
      * destruct (Hdom1 n H1) as [? | [-> Hpr]]; [by left |].
        right. exists O, svc. rewrite Nat.add_0_r. done.
      * right. exists (S k), x. simpl.
        replace (i + S k)%nat with (S i + k)%nat by lia. done.
    + intros [|k] x Hk Hpr; simpl in Hk.
      * injection Hk as <-. rewrite Nat.add_0_r in Hpr.
        destruct (Hnew1 Hpr) as (l & Hl & Hs). exists l. eauto.
      * replace (i + S k)%nat with (S i + k)%nat in Hpr by lia.
        destruct (Hnew' k x Hk Hpr) as (l & Hl & Hs).
        exists l. by rewrite <- Hmgr1.
Qed.

Lemma addServices_panicking (svcs : list config.ServiceConfig.t) (i : nat) w :
  panicking (main.addServices i env svcs w) = panicking w.
Proof.
  revert i w. induction svcs as [|svc rest IH]; intros i w; simpl; [done |].
  by rewrite IH, AddService_panicking.
Qed.

Lemma addServices_reachable (svcs : list config.ServiceConfig.t) (i : nat) w0 w :
  reachable w0 w -> reachable w0 (main.addServices i env svcs w).
Proof.
  revert i w. induction svcs as [|svc rest IH]; intros i w Hr; simpl; [done |].
  apply IH. eapply reachable_step; [exact Hr | apply step_AddService].
Qed.

Lemma start_reachable (cfg : config.Config) :
  reachable
    (initial (config.AuthKey cfg) (config.StateDir cfg)
       (config.APIKey cfg) (config.Tailnet cfg))
    (main.start cfg env).
Proof.
  unfold main.start. eapply reachable_step; [| apply step_CheckerStart].
  apply addServices_reachable, reachable_refl.
Qed.

(** The services the probers of a list of entries check, when no two
    entries lead to one object. *)
Lemma probers_of_entries_NoDup (s : manager.State) (entries : list (string * loc)) :
  NoDup entries.*2 ->
  NoDup (health.svc <$> omap (fun '(_, l) => proberFor s l) entries) /\
  (forall p, p ∈ omap (fun '(_, l) => proberFor s l) entries ->
             health.svc p ∈ entries.*2).
Proof.
  induction entries as [|[n l] rest IH]; intros Hnd; simpl.
  - split; [constructor | by intros p H%elem_of_nil].
  - apply NoDup_cons in Hnd as [Hl Hnd]. destruct (IH Hnd) as [IH1 IH2].
    destruct (proberFor s l) as [p0|] eqn:E; simpl.
    + assert (Hp0 : health.svc p0 = l).
      { by apply proberFor_inv in E as (svc & _ & _ & _ & ->). }
      split.
      * constructor; [| done]. intros (p & Hp & Hin)%list_elem_of_fmap.
        apply Hl. rewrite <- Hp0, Hp. by apply IH2.
      * intros p [-> | Hin]%elem_of_cons; [rewrite Hp0; by left | right; by apply IH2].
    + split; [done |]. intros p Hin. right. by apply IH2.
Qed.

End Startup.

Section StartupTheorem.

Implicit Types (w : World).

Lemma CheckerStart_st w :
  wf (st w) ->
  manager.registry (st (CheckerStart w)) = manager.registry (st w) /\
  manager.svcs (st (CheckerStart w)) = manager.svcs (st w).
Proof.
  intros Hwf. unfold CheckerStart, exec, health.Start.
  rewrite foldl_perform_st, GetAllServices_eq. simpl. split; [| done].
  apply registry_other_map. apply lookup_insert_ne.
  by apply fresh_ref_not_registry.
Qed.

Lemma values_NoDup (m : gmap string loc) :
  (forall n1 n2 l, m !! n1 = Some l -> m !! n2 = Some l -> n1 = n2) ->
  NoDup (map_to_list m).*2.
Proof.
  intros Hinj.
  assert (Hin : forall n l, (n, l) ∈ map_to_list m -> m !! n = Some l).
  { intros n l. apply elem_of_map_to_list. }
  pose proof (NoDup_fst_map_to_list m) as Hnd.
  induction (map_to_list m) as [|[n l] rest IH]; simpl in *; [constructor |].
  apply NoDup_cons in Hnd as [Hn Hnd].
  constructor.
  - intros ([n' l'] & Hl & Hin')%list_elem_of_fmap. simpl in Hl. subst l'.
    apply Hn. apply list_elem_of_fmap. exists (n', l). split; [| done]. simpl.
    apply (Hinj n n' l); apply Hin; [by left | by right].
  - apply IH; [| done]. intros n' l' Hin'. apply Hin. by right.
Qed.

End StartupTheorem.

(** [main] from the parsed file to the started checker, in full. *)
Lemma main_run_spec
    (parsed : config.Config) (env : nat -> manager.Provision) (w : World) :
  main.run parsed env = Some w ->
  exists cfg,
    config.Validate parsed = (cfg, None) /\
    (forall i svc,
       config.Services cfg !! i = Some svc ->
       (is_Some (manager.registry (st w) !! config.ServiceConfig.Name svc)
        <-> provisioned (env i))) /\
    (forall name,
       is_Some (manager.registry (st w) !! name) ->
       name ∈ config.ServiceConfig.Name <$> config.Services cfg) /\
    (forall i svc,
       config.Services cfg !! i = Some svc ->
       provisioned (env i) ->
       exists l s,
         manager.registry (st w) !! config.ServiceConfig.Name svc = Some l /\
         manager.svcs (st w) !! l = Some s /\
         manager.Config s = svc /\
         manager.IsHealthy s = true /\
         let hc := config.ServiceConfig.HealthCheck svc in
         (config.HealthCheckConfig.Enabled hc = true ->
          0 < config.HealthCheckConfig.Interval hc ->
          health.mkProber l hc 0 ∈ probers w /\ (l ∉ panicking w)) /\
         (config.HealthCheckConfig.Enabled hc = true ->
          config.HealthCheckConfig.Interval hc < 0 ->
          probersOf l w = [] /\ l ∈ panicking w) /\
         (config.HealthCheckConfig.Enabled hc = false ->
          probersOf l w = [] /\ (l ∉ panicking w))) /\
    NoDup (health.svc <$> probers w) /\
    (forall p,
       p ∈ probers w ->
       health.failureCount p = 0 /\
       config.HealthCheckConfig.Enabled (health.cfg p) = true /\
       config.HealthCheckConfig.Path (health.cfg p) <> "" /\
       0 < config.HealthCheckConfig.Interval (health.cfg p) /\
       config.HealthCheckConfig.Timeout (health.cfg p) <> 0 /\
       config.HealthCheckConfig.UnhealthyThreshold (health.cfg p) <> 0) /\
    (crashes w <->
     exists i svc,
       config.Services cfg !! i = Some svc /\
       provisioned (env i) /\
       config.HealthCheckConfig.Enabled (config.ServiceConfig.HealthCheck svc) = true /\
       config.HealthCheckConfig.Interval (config.ServiceConfig.HealthCheck svc) < 0).
Proof.
  unfold main.run. intros H.
  destruct (config.Validate parsed) as [cfg [err|]] eqn:Hv; [done |].
  injection H as <-. exists cfg. split; [done |].
  apply Validate_accepted in Hv as (Ha & svcs & Hvs & ->). simpl.
  destruct (validateServices_well_formed _ _ _ _ Hvs) as (Hall & Hnd & _).
  unfold main.start. simpl.
  set (w0 := initial _ _ _ _).
  assert (Hwf0 : wf (st w0)).
  { unfold wf. simpl. rewrite lookup_singleton_eq. eauto. }
  assert (Hreg0 : manager.registry (st w0) = ∅).
  { unfold manager.registry. simpl. by rewrite lookup_singleton_eq. }
  destruct (addServices_spec env svcs 0 w0 Hwf0 Hnd)
    as (Hwf1 & Hmgr1 & Hp1 & _ & _ & Hdom1 & Hnew1).
  { apply Forall_forall. intros x _. by rewrite Hreg0, lookup_empty. }
  pose proof (addServices_panicking env svcs 0 w0) as Hk1.
  set (w1 := main.addServices 0 env svcs w0) in *.
  destruct (CheckerStart_st w1 Hwf1) as [Hreg Hsvcs].
  rewrite Hreg, Hsvcs.
  assert (Hreach : reachable w0 w1).
  { apply addServices_reachable, reachable_refl. }
  pose proof (registry_sound_reachable _ w1 (registry_sound_initial _ _ _ _) Hreach)
    as [_ Hsound].
  assert (Hinj : forall n1 n2 l,
            manager.registry (st w1) !! n1 = Some l ->
            manager.registry (st w1) !! n2 = Some l -> n1 = n2).
  { intros n1 n2 l H1 H2.
    destruct (Hsound n1 l H1) as (s1 & Hs1 & <- & _).
    destruct (Hsound n2 l H2) as (s2 & Hs2 & <- & _). congruence. }
  assert (Hprobers : probers (CheckerStart w1)
            = omap (fun '(_, l) => proberFor (st w1) l)
                (map_to_list (manager.registry (st w1)))).
  { rewrite CheckerStart_probers, Hp1. done. }
  assert (Hpanicking : panicking (CheckerStart w1)
            = omap (fun '(_, l) => panicFor (st w1) l)
                (map_to_list (manager.registry (st w1)))).
  { destruct (CheckerStart_goroutines w1) as [_ ->]. by rewrite Hk1. }
  (* a registered name is the name of a configured, provisioned service *)
  assert (Hfrom : forall n,
            is_Some (manager.registry (st w1) !! n) ->
            exists k svc,
              svcs !! k = Some svc /\ config.ServiceConfig.Name svc = n /\
              provisioned (env k)).
  { intros n Hn. destruct (Hdom1 n Hn) as [[? Hs] | H].
    - by rewrite Hreg0, lookup_empty in Hs.
    - exact H. }
  (* the names of the configured services identify them *)
  assert (Hsame : forall i j x y,
            svcs !! i = Some x -> svcs !! j = Some y ->
            config.ServiceConfig.Name x = config.ServiceConfig.Name y -> i = j).
  { intros i j x y Hi Hj Hxy.
    eapply NoDup_lookup; [exact Hnd | |];
      rewrite list_lookup_fmap; [by rewrite Hi | by rewrite Hj, Hxy]. }
  (* no prober and no panic for a service that was given none *)
  assert (Hnoprober : forall l,
            proberFor (st w1) l = None -> probersOf l (CheckerStart w1) = []).
  { intros l Hnone. unfold probersOf. rewrite Hprobers.
    match goal with |- ?f = [] => destruct f as [|p ps] eqn:Hf; [done |] end.
    assert (Hp : p ∈ p :: ps) by (by left). rewrite <- Hf in Hp.
    apply list_elem_of_filter in Hp as [Hsvc Hp]. exfalso.
    apply list_elem_of_omap in Hp as ([n l'] & Hin & Hfor).
    pose proof Hfor as (svc' & _ & _ & _ & ->)%proberFor_inv.
    simpl in Hsvc. subst l'. congruence. }
  assert (Hnopanic : forall l,
            panicFor (st w1) l = None -> l ∉ panicking (CheckerStart w1)).
  { intros l Hnone Hin. rewrite Hpanicking in Hin.
    apply list_elem_of_omap in Hin as ([n l'] & Hin & Hfor).
    pose proof Hfor as [-> _]%panicFor_inv. congruence. }
  split.
  { intros i svc Hi. split.
    - intros Hn. destruct (Hfrom _ Hn) as (k & x & Hk & Hx & Hpr).
      by rewrite (Hsame i k svc x Hi Hk).
    - intros Hpr. destruct (Hnew1 i svc Hi Hpr) as (l & Hl & _). eauto. }
  split.
  { intros name Hn. destruct (Hfrom _ Hn) as (k & x & Hk & <- & _).
    apply list_elem_of_fmap. exists x. split; [done |].
    by eapply list_elem_of_lookup_2. }
  split.
  { intros i svc Hi Hpr. destruct (Hnew1 i svc Hi Hpr) as (l & Hl & Hs).
    exists l. eexists. split; [done |]. split; [exact Hs |].
    split; [done |]. split; [done |]. cbv zeta.
    assert (Hin : (config.ServiceConfig.Name svc, l)
                  ∈ map_to_list (manager.registry (st w1)))
      by (by apply elem_of_map_to_list).
    split; [| split].
    - intros He Hpos. split.
      + rewrite Hprobers. apply list_elem_of_omap.
        exists (config.ServiceConfig.Name svc, l). split; [done |].
        by rewrite (proberFor_Some _ _ _ Hs).
      + apply Hnopanic. unfold panicFor, time.NewTicker. rewrite Hs. simpl.
        rewrite He.
        by destruct (Z.leb_spec
                       (config.HealthCheckConfig.Interval
                          (config.ServiceConfig.HealthCheck svc)) 0); [lia |].
    - intros He Hneg. split.
      + apply Hnoprober. unfold proberFor, time.NewTicker. rewrite Hs. simpl.
        rewrite He.
        by destruct (Z.leb_spec
                       (config.HealthCheckConfig.Interval
                          (config.ServiceConfig.HealthCheck svc)) 0); [| lia].
      + rewrite Hpanicking. apply list_elem_of_omap.
        exists (config.ServiceConfig.Name svc, l). split; [done |].
        apply (panicFor_Some _ _ _ Hs); simpl; [done | lia].
    - intros He. split.
      + apply Hnoprober. unfold proberFor. rewrite Hs. simpl. by rewrite He.
      + apply Hnopanic. unfold panicFor. rewrite Hs. simpl. by rewrite He. }
  split.
  { rewrite Hprobers. apply probers_of_entries_NoDup. by apply values_NoDup. }
  split.
  { intros p Hp. rewrite Hprobers in Hp.
    apply list_elem_of_omap in Hp as ([n l] & Hin & Hfor).
    apply elem_of_map_to_list in Hin.
    destruct (Hfrom n) as (k & svc & Hk & <- & Hpr); [eauto |].
    destruct (Hnew1 k svc Hk Hpr) as (l' & Hl' & Hs).
    assert (l' = l) as -> by congruence.
    apply proberFor_inv in Hfor as (svc' & Hs' & He & Hi & ->).
    rewrite Hs in Hs'. injection Hs' as <-. simpl in *.
    rewrite Forall_forall in Hall.
    destruct (Hall svc) as (_ & _ & Hhc); [by eapply list_elem_of_lookup_2 |].
    destruct (Hhc He) as (? & ? & ? & ?). done. }
  unfold crashes. rewrite Hpanicking. split.
  - intros [l0 Hin].
    apply list_elem_of_omap in Hin as ([n l] & Hin & Hfor).
    apply elem_of_map_to_list in Hin.
    destruct (Hfrom n) as (k & svc & Hk & <- & Hpr); [eauto |].
    destruct (Hnew1 k svc Hk Hpr) as (l' & Hl' & Hs).
    assert (l' = l) as -> by congruence.
    apply panicFor_inv in Hfor as (_ & svc' & Hs' & He & Hi).
    rewrite Hs in Hs'. injection Hs' as <-. simpl in *.
    exists k, svc. split; [done |]. split; [done |]. split; [done |].
    rewrite Forall_forall in Hall.
    destruct (Hall svc) as (_ & _ & Hhc); [by eapply list_elem_of_lookup_2 |].
    destruct (Hhc He) as (_ & Hnz & _). lia.
  - intros (i & svc & Hi & Hpr & He & Hneg).
    destruct (Hnew1 i svc Hi Hpr) as (l & Hl & Hs).
    exists l. apply list_elem_of_omap.
    exists (config.ServiceConfig.Name svc, l).
    split; [by apply elem_of_map_to_list |].
    apply (panicFor_Some _ _ _ Hs); simpl; [done | lia].
Qed.

(** What is running once [main] has started. [main] goes on only when
    the parsed configuration is accepted. Then, of the configured
    services, exactly those whose provisioning went through are
    registered, and nothing else is; each of them is healthy and holds
    its configuration. For each with an enabled health check a goroutine
    was launched: with an interval above zero it is a prober with a
    failure count of 0 and the settings of that service; with an
    interval below zero, which [Validate] lets through, it is no prober
    but a goroutine whose [time.NewTicker] panics. A service without a
    health check has neither, and no service has two probers. Every
    prober runs with a path, an interval above zero, and a timeout and a
    threshold that are not zero. And the process is about to end in that
    panic exactly when a provisioned service has its health check
    enabled with an interval below zero. *)
Theorem start_registers_and_probes
    (parsed : config.Config) (env : nat -> manager.Provision) (w : World) :
  main.run parsed env = Some w ->
  exists cfg,
    config.Validate parsed = (cfg, None) /\
    (forall i svc,
       config.Services cfg !! i = Some svc ->
       (is_Some (manager.registry (st w) !! config.ServiceConfig.Name svc)
        <-> provisioned (env i))) /\
    (forall name,
       is_Some (manager.registry (st w) !! name) ->
       name ∈ config.ServiceConfig.Name <$> config.Services cfg) /\
    (forall i svc,
       config.Services cfg !! i = Some svc ->
       provisioned (env i) ->
       exists l s,
         manager.registry (st w) !! config.ServiceConfig.Name svc = Some l /\
         manager.svcs (st w) !! l = Some s /\
         manager.Config s = svc /\
         manager.IsHealthy s = true /\
         let hc := config.ServiceConfig.HealthCheck svc in
         (config.HealthCheckConfig.Enabled hc = true ->
          0 < config.HealthCheckConfig.Interval hc ->
          health.mkProber l hc 0 ∈ probers w /\ (l ∉ panicking w)) /\
         (config.HealthCheckConfig.Enabled hc = true ->
          config.HealthCheckConfig.Interval hc < 0 ->
          probersOf l w = [] /\ l ∈ panicking w) /\
         (config.HealthCheckConfig.Enabled hc = false ->
          probersOf l w = [] /\ (l ∉ panicking w))) /\
    NoDup (health.svc <$> probers w) /\
    (forall p,
       p ∈ probers w ->
       health.failureCount p = 0 /\
       config.HealthCheckConfig.Enabled (health.cfg p) = true /\
       config.HealthCheckConfig.Path (health.cfg p) <> "" /\
       0 < config.HealthCheckConfig.Interval (health.cfg p) /\
       config.HealthCheckConfig.Timeout (health.cfg p) <> 0 /\
       config.HealthCheckConfig.UnhealthyThreshold (health.cfg p) <> 0) /\
    (crashes w <->
     exists i svc,
       config.Services cfg !! i = Some svc /\
       provisioned (env i) /\
       config.HealthCheckConfig.Enabled (config.ServiceConfig.HealthCheck svc) = true /\
       config.HealthCheckConfig.Interval (config.ServiceConfig.HealthCheck svc) < 0).
Proof. exact (main_run_spec parsed env w). Qed.

(* ===================================================================== *)
(** * The REST API *)
(* ===================================================================== *)

Section Paths.

Lemma Split_nonempty (s : string) : strings.Split s ui.slash <> [].
Proof.
  induction s as [|c s IH]; simpl; [done |].
  destruct (Ascii.eqb c ui.slash); [done |].
  by destruct (strings.Split s ui.slash).
Qed.

Lemma Split_length (s : string) :
  length (strings.Split s ui.slash) = S (slashes s).
Proof.
  induction s as [|c s IH]; simpl; [done |].
  destruct (Ascii.eqb c ui.slash); simpl; [by rewrite IH |].
  destruct (strings.Split s ui.slash); simpl in *; [done | exact IH].
Qed.

Lemma Split_no_slash (s : string) :
  no_slash s = true -> strings.Split s ui.slash = [s].
Proof.
  induction s as [|c s IH]; simpl; [done |].
  destruct (Ascii.eqb c ui.slash); simpl; [done |].
  intros H. by rewrite IH.
Qed.

(** A piece without "/" followed by "/" is the first part. *)
Lemma Split_piece (piece rest : string) :
  no_slash piece = true ->
  strings.Split (piece +:+ String ui.slash rest) ui.slash
  = piece :: strings.Split rest ui.slash.
Proof.
  induction piece as [|c piece IH]; simpl.
  - intros _. reflexivity.
  - destruct (Ascii.eqb c ui.slash); simpl; [done |].
    intros H. by rewrite IH.
Qed.

Lemma append_assoc (x y z : string) : (x +:+ y) +:+ z = x +:+ (y +:+ z).
Proof.
  induction x as [|ch x IH]; [done |].
  change (String ch ((x +:+ y) +:+ z) = String ch (x +:+ (y +:+ z))).
  by f_equal.
Qed.

Lemma append_cons_assoc (x : string) (ch : Ascii.ascii) (y z : string) :
  (x +:+ String ch y) +:+ z = x +:+ String ch (y +:+ z).
Proof. by rewrite append_assoc. Qed.

Lemma Split_head (piece : string) (pieces : list string) (s : string) :
  strings.Split s ui.slash = piece :: pieces -> no_slash piece = true.
Proof.
  revert piece pieces. induction s as [|c s IH]; intros piece pieces; simpl.
  - by intros [= <- <-].
  - destruct (Ascii.eqb c ui.slash) eqn:E; [by intros [= <- <-] |].
    destruct (strings.Split s ui.slash) as [|p ps] eqn:Hs.
    + intros [= <- <-]. simpl. by rewrite E.
    + intros [= <- <-]. simpl. rewrite E. simpl. by eapply IH.
Qed.

Lemma Split_parts (s : string) :
  Forall (fun piece => no_slash piece = true) (strings.Split s ui.slash).
Proof.
  induction s as [|c s IH]; simpl; [by repeat constructor |].
  destruct (Ascii.eqb c ui.slash) eqn:E; [by constructor |].
  destruct (strings.Split s ui.slash) as [|p ps]; [| inversion IH; subst].
  - repeat constructor. simpl. by rewrite E.
  - constructor; [| done]. simpl. by rewrite E.
Qed.

End Paths.

(** Which service a path addresses. The handlers split the path at "/"
    and take the fourth part. A path with fewer than three "/" has no
    name; otherwise the name is the text between the third "/" and the
    next one or the end, so it never holds a "/", anything after a
    fourth "/" is ignored, and a path that ends right after the third
    "/" addresses the empty name. *)
Theorem name_is_fourth_part_of_path (a b c name rest urlPath : string) :
  (ui.nameInPath urlPath = None <-> (slashes urlPath < 3)%nat) /\
  (forall n, ui.nameInPath urlPath = Some n -> no_slash n = true) /\
  (no_slash a = true -> no_slash b = true -> no_slash c = true ->
   no_slash name = true ->
   let prefix :=
     a +:+ String ui.slash (b +:+ String ui.slash (c +:+ String ui.slash name)) in
   ui.nameInPath prefix = Some name /\
   ui.nameInPath (prefix +:+ String ui.slash rest) = Some name).
Proof.
  unfold ui.nameInPath. split; [| split].
  - pose proof (Split_length urlPath) as Hlen.
    destruct (Nat.ltb_spec (length (strings.Split urlPath ui.slash)) 4) as [Hlt | Hge].
    + split; [lia | done].
    + split; [| lia]. intros Hnone. apply lookup_ge_None in Hnone. lia.

  - intros n. destruct (_ <? _)%nat; [done |]. intros Hn.
    pose proof (Split_parts urlPath) as Hall. rewrite Forall_forall in Hall.
    apply Hall. by eapply list_elem_of_lookup_2.
  - intros Ha Hb Hc Hn. split.
    + rewrite !Split_piece, Split_no_slash by done. done.
    + rewrite !append_cons_assoc.
      rewrite !Split_piece by done. simpl.
      by destruct (strings.Split rest ui.slash).
Qed.

Section API.

Implicit Types (a : ui.App) (w : World) (s : ui.Server).

Variable t : ui.Time.

Lemma nameInPath_services (name : string) :
  no_slash name = true ->
  ui.nameInPath ("/api/services/" +:+ name) = Some name.
Proof.
  intros Hn. unfold ui.nameInPath.
  change ("/api/services/" +:+ name)
    with ("" +:+ String ui.slash ("api" +:+ String ui.slash
            ("services" +:+ String ui.slash name))).
  by rewrite !Split_piece, Split_no_slash.
Qed.

Lemma AddService_error_state cfg env (s : manager.State) err :
  (manager.AddService cfg env s).1.2 = Some err ->
  manager.registry (manager.AddService cfg env s).1.1 = manager.registry s /\
  manager.maps (manager.AddService cfg env s).1.1 = manager.maps s /\
  Forall (fun e => is_go e = false) (manager.AddService cfg env s).2.
Proof.
  unfold manager.AddService.
  destruct (manager.registry s !! _); [by repeat constructor |].
  destruct env as [[?|] [?|] [?|] [?|]]; simpl; intros [=];
    by repeat constructor.
Qed.

Lemma AddService_success_inv cfg env (s : manager.State) :
  (manager.AddService cfg env s).1.2 = None ->
  manager.registry s !! config.ServiceConfig.Name cfg = None /\ provisioned env.
Proof.
  unfold manager.AddService.
  destruct (manager.registry s !! _); [done |].
  destruct env as [[?|] [?|] [?|] [?|]]; simpl; intros [=]. by repeat split.
Qed.

(** The world after an [AddService] that returned an error. *)
Lemma AddService_error_world cfg env w err :
  (manager.AddService cfg env (st w)).1.2 = Some err ->
  manager.registry (st (AddService cfg env w)) = manager.registry (st w) /\
  servers (AddService cfg env w) = servers w.
Proof.
  intros Herr.
  destruct (AddService_error_state cfg env (st w) err Herr) as (Hreg & _ & Hgo).
  split; [by rewrite AddService_st |].
  unfold AddService, exec.
  destruct (manager.AddService cfg env (st w)) as [[s' e] evs]. simpl in *.
  rewrite foldl_perform_servers; [done |]. by apply not_go_not_serve.
Qed.

Lemma GetAllStatuses_state (s : manager.State) :
  (health.GetAllStatuses s).1 = (manager.GetAllServices s).1.
Proof.
  unfold health.GetAllStatuses. by destruct (manager.GetAllServices s).
Qed.

Lemma enter_app {X} (s : ui.Server) (r : ui.App * (ui.Response + X)) h :
  ui.app (ui.enter s r h) = r.1.
Proof. unfold ui.enter. by destruct r.2. Qed.

Lemma enter_saved {X} (s : ui.Server) (r : ui.App * (ui.Response + X)) h :
  ui.saved (ui.enter s r h) = ui.saved s.
Proof. unfold ui.enter. by destruct r.2. Qed.

Lemma enter_handlers {X} (s : ui.Server) (r : ui.App * (ui.Response + X)) h :
  ui.handlers (ui.enter s r h)
  = ui.handlers s ++ match r.2 with inl _ => [] | inr x => [h x] end.
Proof. unfold ui.enter. destruct r.2; simpl; [by rewrite app_nil_r | done]. Qed.

(** How [AddService] comes back from the manager. *)
Lemma AddService_call_cases method body env a :
  let r := ui.AddService_call t method body env a in
  (r.1 = a /\ exists reply, r.2 = inl reply) \/
  (exists svcCfg err reply,
     (manager.AddService svcCfg env (st (ui.world a))).1.2 = Some err /\
     r.1 = ui.mkApp (AddService svcCfg env (ui.world a)) (ui.cfg a) /\
     r.2 = inl reply) \/
  (exists svcCfg,
     (manager.AddService svcCfg env (st (ui.world a))).1.2 = None /\
     r.1 = ui.mkApp (AddService svcCfg env (ui.world a)) (ui.cfg a) /\
     r.2 = inr svcCfg).
Proof.
  cbv zeta. unfold ui.AddService_call.
  destruct (negb _); [left; eauto |].
  destruct body as [req | err]; [| left; eauto].
  destruct (ui.toServiceConfig t req) as [svcCfg | reply]; [| left; eauto].
  destruct ((manager.AddService svcCfg env (st (ui.world a))).1.2) as [err|] eqn:E.
  - right. left. exists svcCfg, err. eauto.
  - right. right. exists svcCfg. eauto.
Qed.

(** How [DeleteService] comes back from the manager. *)
Lemma DeleteService_call_cases method urlPath o a :
  let r := ui.DeleteService_call method urlPath o a in
  (r.1 = a /\ exists reply, r.2 = inl reply) \/
  (exists name l,
     ui.nameInPath urlPath = Some name /\
     manager.registry (st (ui.world a)) !! name = Some l /\
     r.1 = ui.mkApp (RemoveService name o (ui.world a)) (ui.cfg a) /\
     r.2 = inr name).
Proof.
  cbv zeta. unfold ui.DeleteService_call.
  destruct (negb _); [left; eauto |].
  destruct (ui.nameInPath urlPath) as [name|]; [| left; eauto].
  destruct (manager.registry (st (ui.world a)) !! name) as [l|] eqn:Hl.
  - assert (E : (manager.RemoveService name o (st (ui.world a))).1.2 = None)
      by (unfold manager.RemoveService; by rewrite Hl).
    rewrite E. right. exists name, l. eauto.
  - assert (E : manager.RemoveService name o (st (ui.world a))
                = (st (ui.world a), Some (manager.ErrNotFound name), []))
      by (unfold manager.RemoveService; by rewrite Hl).
    unfold RemoveService. rewrite E. simpl.
    left. split; [by destruct a as [[] ?] | eauto].
Qed.

(** A step of a handler on [h.config] leaves the process alone. *)
Lemma advance_world i (s s' : ui.Server) :
  ui.advance i s = Some s' -> ui.world (ui.app s') = ui.world (ui.app s).
Proof.
  unfold ui.advance. destruct (ui.handlers s !! i) as [h|]; [| done].
  intros [= <-]. by destruct h.
Qed.

(** What a step of the API is to the process: nothing, the copy of the
    map a reader takes, a call of the manager, or a step of a prober. *)
Lemma api_step_world (s s' : ui.Server) :
  ui.step t s s' ->
  let w := ui.world (ui.app s) in
  let w' := ui.world (ui.app s') in
  w' = w \/
  w' = withSt w (manager.GetAllServices (st w)).1 \/
  (exists svcCfg env, w' = AddService svcCfg env w) \/
  (exists name o, w' = RemoveService name o w) \/
  (exists i o, proberTick i o w = Some w') \/
  (exists i,
     (ctx_done w = true \/ stopCh_closed w = true) /\
     (i < length (probers w))%nat /\ w' = proberExit i w).
Proof.
  intros Hstep. cbv zeta.
  destruct Hstep as [method s | method body env s | method urlPath o s
                    | method s | i s s' Hadv | s i o w' Htick | s i Hsig Hi].
  - cbn [ui.app]. unfold ui.ListServices. destruct (negb _); [by left |].
    destruct (manager.GetAllServices (st (ui.world (ui.app s)))) as [st1 r].
    right. by left.
  - rewrite enter_app.
    destruct (AddService_call_cases method body env (ui.app s))
      as [[-> _] | [(svcCfg & err & reply & _ & -> & _) | (svcCfg & _ & -> & _)]].
    + by left.
    + right. right. left. by exists svcCfg, env.
    + right. right. left. by exists svcCfg, env.
  - rewrite enter_app.
    destruct (DeleteService_call_cases method urlPath o (ui.app s))
      as [[-> _] | (name & l & _ & _ & -> & _)].
    + by left.
    + right. right. right. left. by exists name, o.
  - cbn [ui.app]. unfold ui.HealthStatus. destruct (negb _); [by left |].
    pose proof (GetAllStatuses_state (st (ui.world (ui.app s)))) as E.
    destruct (health.GetAllStatuses (st (ui.world (ui.app s)))) as [st1 statuses].
    simpl in E. subst st1. right. by left.
  - left. by eapply advance_world.
  - do 4 right. left. by exists i, o.
  - do 5 right. by exists i.
Qed.

(** Every step of the API is a step of the process, or none. *)
Lemma api_step_reachable w0 (s s' : ui.Server) :
  ui.step t s s' ->
  reachable w0 (ui.world (ui.app s)) -> reachable w0 (ui.world (ui.app s')).
Proof.
  intros Hstep Hr.
  destruct (api_step_world s s' Hstep)
    as [-> | [-> | [(svcCfg & env & ->) | [(name & o & ->) | [(i & o & Htick)
       | (i & Hsig & Hi & ->)]]]]].
  - done.
  - eapply reachable_step; [exact Hr | apply step_GetAllServices].
  - eapply reachable_step; [exact Hr | apply step_AddService].
  - eapply reachable_step; [exact Hr | apply step_RemoveService].
  - eapply reachable_step; [exact Hr | by eapply step_tick].
  - eapply reachable_step; [exact Hr | by apply step_exit].
Qed.

Lemma serving_reachable w0 (s0 s : ui.Server) :
  ui.serving t s0 s ->
  reachable w0 (ui.world (ui.app s0)) -> reachable w0 (ui.world (ui.app s)).
Proof.
  induction 1 as [|s s' _ IH Hstep]; [done |].
  intros Hr. eapply api_step_reachable; [exact Hstep | by apply IH].
Qed.

Lemma serial_serving (s0 s : ui.Server) : ui.serial t s0 s -> ui.serving t s0 s.
Proof.
  induction 1 as [|s s' _ IH Hstep _]; [apply ui.serving_refl |].
  by eapply ui.serving_step.
Qed.

Lemma serving_trans (s0 s1 s2 : ui.Server) :
  ui.serving t s0 s1 -> ui.serving t s1 s2 -> ui.serving t s0 s2.
Proof.
  intros H1. induction 1 as [|s s' _ IH Hstep]; [done |].
  by eapply ui.serving_step.
Qed.

(** No step of the API launches a goroutine for a health check. *)
Lemma api_step_panicking (s s' : ui.Server) :
  ui.step t s s' ->
  panicking (ui.world (ui.app s')) = panicking (ui.world (ui.app s)).
Proof.
  intros Hstep.
  destruct (api_step_world s s' Hstep)
    as [-> | [-> | [(svcCfg & env & ->) | [(name & o & ->) | [(i & o & Htick)
       | (i & Hsig & Hi & ->)]]]]].
  - done.
  - done.
  - apply AddService_panicking.
  - apply RemoveService_panicking.
  - by apply proberTick_Some in Htick as (q & svc & fc & svc' & _ & _ & _ & ->).
  - done.
Qed.

Lemma serving_panicking (s0 s : ui.Server) :
  ui.serving t s0 s ->
  panicking (ui.world (ui.app s)) = panicking (ui.world (ui.app s0)).
Proof.
  induction 1 as [|s s' _ IH Hstep]; [done |].
  by rewrite (api_step_panicking s s' Hstep).
Qed.

(** The handler [AddService] run alone is its call of the manager and,
    when that went through, its three steps on [h.config] one after the
    other. *)
Lemma AddService_in_steps method body env (s : ui.Server) :
  let r := ui.AddService t method body env (ui.app s) in
  let n := length (ui.handlers s) in
  let s1 := ui.enter s (ui.AddService_call t method body env (ui.app s)) ui.Appending in
  match (ui.AddService_call t method body env (ui.app s)).2 with
  | inl reply =>
    s1 = ui.mkServer r.1.1 (ui.handlers s) (ui.saved s) /\ r.1.2 = reply /\ r.2 = []
  | inr _ =>
    exists s2 s3,
      ui.advance n s1 = Some s2 /\ ui.advance n s2 = Some s3 /\
      ui.advance n s3
      = Some (ui.mkServer r.1.1 (ui.handlers s) (ui.saved s ++ r.2))
  end.
Proof.
  cbv zeta. unfold ui.enter, ui.AddService_call, ui.AddService.
  destruct (negb _); [done |].
  destruct body as [req | err]; [| done].
  destruct (ui.toServiceConfig t req) as [svcCfg | reply]; [| done].
  destruct ((manager.AddService svcCfg env (st (ui.world (ui.app s)))).1.2);
    [done |].
  cbn [fst snd]. unfold ui.advance. cbn [ui.handlers ui.app ui.saved].
  rewrite list_lookup_middle by done.
  eexists. eexists. split; [done |].
  cbn [ui.handlers ui.app ui.saved ui.cfg ui.world].
  rewrite insert_app_r_alt, Nat.sub_diag by done. cbn [insert list_insert].
  rewrite list_lookup_middle by done.
  split; [done |].
  cbn [ui.handlers ui.app ui.saved ui.cfg ui.world].
  rewrite insert_app_r_alt, Nat.sub_diag by done. cbn [insert list_insert].
  rewrite list_lookup_middle by done.
  cbn [ui.handlers ui.app ui.saved ui.cfg ui.world].
  by rewrite delete_middle, app_nil_r.
Qed.

(** The same for [DeleteService]. *)
Lemma DeleteService_in_steps method urlPath o (s : ui.Server) :
  let r := ui.DeleteService method urlPath o (ui.app s) in
  let n := length (ui.handlers s) in
  let s1 := ui.enter s (ui.DeleteService_call method urlPath o (ui.app s)) ui.Filtering in
  match (ui.DeleteService_call method urlPath o (ui.app s)).2 with
  | inl reply =>
    s1 = ui.mkServer r.1.1 (ui.handlers s) (ui.saved s) /\ r.1.2 = reply /\ r.2 = []
  | inr _ =>
    exists s2 s3,
      ui.advance n s1 = Some s2 /\ ui.advance n s2 = Some s3 /\
      ui.advance n s3
      = Some (ui.mkServer r.1.1 (ui.handlers s) (ui.saved s ++ r.2))
  end.
Proof.
  cbv zeta. unfold ui.enter, ui.DeleteService_call, ui.DeleteService.
  destruct (negb _); [done |].
  destruct (ui.nameInPath urlPath) as [name|]; [| done].
  destruct ((manager.RemoveService name o (st (ui.world (ui.app s)))).1.2);
    [done |].
  cbn [fst snd]. unfold ui.advance. cbn [ui.handlers ui.app ui.saved].
  rewrite list_lookup_middle by done.
  eexists. eexists. split; [done |].
  cbn [ui.handlers ui.app ui.saved ui.cfg ui.world].
  rewrite insert_app_r_alt, Nat.sub_diag by done. cbn [insert list_insert].
  rewrite list_lookup_middle by done.
  split; [done |].
  cbn [ui.handlers ui.app ui.saved ui.cfg ui.world].
  rewrite insert_app_r_alt, Nat.sub_diag by done. cbn [insert list_insert].
  rewrite list_lookup_middle by done.
  cbn [ui.handlers ui.app ui.saved ui.cfg ui.world].
  by rewrite delete_middle, app_nil_r.
Qed.

End API.

(** Adding a service through the API. A request that is not a POST is
    answered 405 and one whose body does not decode 400, and nothing
    changes. For a request that converts to a service configuration: a
    name that is registered gives 500 with the manager's error as the
    body, and nothing changes or is saved; a provisioning failure gives
    500, and the registry, the configuration, the servers and the
    probers stay as they were and nothing is saved; otherwise the answer
    is 201, the service is registered, healthy and provisioned, the
    configuration has it appended at the end and is saved once, and the
    probers are as they were. No check is made of the name or the
    backend of the request. *)
Theorem api_AddService_outcomes
    (t : ui.Time) (req : ui.ServiceRequest.t) (svcCfg : config.ServiceConfig.t)
    (env : manager.Provision) (a : ui.App) :
  ui.toServiceConfig t req = inl svcCfg ->
  let r := ui.AddService t "POST" (inl req) env a in
  let name := config.ServiceConfig.Name svcCfg in
  (forall method body,
     method <> "POST" ->
     ui.AddService t method body env a = (a, ui.ErrorReply "Method not allowed" 405, [])) /\
  (forall err,
     ui.AddService t "POST" (inr err) env a
     = (a, ui.ErrorReply ("Invalid request body: " +:+ err) 400, [])) /\
  (forall l,
     manager.registry (st (ui.world a)) !! name = Some l ->
     r = (a,
          ui.ErrorReply
            ("Failed to add service: service " +:+ name +:+ " already exists") 500,
          [])) /\
  (manager.registry (st (ui.world a)) !! name = None ->
   ~ provisioned env ->
   ui.code_of r.1.2 = Some 500 /\
   r.2 = [] /\
   ui.cfg r.1.1 = ui.cfg a /\
   manager.registry (st (ui.world r.1.1)) = manager.registry (st (ui.world a)) /\
   servers (ui.world r.1.1) = servers (ui.world a) /\
   probers (ui.world r.1.1) = probers (ui.world a)) /\
  (wf (st (ui.world a)) ->
   manager.registry (st (ui.world a)) !! name = None ->
   provisioned env ->
   r.1.2 = ui.JSONReply 201
             (ui.Status "success" ("Service " +:+ name +:+ " added successfully")) /\
   config.Services (ui.cfg r.1.1) = config.Services (ui.cfg a) ++ [svcCfg] /\
   r.2 = [ui.cfg r.1.1] /\
   probers (ui.world r.1.1) = probers (ui.world a) /\
   exists l,
     manager.registry (st (ui.world r.1.1)) !! name = Some l /\
     manager.svcs (st (ui.world r.1.1)) !! l
       = Some (manager.mkService svcCfg
                 (Some (serverOf (manager.mgr (st (ui.world a))) svcCfg))
                 (Some (proxyOf svcCfg)) true)).
Proof.
  intros Hconv r name. subst r name.
  split; [| split; [| split; [| split]]].
  - intros method body Hm. unfold ui.AddService.
    by rewrite bool_decide_eq_false_2.
  - done.
  - intros l Hl. unfold ui.AddService. simpl. rewrite Hconv.
    unfold AddService, manager.AddService. rewrite Hl. simpl.
    by destruct a as [[] ?].
  - intros Hfree Hnot. unfold ui.AddService. simpl. rewrite Hconv.
    destruct (AddService_unprovisioned svcCfg env (st (ui.world a)) Hfree Hnot)
      as (err & evs & E & _).
    assert (Herr : (manager.AddService svcCfg env (st (ui.world a))).1.2 = Some err)
      by (by rewrite E).
    rewrite Herr. simpl.
    destruct (AddService_error_world svcCfg env (ui.world a) err Herr) as [Hreg Hsrv].
    destruct (AddService_probers svcCfg env (ui.world a)) as [Hp _].
    done.
  - intros Hwf Hfree Hprov. unfold ui.AddService. simpl. rewrite Hconv.
    destruct (AddService_free_name svcCfg env (ui.world a) Hwf Hfree)
      as (_ & _ & Hp & _ & _ & _ & Hnew).
    rewrite (AddService_provisioned svcCfg env (st (ui.world a)) Hwf Hfree Hprov).
    cbv zeta. simpl. repeat (split; [done |]). by apply Hnew.
Qed.

(** Removing a service through the API. A request that is not a DELETE
    is answered 405, and a path with fewer than three "/" 400, with
    nothing changed. For /api/services/ followed by a name without "/":
    when the name is not registered the answer is 500, not 404, with
    the manager's not-found error as the body, and nothing changes or
    is saved; when it is registered the answer is 200, the name is
    removed from the registry and every service of that name from the
    configuration, the others keeping their order, the configuration is
    saved once, and the probers are as they were. *)
Theorem api_DeleteService_outcomes
    (name : string) (o : manager.DeleteOutcome) (a : ui.App) :
  no_slash name = true ->
  let r := ui.DeleteService "DELETE" ("/api/services/" +:+ name) o a in
  (forall method urlPath,
     method <> "DELETE" ->
     ui.DeleteService method urlPath o a
     = (a, ui.ErrorReply "Method not allowed" 405, [])) /\
  (forall urlPath,
     (slashes urlPath < 3)%nat ->
     ui.DeleteService "DELETE" urlPath o a
     = (a, ui.ErrorReply "Service name required" 400, [])) /\
  (manager.registry (st (ui.world a)) !! name = None ->
   r = (a,
        ui.ErrorReply
          ("Failed to remove service: service " +:+ name +:+ " not found") 500,
        [])) /\
  (forall l,
     manager.registry (st (ui.world a)) !! name = Some l ->
     r.1.2 = ui.JSONReply 200
               (ui.Status "success" ("Service " +:+ name +:+ " removed successfully")) /\
     manager.registry (st (ui.world r.1.1))
       = delete name (manager.registry (st (ui.world a))) /\
     config.Services (ui.cfg r.1.1)
       = filter (fun svc => config.ServiceConfig.Name svc <> name)
           (config.Services (ui.cfg a)) /\
     (name ∉ (config.ServiceConfig.Name <$> config.Services (ui.cfg r.1.1))) /\
     r.2 = [ui.cfg r.1.1] /\
     probers (ui.world r.1.1) = probers (ui.world a)).
Proof.
  intros Hn r. subst r.
  split; [| split; [| split]].
  - intros method urlPath Hm. unfold ui.DeleteService.
    by rewrite bool_decide_eq_false_2.
  - intros urlPath Hlt. unfold ui.DeleteService, ui.nameInPath. simpl.
    rewrite Split_length.
    by destruct (Nat.ltb_spec (S (slashes urlPath)) 4); [| lia].
  - intros Hnone. unfold ui.DeleteService. simpl.
    rewrite (nameInPath_services name Hn).
    unfold RemoveService, manager.RemoveService. rewrite Hnone. simpl.
    by destruct a as [[] ?].
  - intros l Hl. unfold ui.DeleteService. simpl.
    rewrite (nameInPath_services name Hn).
    pose proof (RemoveService_st name o (ui.world a)) as Hst.
    destruct (RemoveService_probers name o (ui.world a)) as [Hp _].
    destruct (RemoveService_registered name o (st (ui.world a)) l Hl)
      as (Herr & _).
    rewrite Herr. simpl. split; [done |]. split.
    { rewrite Hst. unfold manager.RemoveService. rewrite Hl. simpl.
      apply registry_mapdelete. by eapply registry_lookup_wf. }
    split; [done |]. split; [| done].
    intros (svc & Hname & Hin)%list_elem_of_fmap.
    apply list_elem_of_filter in Hin as [Hne _]. by apply Hne.
Qed.

Section Serving.

Implicit Types (a : ui.App) (w : World).

Variable t : ui.Time.

Lemma started_inv parsed env a0 :
  started parsed env = Some a0 ->
  exists cfg,
    config.Validate parsed = (cfg, None) /\
    a0 = ui.mkApp (main.start cfg env) cfg.
Proof.
  unfold started. destruct (config.Validate parsed) as [cfg [err|]]; [done |].
  intros [= <-]. eauto.
Qed.

(** After [main] has started, the configuration names every registered
    service. *)
Lemma start_covers parsed env a0 :
  started parsed env = Some a0 -> config_covers_registry a0.
Proof.
  intros (cfg & Hv & ->)%started_inv. unfold config_covers_registry. simpl.
  apply Validate_accepted in Hv as (Ha & svcs & Hvs & ->). simpl.
  destruct (validateServices_well_formed _ _ _ _ Hvs) as (_ & Hnd & _).
  unfold main.start. simpl. set (w0 := initial _ _ _ _).
  assert (Hwf0 : wf (st w0)).
  { unfold wf. simpl. rewrite lookup_singleton_eq. eauto. }
  assert (Hreg0 : manager.registry (st w0) = ∅).
  { unfold manager.registry. simpl. by rewrite lookup_singleton_eq. }
  destruct (addServices_spec env svcs 0 w0 Hwf0 Hnd)
    as (Hwf1 & _ & _ & _ & _ & Hdom1 & _).
  { apply Forall_forall. intros x _. by rewrite Hreg0, lookup_empty. }
  intros name. destruct (CheckerStart_st _ Hwf1) as [-> _]. intros Hn.
  destruct (Hdom1 name Hn) as [[? Hs] | (k & x & Hk & <- & _)].
  - by rewrite Hreg0, lookup_empty in Hs.
  - apply list_elem_of_fmap. exists x. split; [done |].
    by eapply list_elem_of_lookup_2.
Qed.

Lemma started_reachable parsed env a0 :
  started parsed env = Some a0 ->
  reachable
    (initial (config.AuthKey (ui.cfg a0)) (config.StateDir (ui.cfg a0))
       (config.APIKey (ui.cfg a0)) (config.Tailnet (ui.cfg a0)))
    (ui.world a0).
Proof. intros (cfg & Hv & ->)%started_inv. simpl. apply start_reachable. Qed.

Lemma keeps_up_same (s s' : ui.Server) :
  manager.registry (st (ui.world (ui.app s')))
    = manager.registry (st (ui.world (ui.app s))) ->
  ui.cfg (ui.app s') = ui.cfg (ui.app s) ->
  ui.handlers s' = ui.handlers s ->
  keeps_up s -> keeps_up s'.
Proof. unfold keeps_up. by intros -> -> ->. Qed.

Lemma file_keeps_up_same a0 (s s' : ui.Server) :
  ui.saved s' = ui.saved s ->
  ui.cfg (ui.app s') = ui.cfg (ui.app s) ->
  ui.handlers s' = ui.handlers s ->
  file_keeps_up a0 s -> file_keeps_up a0 s'.
Proof. unfold file_keeps_up, file_current. by intros -> -> ->. Qed.

Lemma GetAllServices_registry (st0 : manager.State) :
  wf st0 ->
  manager.registry (manager.GetAllServices st0).1 = manager.registry st0.
Proof.
  intros Hwf. rewrite GetAllServices_eq. simpl. apply registry_other_map.
  apply lookup_insert_ne. by apply fresh_ref_not_registry.
Qed.

Lemma ListServices_app method a :
  wf (st (ui.world a)) ->
  manager.registry (st (ui.world (ui.ListServices t method a).1))
    = manager.registry (st (ui.world a)) /\
  ui.cfg (ui.ListServices t method a).1 = ui.cfg a.
Proof.
  intros Hwf. pose proof (GetAllServices_registry _ Hwf) as Hget.
  unfold ui.ListServices. destruct (negb _); [done |].
  by destruct (manager.GetAllServices (st (ui.world a))) as [st1 r].
Qed.

Lemma HealthStatus_app method a :
  wf (st (ui.world a)) ->
  manager.registry (st (ui.world (ui.HealthStatus method a).1))
    = manager.registry (st (ui.world a)) /\
  ui.cfg (ui.HealthStatus method a).1 = ui.cfg a.
Proof.
  intros Hwf. pose proof (GetAllServices_registry _ Hwf) as Hget.
  unfold ui.HealthStatus. destruct (negb _); [done |].
  pose proof (GetAllStatuses_state (st (ui.world a))) as E.
  destruct (health.GetAllStatuses (st (ui.world a))) as [st1 statuses].
  simpl in *. by subst st1.
Qed.

Lemma RemoveService_wf name o w :
  wf (st w) -> wf (st (RemoveService name o w)).
Proof.
  intros Hwf. rewrite RemoveService_st. unfold manager.RemoveService.
  destruct (manager.registry (st w) !! name); [| done].
  unfold wf in *. simpl. rewrite lookup_alter_eq.
  destruct Hwf as [m ->]. simpl. eauto.
Qed.

Lemma RemoveService_registry name o w l :
  manager.registry (st w) !! name = Some l ->
  manager.registry (st (RemoveService name o w))
  = delete name (manager.registry (st w)).
Proof.
  intros Hl. rewrite RemoveService_st. unfold manager.RemoveService.
  rewrite Hl. simpl. apply registry_mapdelete. by eapply registry_lookup_wf.
Qed.

(** One step of serving with at most one handler in flight before and
    after. *)
Lemma serial_step_keeps a0 (s s' : ui.Server) :
  wf (st (ui.world (ui.app s))) ->
  ui.step t s s' ->
  (length (ui.handlers s) <= 1)%nat ->
  (length (ui.handlers s') <= 1)%nat ->
  keeps_up s /\ file_keeps_up a0 s ->
  keeps_up s' /\ file_keeps_up a0 s'.
Proof.
  intros Hwf Hstep Hlen Hlen' [Hk Hf].
  destruct Hstep as [method s | method body env s | method urlPath o s
                    | method s | i s s' Hadv | s i o w' Htick | s i Hsig Hi].
  - destruct (ListServices_app method (ui.app s) Hwf) as [Hr Hc].
    split; [by apply (keeps_up_same s) | by apply (file_keeps_up_same a0 s)].
  - pose proof (enter_handlers s (ui.AddService_call t method body env (ui.app s))
                  ui.Appending) as Hh.
    pose proof (enter_app s (ui.AddService_call t method body env (ui.app s))
                  ui.Appending) as Ha.
    pose proof (enter_saved s (ui.AddService_call t method body env (ui.app s))
                  ui.Appending) as Hs.
    set (s1 := ui.enter s _ _) in *. clearbody s1.
    destruct (AddService_call_cases t method body env (ui.app s))
      as [[E1 [reply E2]]
         | [(svcCfg & err & reply & Herr & E1 & E2) | (svcCfg & Hok & E1 & E2)]];
      rewrite E1 in Ha; rewrite E2 in Hh.
    + rewrite app_nil_r in Hh.
      split; [apply (keeps_up_same s) | apply (file_keeps_up_same a0 s)];
        by rewrite ?Ha.
    + rewrite app_nil_r in Hh.
      destruct (AddService_error_world svcCfg env (ui.world (ui.app s)) err Herr)
        as [Hreg _].
      split; [apply (keeps_up_same s) | apply (file_keeps_up_same a0 s)];
        by rewrite ?Ha.
    + rewrite Hh, length_app in Hlen'. simpl in Hlen'.
      destruct (ui.handlers s) as [|h hs] eqn:Hhs; [| simpl in Hlen'; lia].
      simpl in Hh.
      apply AddService_success_inv in Hok as [Hfree Hprov].
      destruct (AddService_free_name svcCfg env (ui.world (ui.app s)) Hwf Hfree)
        as (_ & _ & _ & _ & _ & Hdom & _).
      split.
      * unfold keeps_up in *. rewrite Hh, Ha. rewrite Hhs in Hk. simpl.
        intros name Hn. destruct (Hdom name Hn) as [Hold | [-> _]]; [| by right].
        left. by apply Hk.
      * unfold file_keeps_up, file_current in *. rewrite Hh, Ha, Hs.
        by rewrite Hhs in Hf.
  - pose proof (enter_handlers s (ui.DeleteService_call method urlPath o (ui.app s))
                  ui.Filtering) as Hh.
    pose proof (enter_app s (ui.DeleteService_call method urlPath o (ui.app s))
                  ui.Filtering) as Ha.
    pose proof (enter_saved s (ui.DeleteService_call method urlPath o (ui.app s))
                  ui.Filtering) as Hs.
    set (s1 := ui.enter s _ _) in *. clearbody s1.
    destruct (DeleteService_call_cases method urlPath o (ui.app s))
      as [[E1 [reply E2]] | (name & l & _ & Hl & E1 & E2)];
      rewrite E1 in Ha; rewrite E2 in Hh.
    + rewrite app_nil_r in Hh.
      split; [apply (keeps_up_same s) | apply (file_keeps_up_same a0 s)];
        by rewrite ?Ha.
    + rewrite Hh, length_app in Hlen'. simpl in Hlen'.
      destruct (ui.handlers s) as [|h hs] eqn:Hhs; [| simpl in Hlen'; lia].
      simpl in Hh. split.
      * unfold keeps_up in *. rewrite Hh, Ha. rewrite Hhs in Hk. simpl.
        rewrite (RemoveService_registry name o _ l Hl).
        intros n [l' Hl']. apply lookup_delete_Some in Hl' as [Hne Hl'].
        split; [apply Hk; eauto | done].
      * unfold file_keeps_up, file_current in *. rewrite Hh, Ha, Hs.
        by rewrite Hhs in Hf.
  - destruct (HealthStatus_app method (ui.app s) Hwf) as [Hr Hc].
    split; [by apply (keeps_up_same s) | by apply (file_keeps_up_same a0 s)].
  - unfold ui.advance in Hadv.
    destruct (ui.handlers s) as [|h [|h' hs]] eqn:Hhs; [done | | simpl in Hlen; lia].
    destruct i as [|i]; [| done]. simpl in Hadv. injection Hadv as <-.
    unfold keeps_up, file_keeps_up, file_current in *. rewrite Hhs in Hk, Hf.
    destruct h as [svcCfg | name | services |]; simpl in *.
    + split; [| done]. intros n Hn. rewrite fmap_app. apply elem_of_app.
      destruct (Hk n Hn) as [? | ->]; [by left | right; by left].
    + split; [| done]. intros n Hn. destruct (Hk n Hn) as [Hin Hne].
      apply list_elem_of_fmap in Hin as (svc & -> & Hin).
      apply list_elem_of_fmap. exists svc. split; [done |].
      by apply list_elem_of_filter.
    + done.
    + split; [done |]. left. apply last_snoc.
  - apply proberTick_Some in Htick as (q & svc & fc & svc' & _ & _ & _ & ->).
    split; [by apply (keeps_up_same s) | by apply (file_keeps_up_same a0 s)].
  - split; [by apply (keeps_up_same s) | by apply (file_keeps_up_same a0 s)].
Qed.

(** What a DELETE for a registered name and a POST for a free one come
    back from the manager with. *)
Lemma DeleteService_call_registered name o a l :
  no_slash name = true ->
  manager.registry (st (ui.world a)) !! name = Some l ->
  ui.DeleteService_call "DELETE" ("/api/services/" +:+ name) o a
  = (ui.mkApp (RemoveService name o (ui.world a)) (ui.cfg a), inr name).
Proof.
  intros Hn Hl. unfold ui.DeleteService_call. simpl.
  rewrite (nameInPath_services name Hn).
  by destruct (RemoveService_registered name o (st (ui.world a)) l Hl) as (-> & _).
Qed.

Lemma AddService_call_free req svcCfg env a :
  ui.toServiceConfig t req = inl svcCfg ->
  wf (st (ui.world a)) ->
  manager.registry (st (ui.world a)) !! config.ServiceConfig.Name svcCfg = None ->
  provisioned env ->
  ui.AddService_call t "POST" (inl req) env a
  = (ui.mkApp (AddService svcCfg env (ui.world a)) (ui.cfg a), inr svcCfg).
Proof.
  intros Hconv Hwf Hfree Hprov. unfold ui.AddService_call. simpl. rewrite Hconv.
  by rewrite (AddService_provisioned svcCfg env (st (ui.world a)) Hwf Hfree Hprov).
Qed.

(** A DELETE that has read the configuration, overtaken by a whole POST,
    stores a configuration without the service the POST added. *)
Lemma overtaken (s : ui.Server) req svcCfg env
    (o : manager.DeleteOutcome) (name : string) (l : loc) :
  ui.handlers s = [] ->
  wf (st (ui.world (ui.app s))) ->
  ui.toServiceConfig t req = inl svcCfg ->
  provisioned env ->
  no_slash name = true ->
  manager.registry (st (ui.world (ui.app s))) !! name = Some l ->
  manager.registry (st (ui.world (ui.app s))) !! config.ServiceConfig.Name svcCfg
    = None ->
  (config.ServiceConfig.Name svcCfg
     ∉ config.ServiceConfig.Name <$> config.Services (ui.cfg (ui.app s))) ->
  exists s',
    ui.serving t s s' /\
    ui.handlers s' = [] /\
    is_Some (manager.registry (st (ui.world (ui.app s')))
               !! config.ServiceConfig.Name svcCfg) /\
    (config.ServiceConfig.Name svcCfg
       ∉ config.ServiceConfig.Name <$> config.Services (ui.cfg (ui.app s'))) /\
    last (ui.saved s') = Some (ui.cfg (ui.app s')).
Proof.
  intros Hhs Hwf Hconv Hprov Hn Hl Hfree Hnotin.
  destruct s as [a hs sv]. simpl in *. subst hs.
  set (w1 := RemoveService name o (ui.world a)).
  set (f := filter (fun svc => config.ServiceConfig.Name svc <> name)
              (config.Services (ui.cfg a))).
  assert (Hwf1 : wf (st w1)) by (by apply RemoveService_wf).
  assert (Hfree1 : manager.registry (st w1) !! config.ServiceConfig.Name svcCfg = None).
  { unfold w1. rewrite (RemoveService_registry name o _ l Hl).
    by apply lookup_delete_None; right. }
  set (w2 := AddService svcCfg env w1).
  set (c1 := config.withServices (ui.cfg a)
               (config.Services (ui.cfg a) ++ [svcCfg])).
  set (c2 := config.withServices c1 f).
  set (s1 := ui.mkServer (ui.mkApp w1 (ui.cfg a)) [ui.Filtering name] sv).
  set (s2 := ui.mkServer (ui.mkApp w1 (ui.cfg a)) [ui.Assigning f] sv).
  set (s3 := ui.mkServer (ui.mkApp w2 (ui.cfg a))
               [ui.Assigning f; ui.Appending svcCfg] sv).
  set (s4 := ui.mkServer (ui.mkApp w2 (ui.cfg a))
               [ui.Assigning f;
                ui.Assigning (config.Services (ui.cfg a) ++ [svcCfg])] sv).
  set (s5 := ui.mkServer (ui.mkApp w2 c1) [ui.Assigning f; ui.Saving] sv).
  set (s6 := ui.mkServer (ui.mkApp w2 c1) [ui.Assigning f] (sv ++ [c1])).
  set (s7 := ui.mkServer (ui.mkApp w2 c2) [ui.Saving] (sv ++ [c1])).
  set (s8 := ui.mkServer (ui.mkApp w2 c2) [] ((sv ++ [c1]) ++ [c2])).
  assert (H1 : ui.step t (ui.mkServer a [] sv) s1).
  { pose proof (ui.step_DeleteService t "DELETE" ("/api/services/" +:+ name) o
                  (ui.mkServer a [] sv)) as H.
    cbn [ui.app] in H.
    by rewrite (DeleteService_call_registered name o a l Hn Hl) in H. }
  assert (H2 : ui.step t s1 s2) by (by apply (ui.step_advance t 0)).
  assert (H3 : ui.step t s2 s3).
  { pose proof (ui.step_AddService t "POST" (inl req) env s2) as H.
    cbn [ui.app s2] in H.
    by rewrite (AddService_call_free req svcCfg env (ui.mkApp w1 (ui.cfg a))
                  Hconv Hwf1 Hfree1 Hprov) in H. }
  assert (H4 : ui.step t s3 s4) by (by apply (ui.step_advance t 1)).
  assert (H5 : ui.step t s4 s5) by (by apply (ui.step_advance t 1)).
  assert (H6 : ui.step t s5 s6) by (by apply (ui.step_advance t 1)).
  assert (H7 : ui.step t s6 s7) by (by apply (ui.step_advance t 0)).
  assert (H8 : ui.step t s7 s8) by (by apply (ui.step_advance t 0)).
  exists s8. split.
  { repeat (eapply ui.serving_step; [| eassumption]). apply ui.serving_refl. }
  split; [done |]. simpl. split.
  { destruct (AddService_free_name svcCfg env w1 Hwf1 Hfree1)
      as (_ & _ & _ & _ & _ & _ & Hnew).
    destruct (Hnew Hprov) as (l' & Hl' & _). eauto. }
  split; [| apply last_snoc].
  intros (svc & Hname & Hin)%list_elem_of_fmap.
  apply list_elem_of_filter in Hin as [_ Hin].
  apply Hnotin. apply list_elem_of_fmap. eauto.
Qed.

End Serving.

(** The configuration keeps up with the registry as long as the
    handlers that change it come one at a time, and not otherwise.
    [net/http] serves requests concurrently, and [h.config] has no
    lock. From the state in which [main] hands over to the API:
    through any serving in which no [AddService] or [DeleteService] is
    called while another is in flight, with any readers and any ticks
    and returns of probers in between, the process stays one the
    process model reaches, and whenever no handler is in flight every
    registered name is the name of a service in the configuration, and
    the configuration is what was saved last. But in any state reached
    with no handler in flight, a DELETE for a registered service and a
    POST for a new one can run so that the POST falls between the read
    and the store of the DELETE: both are answered, the new service is
    registered, and it is neither in the configuration nor in the file
    saved last. *)
Theorem api_keeps_configuration_over_registry
    (t : ui.Time) (parsed : config.Config) (env : nat -> manager.Provision)
    (a0 : ui.App) :
  started parsed env = Some a0 ->
  (forall s,
     ui.serial t (ui.boot a0) s ->
     reachable
       (initial (config.AuthKey (ui.cfg a0)) (config.StateDir (ui.cfg a0))
          (config.APIKey (ui.cfg a0)) (config.Tailnet (ui.cfg a0)))
       (ui.world (ui.app s)) /\
     (ui.handlers s = [] ->
      config_covers_registry (ui.app s) /\ file_current a0 s)) /\
  (forall s req svcCfg e name,
     ui.serving t (ui.boot a0) s ->
     ui.handlers s = [] ->
     ui.toServiceConfig t req = inl svcCfg ->
     provisioned e ->
     no_slash name = true ->
     is_Some (manager.registry (st (ui.world (ui.app s))) !! name) ->
     manager.registry (st (ui.world (ui.app s))) !! config.ServiceConfig.Name svcCfg
       = None ->
     (config.ServiceConfig.Name svcCfg
        ∉ config.ServiceConfig.Name <$> config.Services (ui.cfg (ui.app s))) ->
     exists s',
       ui.serving t (ui.boot a0) s' /\
       ui.handlers s' = [] /\
       ~ config_covers_registry (ui.app s') /\
       is_Some (manager.registry (st (ui.world (ui.app s')))
                  !! config.ServiceConfig.Name svcCfg) /\
       (config.ServiceConfig.Name svcCfg
          ∉ config.ServiceConfig.Name <$> config.Services (ui.cfg (ui.app s'))) /\
       last (ui.saved s') = Some (ui.cfg (ui.app s'))).
Proof.
  intros Hstart.
  pose proof (started_reachable parsed env a0 Hstart) as Hr0.
  split.
  - intros s Hserial.
    assert (Hr : reachable
              (initial (config.AuthKey (ui.cfg a0)) (config.StateDir (ui.cfg a0))
                 (config.APIKey (ui.cfg a0)) (config.Tailnet (ui.cfg a0)))
              (ui.world (ui.app s))).
    { eapply serving_reachable; [by apply serial_serving | exact Hr0]. }
    split; [exact Hr |].
    assert (Hinv : (length (ui.handlers s) <= 1)%nat /\
                   keeps_up s /\ file_keeps_up a0 s).
    { clear Hr. induction Hserial as [|s s' Hserial IH Hstep Hlen'].
      - split; [simpl; lia |]. split.
        + unfold keeps_up. simpl. by apply (start_covers parsed env).
        + unfold file_keeps_up, file_current. simpl. by right.
      - destruct IH as [Hlen IH]. split; [exact Hlen' |].
        eapply (serial_step_keeps t a0 s s'); try done.
        eapply registry_sound_reachable; [apply registry_sound_initial |].
        eapply serving_reachable; [by apply serial_serving | exact Hr0]. }
    destruct Hinv as (_ & Hk & Hf). intros Hnil.
    unfold keeps_up, file_keeps_up in *. rewrite Hnil in Hk, Hf. done.
  - intros s req svcCfg e name Hserv Hnil Hconv Hprov Hn [l Hl] Hfree Hnotin.
    assert (Hwf : wf (st (ui.world (ui.app s)))).
    { eapply registry_sound_reachable; [apply registry_sound_initial |].
      by eapply serving_reachable. }
    destruct (overtaken t s req svcCfg e manager.NoSelf name l Hnil Hwf Hconv Hprov
                Hn Hl Hfree Hnotin) as (s' & Hs' & Hnil' & Hreg' & Hnot' & Hlast').
    exists s'. split; [by eapply serving_trans |]. split; [done |].
    split; [| done]. intros Hcov. by apply Hnot', Hcov.
Qed.

Section RunTimeServices.

Implicit Types (a : ui.App) (w : World).

Variable t : ui.Time.
Variable a0 : ui.App.

Local Abbreviation kept := (kept_since a0).

Lemma kept_same a a' :
  manager.svcs (st (ui.world a')) = manager.svcs (st (ui.world a)) ->
  (forall p, p ∈ probers (ui.world a') -> p ∈ probers (ui.world a)) ->
  kept a -> kept a'.
Proof.
  intros Hs Hp (H1 & H2 & H3). unfold kept_since. rewrite Hs.
  split; [intros p Hin; by apply H1, Hp |]. by split.
Qed.

Lemma kept_step (s s' : ui.Server) :
  ui.step t s s' -> kept (ui.app s) -> kept (ui.app s').
Proof.
  intros Hstep Hk.
  assert (Hw : forall a a', ui.world a' = ui.world a -> kept a -> kept a').
  { intros a a' E. unfold kept_since. by rewrite E. }
  destruct (api_step_world t s s' Hstep)
    as [E | [E | [(svcCfg & env & E) | [(name & o & E) | [(i & o & Htick)
       | (i & Hsig & Hi & E)]]]]].
  - by apply (Hw (ui.app s)).
  - apply (kept_same (ui.app s)); [| | done]; rewrite E; [| done].
    by rewrite GetAllServices_eq.
  - destruct Hk as (H1 & H2 & H3). unfold kept_since. rewrite E.
    destruct (AddService_probers svcCfg env (ui.world (ui.app s))) as [-> _].
    rewrite AddService_st.
    split; [done |]. split.
    + intros l svc Hl0 Hl.
      destruct (AddService_svcs svcCfg env (st (ui.world (ui.app s))) l)
        as [Hold Hnew].
      destruct (manager.svcs (st (ui.world (ui.app s))) !! l) as [svc'|] eqn:E'.
      * rewrite (Hold svc' eq_refl) in Hl. injection Hl as <-. by eapply H2.
      * by destruct (Hnew svc eq_refl Hl).
    + intros l Hl. destruct (H3 l Hl) as [svc Hs]. exists svc.
      by apply (AddService_svcs svcCfg env (st (ui.world (ui.app s))) l).
  - apply (kept_same (ui.app s)); [| | done]; rewrite E.
    + by rewrite RemoveService_st, RemoveService_svcs.
    + intros p.
      by destruct (RemoveService_probers name o (ui.world (ui.app s))) as [-> _].
  - apply proberTick_Some in Htick as (q & svc & fc & svc' & Hq & Hsvc & Ht & E).
    destruct Hk as (H1 & H2 & H3). unfold kept_since. rewrite E. simpl.
    assert (Hq0 : is_Some (manager.svcs (st (ui.world a0)) !! health.svc q)).
    { apply H1. by eapply list_elem_of_lookup_2. }
    split; [| split].
    + intros p Hin. apply list_elem_of_lookup in Hin as [k Hk].
      destruct (decide (i = k)) as [-> | Hne].
      * rewrite list_lookup_insert_eq in Hk by (by eapply lookup_lt_Some).
        by injection Hk as <-.
      * rewrite list_lookup_insert_ne in Hk by done.
        apply H1. by eapply list_elem_of_lookup_2.
    + intros l s0 Hl0 Hl.
      destruct (decide (health.svc q = l)) as [<- | Hne].
      * rewrite Hl0 in Hq0. by destruct Hq0.
      * rewrite lookup_insert_ne in Hl by done. by eapply H2.
    + intros l Hl. destruct (decide (health.svc q = l)) as [<- | Hne].
      * rewrite lookup_insert_eq. eauto.
      * rewrite lookup_insert_ne by done. by apply H3.
  - apply (kept_same (ui.app s)); [| | done]; rewrite E; simpl; [done |].
    intros p. apply list_elem_of_delete_inv.
Qed.

Lemma kept_serving (s : ui.Server) :
  health_checks_sound (ui.world a0) -> ui.serving t (ui.boot a0) s -> kept (ui.app s).
Proof.
  intros [_ H2]. induction 1 as [|s s' _ IH Hstep].
  - split; [| split].
    + intros p Hin. destruct (H2 p Hin) as (svc & Hs & _). eauto.
    + intros l svc Hn Hs. simpl in Hs. congruence.
    + done.
  - by eapply kept_step.
Qed.

End RunTimeServices.

(** The health check of a service added while the process runs is never
    run. From the state in which [main] hands over to the API, through
    any calls of the handlers, run in any order and overlapping in any
    way, and any ticks of probers: no new prober appears, every prober
    checks a service object that existed when the API started, and no
    such object is ever lost; so a service object made later has no
    prober, keeps the flag it was made with, and its handler never
    answers 503, whatever its health-check settings. *)
Theorem services_added_at_run_time_are_never_probed
    (t : ui.Time) (parsed : config.Config) (env : nat -> manager.Provision)
    (a0 : ui.App) (s0 : ui.Server) (l : loc) :
  started parsed env = Some a0 ->
  ui.serving t (ui.boot a0) s0 ->
  let a := ui.app s0 in
  (is_Some (manager.svcs (st (ui.world a0)) !! l) ->
   is_Some (manager.svcs (st (ui.world a)) !! l)) /\
  (manager.svcs (st (ui.world a0)) !! l = None ->
   probersOf l (ui.world a) = [] /\
   forall s proxy urlPath,
     manager.svcs (st (ui.world a)) !! l = Some s ->
     manager.IsHealthy s = true /\
     Forall (fun e => status_of e <> Some StatusServiceUnavailable)
       (manager.serveHTTP s proxy urlPath)).
Proof.
  intros Hstart Hserv a. subst a.
  pose proof (started_reachable parsed env a0 Hstart) as Hr0.
  pose proof (sound_reachable _ _ (sound_initial _ _ _ _) Hr0) as Hsound.
  destruct (kept_serving t a0 s0 Hsound Hserv) as (H1 & H2 & H3).
  split; [apply H3 |]. intros Hnone. split.
  - unfold probersOf.
    match goal with |- ?f = [] => destruct f as [|p ps] eqn:Hf; [done |] end.
    assert (Hp : p ∈ p :: ps) by (by left). rewrite <- Hf in Hp.
    apply list_elem_of_filter in Hp as [Hsvc Hp]. exfalso.
    destruct (H1 p Hp) as [s Hs]. congruence.
  - intros s proxy urlPath Hs.
    assert (Hh : manager.IsHealthy s = true) by (by eapply H2).
    split; [done |]. by apply serveHTTP_healthy_not_503.
Qed.

(** Whether the process ends in the panic of a ticker is settled when
    [main] has started the checker. [Validate] lets a health check with
    an interval below zero through, and the goroutine [Start] launches
    for it panics in [time.NewTicker]. From the state in which [main]
    hands over to the API, through any calls of the handlers and any
    ticks and returns of probers: the goroutines that are to panic are
    those there were at the start, so the process is to end that way
    exactly when a configured service that was provisioned has its
    health check enabled with an interval below zero, and nothing done
    through the API brings that end about or averts it; and every
    prober has an interval above zero and a service object to check, so
    that its next tick can be taken whatever the probe comes to. *)
Theorem ticker_panic_is_settled_at_start
    (t : ui.Time) (parsed : config.Config) (env : nat -> manager.Provision)
    (a0 : ui.App) (s0 : ui.Server) :
  started parsed env = Some a0 ->
  ui.serving t (ui.boot a0) s0 ->
  let w := ui.world (ui.app s0) in
  panicking w = panicking (ui.world a0) /\
  (crashes w <->
   exists i svc,
     config.Services (ui.cfg a0) !! i = Some svc /\
     provisioned (env i) /\
     config.HealthCheckConfig.Enabled (config.ServiceConfig.HealthCheck svc) = true /\
     config.HealthCheckConfig.Interval (config.ServiceConfig.HealthCheck svc) < 0) /\
  (forall i p,
     probers w !! i = Some p ->
     0 < config.HealthCheckConfig.Interval (health.cfg p) /\
     forall o, is_Some (proberTick i o w)).
Proof.
  intros Hstart Hserv w. subst w.
  pose proof (started_reachable parsed env a0 Hstart) as Hr0.
  pose proof (serving_reachable t _ (ui.boot a0) s0 Hserv Hr0) as Hr.
  pose proof (serving_panicking t (ui.boot a0) s0 Hserv) as Hp. simpl in Hp.
  split; [exact Hp |]. split.
  - unfold crashes. rewrite Hp.
    apply started_inv in Hstart as (cfg & Hv & ->). simpl.
    destruct (main_run_spec parsed env (main.start cfg env))
      as (cfg' & Hv' & _ & _ & _ & _ & _ & Hc).
    { unfold main.run. by rewrite Hv. }
    rewrite Hv in Hv'. injection Hv' as <-. exact Hc.
  - intros i p Hi.
    assert (Hin : p ∈ probers (ui.world (ui.app s0)))
      by (by eapply list_elem_of_lookup_2).
    split.
    + refine (ticking_reachable _ _ _ Hr p Hin).
      intros q Hq. simpl in Hq. by apply elem_of_nil in Hq.
    + intros o.
      destruct (sound_reachable _ _ (sound_initial _ _ _ _) Hr) as [_ H2].
      destruct (H2 p Hin) as (svc & Hs & _).
      unfold proberTick. rewrite Hi. simpl. rewrite Hs. simpl.
      destruct (health.tick _ _ _ _). eauto.
Qed.

Section Unvalidated.

Lemma Validate_rejects_defective (c : config.Config) :
  defective c -> is_Some (config.Validate c).2.
Proof.
  intros Hd. destruct (config.Validate c) as [c' [err|]] eqn:E; [simpl; eauto |].
  exfalso. apply Validate_accepted in E as (Ha & svcs & Hv & _).
  pose proof (validateServices_rejects (config.Services c) 0 ∅) as Hrej.
  rewrite Hv in Hrej. simpl in Hrej.
  destruct Hd as [Hd | Hd]; [done |].
  assert (Hs : is_Some (@None config.error)) by (apply Hrej; tauto).
  by destruct Hs.
Qed.

End Unvalidated.

(** The API can save a configuration the next start refuses. The API
    does not validate what it adds: when a request is accepted with 201
    although its service has one of the defects [Validate] rejects, or
    although the configuration already has a service of that name (one
    that is not registered), the configuration it saves is one
    [Validate], and with it [Load], rejects. *)
Theorem api_can_save_rejected_configuration
    (t : ui.Time) (req : ui.ServiceRequest.t) (svcCfg : config.ServiceConfig.t)
    (env : manager.Provision) (a : ui.App) :
  ui.toServiceConfig t req = inl svcCfg ->
  wf (st (ui.world a)) ->
  manager.registry (st (ui.world a)) !! config.ServiceConfig.Name svcCfg = None ->
  provisioned env ->
  service_defect svcCfg \/
  config.ServiceConfig.Name svcCfg
    ∈ config.ServiceConfig.Name <$> config.Services (ui.cfg a) ->
  let r := ui.AddService t "POST" (inl req) env a in
  ui.code_of r.1.2 = Some 201 /\
  exists saved,
    r.2 = [saved] /\ saved = ui.cfg r.1.1 /\ is_Some (config.Validate saved).2.
Proof.
  intros Hconv Hwf Hfree Hprov Hbad r. subst r.
  unfold ui.AddService. simpl. rewrite Hconv.
  rewrite (AddService_provisioned svcCfg env (st (ui.world a)) Hwf Hfree Hprov).
  cbv zeta. simpl. split; [done |]. eexists. split; [done |]. split; [done |].
  apply Validate_rejects_defective. unfold defective. simpl.
  right. destruct Hbad as [Hd | Hdup].
  - left. apply Exists_app. right. by constructor.
  - right. rewrite fmap_app. simpl. intros Hnd.
    apply NoDup_app in Hnd as (_ & Hdisj & _).
    apply (Hdisj _ Hdup). by left.
Qed.

(** A name with a "/" is out of the API's reach. The name a path
    addresses never holds a "/"; so whatever the method and the path of
    a request to [DeleteService], a registered service whose name holds
    a "/" stays registered, led to by the same pointer. *)
Theorem slash_in_name_is_unreachable
    (method urlPath : string) (o : manager.DeleteOutcome)
    (a : ui.App) (name : string) (l : loc) :
  no_slash name = false ->
  manager.registry (st (ui.world a)) !! name = Some l ->
  ui.nameInPath urlPath <> Some name /\
  manager.registry (st (ui.world (ui.DeleteService method urlPath o a).1.1)) !! name
    = Some l.
Proof.
  intros Hslash Hl.
  assert (Hpath : forall n, ui.nameInPath urlPath = Some n -> n <> name).
  { intros n Hn ->. unfold ui.nameInPath in Hn.
    destruct (_ <? _)%nat; [done |].
    pose proof (Split_parts urlPath) as Hall. rewrite Forall_forall in Hall.
    rewrite (Hall name) in Hslash; [done | by eapply list_elem_of_lookup_2]. }
  split; [intros Hn; by apply (Hpath name) |].
  unfold ui.DeleteService. destruct (negb _); [done |].
  destruct (ui.nameInPath urlPath) as [n|] eqn:Hn; [| done].
  specialize (Hpath n eq_refl).
  pose proof (RemoveService_st n o (ui.world a)) as Hst.
  unfold manager.RemoveService in *.
  destruct (manager.registry (st (ui.world a)) !! n) as [l'|] eqn:Hl'; simpl in *.
  - rewrite Hst, registry_mapdelete by (by eapply registry_lookup_wf).
    by rewrite lookup_delete_ne.
  - by rewrite Hst.
Qed.

Section Reads.

Lemma mapM_fmap_Some {A B} (f : A -> option B) (g : A -> B) (l : list A) :
  (forall x, x ∈ l -> f x = Some (g x)) -> mapM f l = Some (g <$> l).
Proof.
  intros H. apply mapM_Some. induction l as [|x l IH]; simpl; [constructor |].
  constructor; [apply H; by left |]. apply IH. intros y Hy. apply H. by right.
Qed.

End Reads.

(** What the API reads is what is registered. In any state reached
    while the API is served, with handlers run in any order and
    overlapping in any way: [GetService] for /api/services/ followed
    by a name without "/" answers 404 when the name is not registered,
    and otherwise 200 with the service registered under it, its name
    and its current health flag; [ListServices] answers 200 with one
    entry for each registered name, in the order the map is ranged
    over, filled from the service the name leads to; and neither
    handler ever dereferences a missing service. *)
Theorem api_reads_agree_with_registry
    (t : ui.Time) (parsed : config.Config) (env : nat -> manager.Provision)
    (a0 : ui.App) (s0 : ui.Server) (name : string) :
  started parsed env = Some a0 ->
  ui.serving t (ui.boot a0) s0 ->
  no_slash name = true ->
  let a := ui.app s0 in
  let reg := manager.registry (st (ui.world a)) in
  let get := ui.GetService t "GET" ("/api/services/" +:+ name) a in
  (reg !! name = None -> get = ui.ErrorReply "Service not found" 404) /\
  (forall l,
     reg !! name = Some l ->
     exists s,
       manager.svcs (st (ui.world a)) !! l = Some s /\
       get = ui.JSONReply 200 (ui.Service (ui.toResponse t s)) /\
       ui.ServiceResponse.Name (ui.toResponse t s) = name /\
       ui.ServiceResponse.Healthy (ui.toResponse t s) = manager.IsHealthy s) /\
  exists entries,
    (ui.ListServices t "GET" a).2 = ui.JSONReply 200 (ui.Services entries) /\
    ui.ServiceResponse.Name <$> entries = (map_to_list reg).*1 /\
    Forall2
      (fun entry '(n, l) =>
         exists s,
           manager.svcs (st (ui.world a)) !! l = Some s /\
           entry = ui.toResponse t s)
      entries (map_to_list reg).
Proof.
  intros Hstart Hserv Hn a reg get. subst reg get.
  pose proof (started_reachable parsed env a0 Hstart) as Hr0.
  pose proof (serving_reachable t _ (ui.boot a0) s0 Hserv Hr0) as Hr.
  fold a in Hr.
  pose proof (registry_sound_reachable _ _ (registry_sound_initial _ _ _ _) Hr)
    as [Hwf Hreg].
  assert (Hlist : exists entries,
    (ui.ListServices t "GET" a).2 = ui.JSONReply 200 (ui.Services entries) /\
    ui.ServiceResponse.Name <$> entries
      = (map_to_list (manager.registry (st (ui.world a)))).*1 /\
    Forall2
      (fun entry '(n, l) =>
         exists s,
           manager.svcs (st (ui.world a)) !! l = Some s /\
           entry = ui.toResponse t s)
      entries (map_to_list (manager.registry (st (ui.world a))))).
  {
  unfold ui.ListServices. rewrite bool_decide_eq_true_2 by done.
  rewrite GetAllServices_eq. cbv beta iota zeta.
  cbn [negb fst snd manager.maps manager.svcs manager.withMaps].
  rewrite lookup_insert_eq. cbn [default snd].
  set (pick := fun nl : string * loc =>
                 default (ui.toResponse t (manager.NewService sample.api))
                   (ui.toResponse t <$> manager.svcs (st (ui.world a)) !! nl.2)).
  exists (pick <$> map_to_list (manager.registry (st (ui.world a)))).
  assert (Hpick : forall nl,
            nl ∈ map_to_list (manager.registry (st (ui.world a))) ->
            exists s,
              manager.svcs (st (ui.world a)) !! nl.2 = Some s /\
              pick nl = ui.toResponse t s /\
              config.ServiceConfig.Name (manager.Config s) = nl.1).
  { intros [n l] Hin. apply elem_of_map_to_list in Hin.
    destruct (Hreg n l Hin) as (s & Hs & Hname & _).
    exists s. unfold pick. simpl. by rewrite Hs. }
  split; [| split].
  - rewrite (mapM_fmap_Some _ pick); [done |].
    intros [n l] Hin. destruct (Hpick _ Hin) as (s & Hs & Hp & _).
    simpl in *. by rewrite Hs, Hp.
  - rewrite <- list_fmap_compose. apply list_fmap_ext.
    intros i nl Hi. simpl.
    destruct (Hpick nl) as (s & _ & -> & Hname); [by eapply list_elem_of_lookup_2 |].
    done.
  - apply Forall2_fmap_l. apply Forall_Forall2_diag. apply Forall_forall.
    intros [n l] Hin. destruct (Hpick _ Hin) as (s & Hs & Hp & _). eauto.
  }
  unfold ui.GetService. simpl. rewrite (nameInPath_services name Hn).
  unfold manager.GetService.
  split; [by intros -> |]. split; [| exact Hlist].
  intros l Hl. rewrite Hl. destruct (Hreg name l Hl) as (s & Hs & Hname & _).
  exists s. rewrite Hs. done.
Qed.

(* ===================================================================== *)
(** * The metrics *)
(* ===================================================================== *)

Section ResponseWriter.

(** Once the header is written the wrapper passes writes through and
    nothing else. *)
Lemma serve_written (ops : list metrics.op) (rw : metrics.responseWriter) :
  metrics.written rw = true ->
  (metrics.serve ops rw).1 = rw /\
  (metrics.serve ops rw).2 = metrics.UnderlyingWrite <$> writes ops.
Proof.
  intros Hw. induction ops as [|o ops IH]; simpl; [done |].
  destruct IH as [IH1 IH2].
  destruct o as [code | b]; simpl;
    unfold metrics.WriteHeader, metrics.Write; rewrite Hw; simpl;
    destruct (metrics.serve ops rw) as [rw2 calls2]; simpl in *;
    by subst.
Qed.

Lemma serve_fresh (ops : list metrics.op) (code0 : Z) :
  ops <> [] ->
  (metrics.serve ops (metrics.mkResponseWriter code0 false)).1
    = metrics.mkResponseWriter (first_status ops) true /\
  (metrics.serve ops (metrics.mkResponseWriter code0 false)).2
    = metrics.UnderlyingWriteHeader (first_status ops)
      :: (metrics.UnderlyingWrite <$> writes ops).
Proof.
  destruct ops as [|o ops]; [done |]. intros _. simpl.
  destruct o as [code | b]; simpl.
  - destruct (serve_written ops (metrics.mkResponseWriter code true) eq_refl)
      as [H1 H2].
    destruct (metrics.serve ops _) as [rw2 calls2]. simpl in *. by subst.
  - destruct (serve_written ops (metrics.mkResponseWriter 200 true) eq_refl)
      as [H1 H2].
    destruct (metrics.serve ops _) as [rw2 calls2]. simpl in *. by subst.
Qed.

Lemma no_header_in_writes (bs : list string) :
  filter (fun c => is_header c = true) (metrics.UnderlyingWrite <$> bs) = [].
Proof.
  induction bs as [|b bs IH]; [done |].
  rewrite fmap_cons, filter_cons_False; [exact IH | by intros H].
Qed.

Lemma written_bytes_of_writes (bs : list string) :
  written_bytes (metrics.UnderlyingWrite <$> bs) = bs.
Proof.
  induction bs as [|b bs IH]; [done |].
  change (b :: written_bytes (metrics.UnderlyingWrite <$> bs) = b :: bs).
  by f_equal.
Qed.

(** What a handler's calls on a fresh wrapper come to. *)
Lemma serve_from_fresh (ops : list metrics.op) :
  let r := metrics.serve ops (metrics.mkResponseWriter 200 false) in
  metrics.statusCode r.1 = first_status ops /\
  metrics.written r.1 = bool_decide (ops <> []) /\
  r.2 = (if bool_decide (ops <> [])
         then [metrics.UnderlyingWriteHeader (first_status ops)] else [])
        ++ (metrics.UnderlyingWrite <$> writes ops).
Proof.
  destruct ops as [|o ops]; [done |].
  destruct (serve_fresh (o :: ops) 200) as [H1 H2]; [done |].
  cbv zeta. rewrite H1, H2. by rewrite bool_decide_eq_true_2.
Qed.

End ResponseWriter.

(** The first status wins. Whatever calls a handler makes on the
    wrapper, starting from a fresh one: the status the wrapper records
    is the code of the first call when that is a [WriteHeader], and 200
    when it is a [Write] or there is no call at all; the wrapped writer
    receives [WriteHeader] exactly once, with that status and before
    anything else, when the handler makes any call, and never
    otherwise; and it receives every write, in order and unchanged. *)
Theorem responseWriter_first_status_wins (ops : list metrics.op) :
  let r := metrics.serve ops (metrics.mkResponseWriter 200 false) in
  metrics.statusCode r.1 = first_status ops /\
  metrics.written r.1 = bool_decide (ops <> []) /\
  filter (fun c => is_header c = true) r.2
    = (if bool_decide (ops <> []) then [metrics.UnderlyingWriteHeader (first_status ops)]
       else []) /\
  head r.2
    = (if bool_decide (ops <> []) then Some (metrics.UnderlyingWriteHeader (first_status ops))
       else None) /\
  written_bytes r.2 = writes ops.
Proof.
  destruct (serve_from_fresh ops) as (H1 & H2 & H3). cbv zeta in *.
  rewrite H1, H2, H3. split; [done |]. split; [done |].
  destruct ops as [|o ops]; [done |].
  rewrite bool_decide_eq_true_2 by done. simpl app.
  split; [| split; [done |]].
  - rewrite filter_cons_True by done. by rewrite no_header_in_writes.
  - apply (written_bytes_of_writes (writes (o :: ops))).
Qed.

(** The middleware keeps its books. For every request, whatever the
    wrapped handler does: the active-connections gauge of the service
    is incremented first and decremented last, once each, also when the
    handler panics; when the handler returns, the request counter is
    incremented exactly once, under the service, the method and the
    status the wrapper recorded, and one duration is observed; when it
    panics, the request is not counted. *)
Theorem MetricsMiddleware_keeps_books
    (serviceName method : string) (ops : list metrics.op) (panics : bool) :
  let calls := metrics.MetricsMiddleware serviceName method ops panics in
  head calls = Some (metrics.ActiveInc serviceName) /\
  last calls = Some (metrics.ActiveDec serviceName) /\
  filter (fun c => is_active_inc c = true) calls = [metrics.ActiveInc serviceName] /\
  filter (fun c => is_active_dec c = true) calls = [metrics.ActiveDec serviceName] /\
  omap counted calls
    = (if panics then [] else [(serviceName, method, first_status ops)]) /\
  written_bytes calls = writes ops.
Proof.
  cbv zeta. unfold metrics.MetricsMiddleware.
  destruct (serve_from_fresh ops) as (Hcode & _ & Hcalls). cbv zeta in *.
  destruct (metrics.serve ops (metrics.mkResponseWriter 200 false)) as [rw' calls].
  simpl in Hcode, Hcalls. subst calls. rewrite Hcode.
  set (header := if bool_decide (ops <> [])
                 then [metrics.UnderlyingWriteHeader (first_status ops)] else []).
  set (record := if panics then []
                 else [metrics.RequestsInc serviceName method (first_status ops);
                       metrics.DurationObserve serviceName method]).
  assert (Hh : filter (fun c => is_active_inc c = true) header = [] /\
               filter (fun c => is_active_dec c = true) header = [] /\
               omap counted header = [] /\ written_bytes header = []).
  { unfold header. by destruct (bool_decide (ops <> [])). }
  assert (Hr : filter (fun c => is_active_inc c = true) record = [] /\
               filter (fun c => is_active_dec c = true) record = [] /\
               omap counted record
                 = (if panics then [] else [(serviceName, method, first_status ops)]) /\
               written_bytes record = []).
  { unfold record. by destruct panics. }
  assert (Hw : filter (fun c => is_active_inc c = true)
                 (metrics.UnderlyingWrite <$> writes ops) = [] /\
               filter (fun c => is_active_dec c = true)
                 (metrics.UnderlyingWrite <$> writes ops) = [] /\
               omap counted (metrics.UnderlyingWrite <$> writes ops) = []).
  { induction (writes ops) as [|b bs IH]; [done |].
    destruct IH as (IH1 & IH2 & IH3). rewrite fmap_cons.
    rewrite !filter_cons_False by (by intros H). by rewrite IH1, IH2. }
  destruct Hh as (Hh1 & Hh2 & Hh3 & Hh4).
  destruct Hr as (Hr1 & Hr2 & Hr3 & Hr4).
  destruct Hw as (Hw1 & Hw2 & Hw3).
  split; [done |]. split.
  { rewrite !app_assoc. apply last_snoc. }
  unfold written_bytes in *.
  rewrite !filter_app, !omap_app.
  rewrite Hh1, Hh2, Hh3, Hh4, Hr1, Hr2, Hr3, Hr4, Hw1, Hw2, Hw3.
  pose proof (written_bytes_of_writes (writes ops)) as Hb.
  unfold written_bytes in Hb. rewrite Hb.
  repeat split; try done; simpl; by rewrite ?app_nil_r.
Qed.

(* ===================================================================== *)
(** * The further statements at work on the sample inputs *)
(* ===================================================================== *)

Section SampleFacts.

Lemma sample_provisioned : provisioned sample.ok.
Proof. by repeat split. Defined.

Lemma sample_noTLS : ~ provisioned sample_run.noTLS.
Proof. intros (_ & H & _). discriminate H. Defined.

Lemma sample_serving_wf : wf (st sample.serving).
Proof. vm_compute. eexists. reflexivity. Defined.

Lemma sample_serving_reachable : reachable sample.empty sample.serving.
Proof.
  apply (reachable_step _ sample.empty); [apply reachable_refl |].
  apply (step_AddService sample.empty sample.api sample.ok).
Defined.

Lemma sample_probing_reachable : reachable sample.empty sample.probing.
Proof.
  apply (reachable_step _ sample.serving); [apply sample_serving_reachable |].
  apply (step_CheckerStart sample.serving).
Defined.

Lemma sample_started :
  started sample_run.parsed sample_run.allOk = Some sample_run.app.
Proof. reflexivity. Defined.

(** The POST for [db], run with nothing in between. *)
Lemma sample_withDb_serial :
  ui.serial sample_run.time (ui.boot sample_run.app) sample_run.served.
Proof.
  eapply ui.serial_step;
    [eapply ui.serial_step;
       [eapply ui.serial_step;
          [eapply ui.serial_step; [apply ui.serial_refl | |] | |] | |] | |].
  - apply (ui.step_AddService sample_run.time "POST" (inl sample_run.db) sample.ok).
  - vm_compute. repeat constructor.
  - apply (ui.step_advance _ 0). vm_compute. reflexivity.
  - vm_compute. repeat constructor.
  - apply (ui.step_advance _ 0). vm_compute. reflexivity.
  - vm_compute. repeat constructor.
  - apply (ui.step_advance _ 0). vm_compute. reflexivity.
  - vm_compute. repeat constructor.
Defined.

Lemma sample_withDb :
  ui.serving sample_run.time (ui.boot sample_run.app) sample_run.served.
Proof. exact (serial_serving _ _ _ sample_withDb_serial). Defined.

Lemma sample_impatient :
  started sample_run.impatient sample_run.allOk = Some sample_run.impatientApp.
Proof. reflexivity. Defined.

Lemma sample_db_new :
  "db" ∉ config.ServiceConfig.Name <$> config.Services (ui.cfg sample_run.app).
Proof.
  intros Hin. vm_compute in Hin.
  repeat (apply elem_of_cons in Hin as [Hin | Hin]; [discriminate Hin |]).
  by apply elem_of_nil in Hin.
Defined.

End SampleFacts.

(** [web] added beside [api]. *)
Lemma AddService_registers_service_witness :
  (manager.AddService sample.web sample.ok (st sample.serving)).1.2 = None.
Proof.
  pose proof (AddService_registers_service sample.web sample.ok (st sample.serving)
                sample_serving_wf eq_refl sample_provisioned) as H.
  cbv zeta in H. exact (proj1 H).
Defined.

Lemma AddService_failure_unwinds_witness :
  manager.registry
    (manager.AddService sample.web sample_run.noTLS (st sample.serving)).1.1
  = manager.registry (st sample.serving) /\
  last (manager.AddService sample.web sample_run.noTLS (st sample.serving)).2
  = Some (TsClose (serverOf (manager.mgr (st sample.serving)) sample.web)).
Proof.
  pose proof (AddService_failure_unwinds sample.web sample_run.noTLS
                (st sample.serving) eq_refl sample_noTLS) as H.
  cbv zeta in H. destruct H as (_ & Hreg & _ & _ & _ & _ & _ & Hclose).
  split; [exact Hreg |]. exact (proj1 (proj2 (Hclose eq_refl))).
Defined.

(** With an API client, and Status naming the node n7. *)
Lemma RemoveService_removes_only_its_name_witness :
  manager.GetService "api"
    (manager.RemoveService "api" (manager.Deleted "n7") (st sample_run.managed)).1.1
  = None /\
  exists calls,
    (manager.RemoveService "api" (manager.Deleted "n7") (st sample_run.managed)).2
    = calls ++ [TsClose (serverOf (manager.mgr (st sample_run.managed)) sample.api)] /\
    calls = [TsLocalClient (serverOf (manager.mgr (st sample_run.managed)) sample.api);
             LcStatus (serverOf (manager.mgr (st sample_run.managed)) sample.api);
             ApiDeleteDevice "%!d(tailcfg.StableNodeID=n7)"].
Proof.
  pose proof (RemoveService_removes_only_its_name "api" (manager.Deleted "n7")
                (st sample_run.managed) 1%positive eq_refl) as H.
  cbv zeta in H. destruct H as (_ & Hget & _ & _ & _ & _ & Hcalls).
  split; [exact Hget |].
  destruct (Hcalls (manager.mkService sample.api
                      (Some (serverOf (manager.mgr (st sample_run.managed)) sample.api))
                      (Some (proxyOf sample.api)) true)
              (serverOf (manager.mgr (st sample_run.managed)) sample.api)
              eq_refl eq_refl)
    as (calls & Hev & _ & _ & Hdel).
  exists calls. split; [exact Hev |].
  apply (Hdel "n7"); [vm_compute; eexists; reflexivity | left; reflexivity].
Defined.

Lemma AddService_then_RemoveService_witness :
  manager.registry
    (st (RemoveService "web" manager.NoSelf
           (AddService sample.web sample.ok sample.serving)))
  = manager.registry (st sample.serving).
Proof.
  pose proof (AddService_then_RemoveService sample.web sample.ok manager.NoSelf
                sample.serving sample_serving_wf eq_refl sample_provisioned) as H.
  cbv zeta in H. exact (proj1 (proj2 H)).
Defined.

Lemma no_api_client_no_device_deletion_witness :
  Forall (fun e => is_api_call e = false)
    (manager.RemoveService "api" (manager.Deleted "n7") (st sample.serving)).2.
Proof.
  exact (proj1 (no_api_client_no_device_deletion "tskey-auth" "/data/tsnet" "" ""
                  sample.serving sample_serving_reachable (or_introl eq_refl))
           "api" (manager.Deleted "n7")).
Defined.

Lemma registered_services_are_provisioned_witness :
  registry_sound sample.probing.
Proof.
  exact (proj1 (registered_services_are_provisioned "tskey-auth" "/data/tsnet" "" ""
                  sample.probing sample_probing_reachable)).
Defined.

Lemma Shutdown_releases_every_service_witness :
  omap closed_host (manager.Shutdown (fun _ => manager.NoSelf) (st sample.probing)).2
  = (map_to_list (manager.registry (st sample.probing))).*1.
Proof.
  pose proof (Shutdown_releases_every_service "tskey-auth" "/data/tsnet" "" ""
                sample.probing (fun _ => manager.NoSelf) sample_probing_reachable)
    as H.
  cbv zeta in H. exact (proj1 H).
Defined.

Lemma health_flag_tracks_failure_run_witness :
  manager.IsHealthy
    (health.runHealthCheck (manager.NewService sample.api)
       [false; true; false; false; false]).2 = true
  <-> Z.of_nat (failure_run [false; true; false; false; false]) = 0 \/
      Z.of_nat (failure_run [false; true; false; false; false]) < 2.
Proof.
  pose proof (health_flag_tracks_failure_run sample.api
                [false; true; false; false; false]) as H.
  cbv zeta in H. refine (proj1 (H _)).
  unfold health.max_int. simpl. lia.
Defined.

Lemma probes_gate_requests_witness :
  manager.serveHTTP
    (health.runHealthCheck (manager.NewService sample.api)
       (health.performCheck
          <$> [health.Response 200; health.Response 500; health.DoFails])).2
    sample.proxy "/api/users"
  = [HttpError "Service Unavailable" StatusServiceUnavailable].
Proof.
  pose proof (probes_gate_requests sample.api
                [health.Response 200; health.Response 500; health.DoFails]
                sample.proxy "/api/users") as H.
  cbv zeta in H.
  refine (proj1 (proj2 (H _)) _ _).
  - unfold health.max_int. simpl. lia.
  - vm_compute. intros Hc. discriminate Hc.
  - vm_compute. intros Hc. discriminate Hc.
Defined.

Lemma proberTick_writes_only_the_flag_witness :
  servers (default sample.probing (proberTick 0 health.DoFails sample.probing))
  = servers sample.probing.
Proof.
  exact (proj1 (proj2 (proj2
    (proberTick_writes_only_the_flag 0 health.DoFails sample.probing
       (default sample.probing (proberTick 0 health.DoFails sample.probing))
       eq_refl)))).
Defined.

(** With [hasty] in the file the process is to end in the panic. *)
Lemma ticker_panic_is_settled_at_start_witness :
  crashes (ui.world sample_run.impatientApp).
Proof.
  pose proof (ticker_panic_is_settled_at_start sample_run.time sample_run.impatient
                sample_run.allOk sample_run.impatientApp
                (ui.boot sample_run.impatientApp) sample_impatient
                (ui.serving_refl _ _)) as H.
  cbv zeta in H. apply (proj1 (proj2 H)).
  exists O, sample_run.hasty.
  split; [reflexivity |]. split; [exact sample_provisioned |].
  split; [reflexivity |]. vm_compute. reflexivity.
Defined.

Lemma statuses_agree_with_registry_witness :
  is_Some ((health.GetAllStatuses (st sample.probing)).2 !! "api")
  <-> is_Some (manager.registry (st sample.probing) !! "api").
Proof.
  pose proof (statuses_agree_with_registry "tskey-auth" "/data/tsnet" "" ""
                sample.probing "api" sample_probing_reachable) as H.
  cbv zeta in H. exact (proj1 H).
Defined.

Lemma Validate_idempotent_witness :
  config.Validate sample_run.loaded = (sample_run.loaded, None).
Proof.
  exact (Validate_idempotent sample_run.parsed sample_run.loaded eq_refl).
Defined.

Lemma accepted_configuration_is_well_formed_witness :
  well_formed sample_run.loaded.
Proof.
  exact (accepted_configuration_is_well_formed sample_run.parsed sample_run.loaded
           eq_refl).
Defined.

Lemma Validate_error_names_first_offence_witness :
  error_justified sample_run.twice (config.ErrDuplicateName "web").
Proof.
  exact (Validate_error_names_first_offence sample_run.twice
           (config.Validate sample_run.twice).1 (config.ErrDuplicateName "web")
           eq_refl).
Defined.

(** [Validate] accepts the file with [hasty], no prober is started for
    it, and its goroutine is to panic. *)
Lemma start_registers_and_probes_witness :
  exists cfg l,
    config.Validate sample_run.impatient = (cfg, None) /\
    manager.registry (st (ui.world sample_run.impatientApp)) !! "api" = Some l /\
    probersOf l (ui.world sample_run.impatientApp) = [] /\
    l ∈ panicking (ui.world sample_run.impatientApp).
Proof.
  destruct (start_registers_and_probes sample_run.impatient sample_run.allOk
              (ui.world sample_run.impatientApp) eq_refl)
    as (cfg & Hv & _ & _ & Hsvc & _).
  destruct (Hsvc O sample_run.hasty) as (l & s & Hl & _ & _ & _ & _ & Hneg & _).
  - injection Hv as <-. reflexivity.
  - exact sample_provisioned.
  - exists cfg, l. split; [exact Hv |]. split; [exact Hl |].
    apply Hneg; [reflexivity | vm_compute; reflexivity].
Defined.

Lemma api_AddService_outcomes_witness :
  config.Services (ui.cfg sample_run.withDb)
  = config.Services (ui.cfg sample_run.app) ++ [sample_run.dbConfig].
Proof.
  pose proof (api_AddService_outcomes sample_run.time sample_run.db
                sample_run.dbConfig sample.ok sample_run.app eq_refl) as H.
  cbv zeta in H. destruct H as (_ & _ & _ & _ & H).
  refine (proj1 (proj2 (H _ eq_refl sample_provisioned))).
  vm_compute. eexists. reflexivity.
Defined.

Lemma api_DeleteService_outcomes_witness :
  (ui.DeleteService "DELETE" "/api/services/db" manager.NoSelf sample_run.app).1.2
  = ui.ErrorReply "Failed to remove service: service db not found" 500.
Proof.
  pose proof (api_DeleteService_outcomes "db" manager.NoSelf sample_run.app eq_refl)
    as H.
  cbv zeta in H. destruct H as (_ & _ & H & _).
  exact (f_equal (fun r => r.1.2) (H eq_refl)).
Defined.

(** The POST for [db] run alone leaves the configuration in step; run
    inside a DELETE for [api] it does not. *)
Lemma api_keeps_configuration_over_registry_witness :
  config_covers_registry (ui.app sample_run.served) /\
  exists s',
    ui.serving sample_run.time (ui.boot sample_run.app) s' /\
    ui.handlers s' = [] /\
    ~ config_covers_registry (ui.app s').
Proof.
  destruct (api_keeps_configuration_over_registry sample_run.time
              sample_run.parsed sample_run.allOk sample_run.app sample_started)
    as [Hserial Hrace].
  split.
  - exact (proj1 (proj2 (Hserial sample_run.served sample_withDb_serial) eq_refl)).
  - destruct (Hrace (ui.boot sample_run.app) sample_run.db sample_run.dbConfig
                sample.ok "api" (ui.serving_refl _ _) eq_refl eq_refl
                sample_provisioned eq_refl)
      as (s' & Hs' & Hnil & Hnot & _).
    + vm_compute. eexists. reflexivity.
    + reflexivity.
    + exact sample_db_new.
    + exists s'. split; [exact Hs' |]. split; [exact Hnil | exact Hnot].
Defined.

(** [db], added through the API with its health check enabled, is the
    object at 3, and has no prober. *)
Lemma services_added_at_run_time_are_never_probed_witness :
  manager.registry (st (ui.world sample_run.withDb)) !! "db" = Some 3%positive /\
  probersOf 3%positive (ui.world sample_run.withDb) = [].
Proof.
  split; [reflexivity |].
  pose proof (services_added_at_run_time_are_never_probed sample_run.time
                sample_run.parsed sample_run.allOk sample_run.app
                sample_run.served 3%positive sample_started sample_withDb) as H.
  cbv zeta in H. exact (proj1 (proj2 H eq_refl)).
Defined.

Lemma api_can_save_rejected_configuration_witness :
  exists saved,
    (ui.AddService sample_run.time "POST" (inl sample_run.nameless) sample.ok
       sample_run.app).2 = [saved] /\
    is_Some (config.Validate saved).2.
Proof.
  pose proof (api_can_save_rejected_configuration sample_run.time sample_run.nameless
                sample_run.namelessConfig sample.ok sample_run.app eq_refl) as H.
  cbv zeta in H.
  destruct H as (_ & saved & Hs & _ & Hrej).
  - vm_compute. eexists. reflexivity.
  - reflexivity.
  - exact sample_provisioned.
  - left. left. reflexivity.
  - exists saved. split; [exact Hs | exact Hrej].
Defined.

Lemma slash_in_name_is_unreachable_witness :
  manager.registry
    (st (ui.world
           (ui.DeleteService "DELETE" "/api/services/a/b" manager.NoSelf
              sample_run.withNested).1.1)) !! "a/b"
  = Some 3%positive.
Proof.
  exact (proj2 (slash_in_name_is_unreachable "DELETE" "/api/services/a/b"
                  manager.NoSelf sample_run.withNested "a/b" 3%positive
                  eq_refl eq_refl)).
Defined.

Lemma api_reads_agree_with_registry_witness :
  ui.GetService sample_run.time "GET" "/api/services/nothing" sample_run.withDb
  = ui.ErrorReply "Service not found" 404.
Proof.
  pose proof (api_reads_agree_with_registry sample_run.time sample_run.parsed
                sample_run.allOk sample_run.app sample_run.served "nothing"
                sample_started sample_withDb eq_refl) as H.
  cbv zeta in H. exact (proj1 H eq_refl).
Defined.
